(** * XrayCryst_FHE: the record store and workflow of [App.tsx], and the
    contract [SecureXrayCrystallography.sol]

    The development embeds the three ledger operations of
    [frontend/web/src/App.tsx] ([loadAnalysisData], [uploadXrayImage],
    [processWithFHE]) together with the owner gate [isOwner], over a model
    of the JavaScript values and library calls they use, and checks the
    properties the specification states about them.  It then embeds the
    contract [contracts/SecureXrayCrystallography.sol], as a state machine
    over its storage, and proves further properties of both. *)

From Stdlib Require Import ZArith NArith Ascii String List Lia Bool.
From Stdlib Require Import DecimalString DecimalN DecimalPos DecimalFacts.
From Stdlib Require Import Sorting.Sorted Sorting.Permutation.
From stdpp Require Import base option gmap strings list fin_maps.

Set Warnings "-register-all".
Local Open Scope Z_scope.

(** ** JavaScript values and library functions

    The model covers the values that the application stores and a little
    more; its limits are these.

    - Text is a sequence of 8-bit characters, the Latin-1 range of
      JavaScript's code units.  [ethers.toUtf8Bytes] and
      [ethers.toUtf8String], inverse to each other on text, are elided: an
      entry of the ledger is the text itself.
    - Numbers are the integers that a double holds exactly, up to
      2^53 - 1 in magnitude (the timestamps are whole seconds).
    - [JSON_parse] gives [None] where [JSON.parse] throws, and also on the
      JSON texts that denote values outside these two ranges: a number with
      a fraction or an exponent or beyond 2^53 - 1, a [\u] escape above
      [\u00ff].  [JSON_valid] tells the two apart: it is the JSON grammar
      in full, and [in_range] holds of the texts on which [JSON_parse]
      is [JSON.parse].  What is proved of [JSON.parse] throwing is stated
      with [JSON_valid]; what is proved of a ledger as a whole is stated
      for entries that are [in_range]. *)
Module JS.

(** A value read back by [JSON.parse] or handed to [JSON.stringify].
    An object lists its own properties in the order in which they are
    enumerated (see [obj_set]).  ([undefined] is not a JSON value: a
    property read is an [option json].) *)
Inductive json : Type :=
| JNull
| JBool (b : bool)
| JNum (z : Z)
| JStr (s : string)
| JArr (l : list json)
| JObj (l : list (string * json)).

Definition dquote : ascii := "034"%char.
Definition backslash : ascii := "\"%char.

Definition MAX_SAFE_INTEGER : Z := 9007199254740991.

(** [Number::toString] on an integer, as in a template literal. *)
Definition print_N (n : N) : string := NilEmpty.string_of_uint (N.to_uint n).

Definition print_Z (z : Z) : string :=
  match z with
  | Z0 => "0"
  | Zpos p => print_N (Npos p)
  | Zneg p => String "-" (print_N (Npos p))
  end.

(** *** JSON.stringify *)

Definition hex_char (n : N) : ascii :=
  if (n <? 10)%N then ascii_of_N (48 + n) else ascii_of_N (87 + n).

(** QuoteJSONString, one character at a time. *)
Definition quote_char (c : ascii) : string :=
  if Ascii.eqb c dquote then String backslash (String dquote "")
  else if Ascii.eqb c backslash then String backslash (String backslash "")
  else if Ascii.eqb c "008" then "\b"
  else if Ascii.eqb c "012" then "\f"
  else if Ascii.eqb c "010" then "\n"
  else if Ascii.eqb c "013" then "\r"
  else if Ascii.eqb c "009" then "\t"
  else if (N_of_ascii c <? 32)%N then
    "\u00" +:+ String (hex_char (N_of_ascii c / 16))
                 (String (hex_char (N_of_ascii c mod 16)) "")
  else String c "".

Fixpoint quote_body (s : string) : string :=
  match s with
  | EmptyString => ""
  | String c r => quote_char c +:+ quote_body r
  end.

Definition quote (s : string) : string :=
  String dquote (quote_body s +:+ String dquote "").

Section stringify.
Variable stringify : json -> string.

Fixpoint stringify_elements (l : list json) : string :=
  match l with
  | [] => ""
  | [v] => stringify v
  | v :: (_ :: _) as r => stringify v +:+ String "," (stringify_elements r)
  end.

Fixpoint stringify_members (l : list (string * json)) : string :=
  match l with
  | [] => ""
  | [(k, v)] => quote k +:+ String ":" (stringify v)
  | (k, v) :: (_ :: _) as r =>
      quote k +:+ String ":" (stringify v) +:+ String "," (stringify_members r)
  end.
End stringify.

(** [JSON.stringify(v)] with no replacer and no indentation. *)
Fixpoint JSON_stringify (v : json) : string :=
  match v with
  | JNull => "null"
  | JBool true => "true"
  | JBool false => "false"
  | JNum z => print_Z z
  | JStr s => quote s
  | JArr l => String "[" (stringify_elements JSON_stringify l +:+ "]")
  | JObj l => String "{" (stringify_members JSON_stringify l +:+ "}")
  end.

(** *** JSON.parse *)

Definition is_ws (c : ascii) : bool :=
  Ascii.eqb c " " || Ascii.eqb c "009" || Ascii.eqb c "010" || Ascii.eqb c "013".

Fixpoint skip_ws (s : string) : string :=
  match s with
  | String c r => if is_ws c then skip_ws r else s
  | EmptyString => ""
  end.

Definition digit_val (c : ascii) : option N :=
  let n := N_of_ascii c in
  if ((48 <=? n) && (n <=? 57))%N then Some (n - 48)%N else None.

Definition is_digit (c : ascii) : bool :=
  match digit_val c with Some _ => true | None => false end.

Definition hex_val (c : ascii) : option N :=
  let n := N_of_ascii c in
  if ((48 <=? n) && (n <=? 57))%N then Some (n - 48)%N
  else if ((97 <=? n) && (n <=? 102))%N then Some (n - 87)%N
  else if ((65 <=? n) && (n <=? 70))%N then Some (n - 55)%N
  else None.

Fixpoint parse_digits (acc : N) (s : string) : N * string :=
  match s with
  | String c r =>
      match digit_val c with
      | Some d => parse_digits (10 * acc + d)%N r
      | None => (acc, s)
      end
  | EmptyString => (acc, "")
  end.

(** The integer part of a JSON number: [0], or a non-zero digit followed by
    digits. *)
Definition parse_int (s : string) : option (N * string) :=
  match s with
  | String c r =>
      match digit_val c with
      | Some d => if (d =? 0)%N then Some (0%N, r) else Some (parse_digits d r)
      | None => None
      end
  | EmptyString => None
  end.

(** What may not follow the integer part: a further digit (a leading zero
    is a syntax error), or a fraction or exponent, whose values are outside
    the integers of this model. *)
Definition number_ends (s : string) : bool :=
  match s with
  | String c _ =>
      negb (is_digit c || Ascii.eqb c "." || Ascii.eqb c "e" || Ascii.eqb c "E")
  | EmptyString => true
  end.

Definition parse_number (s : string) : option (Z * string) :=
  let '(neg, s1) :=
    match s with
    | String c r => if Ascii.eqb c "-" then (true, r) else (false, s)
    | EmptyString => (false, s)
    end in
  '(n, r) ← parse_int s1;
  if number_ends r && (Z.of_N n <=? MAX_SAFE_INTEGER)
  then Some (if neg then - Z.of_N n else Z.of_N n, r)
  else None.

(** The characters of a string literal after its opening quote, up to and
    including the closing quote. *)
Fixpoint parse_string_body (s : string) : option (string * string) :=
  match s with
  | EmptyString => None
  | String c r =>
      if Ascii.eqb c dquote then Some ("", r)
      else if Ascii.eqb c backslash then
        match r with
        | EmptyString => None
        | String e r1 =>
            let simple (x : ascii) :=
              '(t, r') ← parse_string_body r1; Some (String x t, r') in
            if Ascii.eqb e dquote then simple dquote
            else if Ascii.eqb e backslash then simple backslash
            else if Ascii.eqb e "/" then simple "/"%char
            else if Ascii.eqb e "b" then simple "008"%char
            else if Ascii.eqb e "f" then simple "012"%char
            else if Ascii.eqb e "n" then simple "010"%char
            else if Ascii.eqb e "r" then simple "013"%char
            else if Ascii.eqb e "t" then simple "009"%char
            else if Ascii.eqb e "u" then
              match r1 with
              | String h1 (String h2 (String h3 (String h4 r5))) =>
                  a ← hex_val h1; b ← hex_val h2; c ← hex_val h3; d ← hex_val h4;
                  let code := (((a * 16 + b) * 16 + c) * 16 + d)%N in
                  if (code <? 256)%N then
                    '(t, r') ← parse_string_body r5;
                    Some (String (ascii_of_N code) t, r')
                  else None
              | _ => None
              end
            else None
        end
      else if (N_of_ascii c <? 32)%N then None
      else '(t, r') ← parse_string_body r; Some (String c t, r')
  end.

Fixpoint strip_prefix (lit s : string) : option string :=
  match lit with
  | EmptyString => Some s
  | String a lit' =>
      match s with
      | String b r => if Ascii.eqb a b then strip_prefix lit' r else None
      | EmptyString => None
      end
  end.

Definition expect (lit : string) (v : json) (s : string) : option (json * string) :=
  r ← strip_prefix lit s; Some (v, r).

(** An array index: the decimal text of an integer up to 2^32 - 2. *)
Definition array_index (k : string) : option N :=
  match parse_int k with
  | Some (n, EmptyString) => if (n <=? 4294967294)%N then Some n else None
  | _ => None
  end.

(** The order of [OrdinaryOwnPropertyKeys]: a new key [k] is listed before
    the key [k'] when [k] is an array index and [k'] is a greater one or
    none. *)
Definition precedes (k k' : string) : bool :=
  match array_index k with
  | Some i =>
      match array_index k' with
      | Some j => (i <? j)%N
      | None => true
      end
  | None => false
  end.

(** [CreateDataProperty]: an existing key keeps its place and takes the new
    value; a new key goes where the enumeration has it, array indices in
    ascending order first, then the other keys in creation order. *)
Fixpoint obj_set (k : string) (v : json) (o : list (string * json)) : list (string * json) :=
  match o with
  | [] => [(k, v)]
  | (k', v') :: r =>
      if String.eqb k k' then (k, v) :: r
      else if precedes k k' then (k, v) :: (k', v') :: r
      else (k', v') :: obj_set k v r
  end.

Fixpoint obj_get (k : string) (o : list (string * json)) : option json :=
  match o with
  | [] => None
  | (k', v) :: r => if String.eqb k k' then Some v else obj_get k r
  end.

Definition obj_of_members (ms : list (string * json)) : list (string * json) :=
  fold_left (fun o kv => obj_set kv.1 kv.2 o) ms [].

Section parse.
Variable parse_value : string -> option (json * string).

(** The elements of an array, from the first one to the closing bracket. *)
Fixpoint parse_elements (n : nat) (s : string) : option (list json * string) :=
  match n with
  | O => None
  | S n =>
      '(v, r) ← parse_value s;
      match skip_ws r with
      | String c r1 =>
          if Ascii.eqb c "," then
            '(vs, r2) ← parse_elements n r1; Some (v :: vs, r2)
          else if Ascii.eqb c "]" then Some ([v], r1)
          else None
      | EmptyString => None
      end
  end.

(** The members of an object, from the first key to the closing brace. *)
Fixpoint parse_members (n : nat) (s : string)
  : option (list (string * json) * string) :=
  match n with
  | O => None
  | S n =>
      match skip_ws s with
      | String q r =>
          if Ascii.eqb q dquote then
            '(k, r1) ← parse_string_body r;
            match skip_ws r1 with
            | String c r2 =>
                if Ascii.eqb c ":" then
                  '(v, r3) ← parse_value r2;
                  match skip_ws r3 with
                  | String d r4 =>
                      if Ascii.eqb d "," then
                        '(ms, r5) ← parse_members n r4; Some ((k, v) :: ms, r5)
                      else if Ascii.eqb d "}" then Some ([(k, v)], r4)
                      else None
                  | EmptyString => None
                  end
                else None
            | EmptyString => None
            end
          else None
      | EmptyString => None
      end
  end.
End parse.

Fixpoint parse_value (fuel : nat) (s : string) : option (json * string) :=
  match fuel with
  | O => None
  | S fuel =>
      match skip_ws s with
      | EmptyString => None
      | String c r =>
          if Ascii.eqb c "{" then
            match skip_ws r with
            | String c' r' =>
                if Ascii.eqb c' "}" then Some (JObj [], r')
                else '(ms, r2) ← parse_members (parse_value fuel) fuel r;
                     Some (JObj (obj_of_members ms), r2)
            | EmptyString => None
            end
          else if Ascii.eqb c "[" then
            match skip_ws r with
            | String c' r' =>
                if Ascii.eqb c' "]" then Some (JArr [], r')
                else '(vs, r2) ← parse_elements (parse_value fuel) fuel r;
                     Some (JArr vs, r2)
            | EmptyString => None
            end
          else if Ascii.eqb c dquote then
            '(t, r') ← parse_string_body r; Some (JStr t, r')
          else if Ascii.eqb c "t" then expect "true" (JBool true) (String c r)
          else if Ascii.eqb c "f" then expect "false" (JBool false) (String c r)
          else if Ascii.eqb c "n" then expect "null" JNull (String c r)
          else '(z, r') ← parse_number (String c r); Some (JNum z, r')
      end
  end.

(** [JSON.parse(s)]: [None] stands for the [SyntaxError] it throws (and for
    the texts outside the model, see the head of this module). *)
Definition JSON_parse (s : string) : option json :=
  '(v, r) ← parse_value (S (String.length s)) s;
  match skip_ws r with
  | EmptyString => Some v
  | String _ _ => None
  end.

(** *** The JSON grammar

    [JSON_valid s] is whether [s] is a JSON text, one that [JSON.parse]
    reads without a [SyntaxError].  The recogniser goes the way of
    [parse_value] and builds no value, so that it is not held to the
    numbers and characters of the model: a number may have a fraction and
    an exponent and be of any size, a [\u] escape may be any four
    hexadecimal digits. *)

Fixpoint skip_digits (s : string) : string :=
  match s with
  | String c r => if is_digit c then skip_digits r else s
  | EmptyString => ""
  end.

(** One digit or more. *)
Definition valid_digits (s : string) : option string :=
  match s with
  | String c r => if is_digit c then Some (skip_digits r) else None
  | EmptyString => None
  end.

Definition valid_int (s : string) : option string :=
  match s with
  | String c r =>
      match digit_val c with
      | Some d => if (d =? 0)%N then Some r else Some (skip_digits r)
      | None => None
      end
  | EmptyString => None
  end.

Definition valid_fraction (s : string) : option string :=
  match s with
  | String c r => if Ascii.eqb c "." then valid_digits r else Some s
  | EmptyString => Some s
  end.

Definition valid_exponent (s : string) : option string :=
  match s with
  | String c r =>
      if Ascii.eqb c "e" || Ascii.eqb c "E" then
        match r with
        | String d r' =>
            if Ascii.eqb d "+" || Ascii.eqb d "-" then valid_digits r'
            else valid_digits r
        | EmptyString => None
        end
      else Some s
  | EmptyString => Some s
  end.

(** A number, and what is left of the text after it. *)
Definition valid_number (s : string) : option string :=
  let s1 :=
    match s with
    | String c r => if Ascii.eqb c "-" then r else s
    | EmptyString => s
    end in
  r ← valid_int s1; r ← valid_fraction r; valid_exponent r.

Fixpoint valid_string_body (s : string) : option string :=
  match s with
  | EmptyString => None
  | String c r =>
      if Ascii.eqb c dquote then Some r
      else if Ascii.eqb c backslash then
        match r with
        | EmptyString => None
        | String e r1 =>
            if Ascii.eqb e dquote || Ascii.eqb e backslash || Ascii.eqb e "/"
               || Ascii.eqb e "b" || Ascii.eqb e "f" || Ascii.eqb e "n"
               || Ascii.eqb e "r" || Ascii.eqb e "t"
            then valid_string_body r1
            else if Ascii.eqb e "u" then
              match r1 with
              | String h1 (String h2 (String h3 (String h4 r5))) =>
                  _ ← hex_val h1; _ ← hex_val h2; _ ← hex_val h3; _ ← hex_val h4;
                  valid_string_body r5
              | _ => None
              end
            else None
        end
      else if (N_of_ascii c <? 32)%N then None
      else valid_string_body r
  end.

Section valid.
Variable valid_value : string -> option string.

Fixpoint valid_elements (n : nat) (s : string) : option string :=
  match n with
  | O => None
  | S n =>
      r ← valid_value s;
      match skip_ws r with
      | String c r1 =>
          if Ascii.eqb c "," then valid_elements n r1
          else if Ascii.eqb c "]" then Some r1
          else None
      | EmptyString => None
      end
  end.

Fixpoint valid_members (n : nat) (s : string) : option string :=
  match n with
  | O => None
  | S n =>
      match skip_ws s with
      | String q r =>
          if Ascii.eqb q dquote then
            r1 ← valid_string_body r;
            match skip_ws r1 with
            | String c r2 =>
                if Ascii.eqb c ":" then
                  r3 ← valid_value r2;
                  match skip_ws r3 with
                  | String d r4 =>
                      if Ascii.eqb d "," then valid_members n r4
                      else if Ascii.eqb d "}" then Some r4
                      else None
                  | EmptyString => None
                  end
                else None
            | EmptyString => None
            end
          else None
      | EmptyString => None
      end
  end.
End valid.

Fixpoint valid_value (fuel : nat) (s : string) : option string :=
  match fuel with
  | O => None
  | S fuel =>
      match skip_ws s with
      | EmptyString => None
      | String c r =>
          if Ascii.eqb c "{" then
            match skip_ws r with
            | String c' r' =>
                if Ascii.eqb c' "}" then Some r'
                else valid_members (valid_value fuel) fuel r
            | EmptyString => None
            end
          else if Ascii.eqb c "[" then
            match skip_ws r with
            | String c' r' =>
                if Ascii.eqb c' "]" then Some r'
                else valid_elements (valid_value fuel) fuel r
            | EmptyString => None
            end
          else if Ascii.eqb c dquote then valid_string_body r
          else if Ascii.eqb c "t" then strip_prefix "true" (String c r)
          else if Ascii.eqb c "f" then strip_prefix "false" (String c r)
          else if Ascii.eqb c "n" then strip_prefix "null" (String c r)
          else valid_number (String c r)
      end
  end.

Definition JSON_valid (s : string) : bool :=
  match valid_value (S (String.length s)) s with
  | Some r =>
      match skip_ws r with
      | EmptyString => true
      | String _ _ => false
      end
  | None => false
  end.

(** The text is one the model reads as [JSON.parse] does: it is no JSON
    text, and [JSON.parse] throws as [JSON_parse] gives [None]; or
    [JSON_parse] has its value. *)
Definition in_range (s : string) : bool :=
  negb (JSON_valid s) || match JSON_parse s with Some _ => true | None => false end.

(** *** Coercions and string functions *)

Definition has_key (k : string) (o : list (string * json)) : bool :=
  match obj_get k o with Some _ => true | None => false end.

(** [ToString(v)], as a template literal applies it.  [None] is the
    [TypeError] of an object whose own [toString] property (never callable
    in a parsed value) hides [Object.prototype.toString].  An array is
    joined with commas, [null] elements giving the empty text. *)
Fixpoint to_string (v : json) : option string :=
  match v with
  | JNull => Some "null"
  | JBool true => Some "true"
  | JBool false => Some "false"
  | JNum z => Some (print_Z z)
  | JStr s => Some s
  | JArr l =>
      (fix join (l : list json) : option string :=
         match l with
         | [] => Some ""
         | e :: r =>
             a ← match e with JNull => Some "" | _ => to_string e end;
             match r with
             | [] => Some a
             | _ :: _ => b ← join r; Some (a +:+ String "," b)
             end
         end) l
  | JObj o => if has_key "toString" o then None else Some "[object Object]"
  end.

(** [ToNumber] of a property read.  The outer [None] is the [TypeError]
    of an array or object that has no primitive value (it is raised exactly
    when [ToString] raises); the inner [None] is [NaN].  Text, and the text
    of an array, which JavaScript reads as a numeral, is not followed that
    far and counts as [NaN]: what is proved of the order of a listing is
    proved for timestamps that are numbers. *)
Definition to_number (v : option json) : option (option Z) :=
  match v with
  | None => Some None
  | Some JNull => Some (Some 0)
  | Some (JBool b) => Some (Some (if b then 1 else 0))
  | Some (JNum z) => Some (Some z)
  | Some (JStr _) => Some None
  | Some x => _ ← to_string x; Some None
  end.

(** [x || d] on a property read. *)
Definition or_default (v : option json) (d : json) : json :=
  match v with
  | None | Some JNull | Some (JBool false) | Some (JNum Z0) | Some (JStr EmptyString) => d
  | Some x => x
  end.

Definition lower_char (c : ascii) : ascii :=
  let n := N_of_ascii c in
  if ((65 <=? n) && (n <=? 90) || (192 <=? n) && (n <=? 222) && negb (n =? 215))%N
  then ascii_of_N (n + 32) else c.

(** [String.prototype.toLowerCase] on the Latin-1 range. *)
Fixpoint toLowerCase (s : string) : string :=
  match s with
  | EmptyString => ""
  | String c r => String (lower_char c) (toLowerCase r)
  end.

Definition b64_char (n : N) : ascii :=
  if (n <? 26)%N then ascii_of_N (65 + n)
  else if (n <? 52)%N then ascii_of_N (71 + n)
  else if (n <? 62)%N then ascii_of_N (n - 4)
  else if (n =? 62)%N then "+"%char else "/"%char.

(** [btoa]: base64 with padding. *)
Fixpoint btoa (s : string) : string :=
  match s with
  | EmptyString => ""
  | String a EmptyString =>
      let x := N_of_ascii a in
      String (b64_char (x / 4)) (String (b64_char (x mod 4 * 16)) "==")
  | String a (String b EmptyString) =>
      let x := N_of_ascii a in
      let y := N_of_ascii b in
      String (b64_char (x / 4))
        (String (b64_char (x mod 4 * 16 + y / 16))
           (String (b64_char (y mod 16 * 4)) "="))
  | String a (String b (String c r)) =>
      let x := N_of_ascii a in
      let y := N_of_ascii b in
      let z := N_of_ascii c in
      String (b64_char (x / 4))
        (String (b64_char (x mod 4 * 16 + y / 16))
           (String (b64_char (y mod 16 * 4 + z / 64))
              (String (b64_char (z mod 64)) (btoa r))))
  end.

(** A read [v.k] of a property that no prototype defines (such are the
    six field names of a stored record): [None] is the [TypeError] of
    reading from [null], [Some None] is [undefined]. *)
Definition get_prop (v : json) (k : string) : option (option json) :=
  match v with
  | JNull => None
  | JObj o => Some (obj_get k o)
  | _ => Some None
  end.

(** What [for (const x of v)] runs over; [None] is the [TypeError] of a
    value that is not iterable. *)
Definition iterate (v : json) : option (list json) :=
  match v with
  | JArr l => Some l
  | JStr s => Some (map (fun c => JStr (String c "")) (list_ascii_of_string s))
  | _ => None
  end.

(** The own enumerable properties that an object spread [{...v}] copies. *)
Definition spread (v : json) : list (string * json) :=
  match v with
  | JObj o => o
  | JArr l => imap (fun i e => (print_N (N.of_nat i), e)) l
  | JStr s =>
      imap (fun i c => (print_N (N.of_nat i), JStr (String c "")))
        (list_ascii_of_string s)
  | _ => []
  end.

(** [Array.prototype.sort(comparefn)]: a stable sort, an element going
    after its neighbour when [comparefn] is positive on them.  [None] is
    the exception of a comparison that throws (from two elements on, every
    element is compared at least once). *)
Section sort.
Context {A : Type} (comparefn : A -> A -> option Z).

Fixpoint sort_insert (x : A) (l : list A) : option (list A) :=
  match l with
  | [] => Some [x]
  | y :: r =>
      c ← comparefn x y;
      if 0 <? c then r' ← sort_insert x r; Some (y :: r')
      else Some (x :: y :: r)
  end.

Fixpoint sort (l : list A) : option (list A) :=
  match l with
  | [] => Some []
  | x :: r => r' ← sort r; sort_insert x r'
  end.
End sort.

End JS.

Import JS.

(** ** The application: [frontend/web/src/App.tsx] *)
Module App.

(** [interface CrystallographyData].  The interface is erased at run time:
    a field holds whatever the stored JSON held, or [undefined]. *)
Record CrystallographyData := mkData {
  id : json;
  encryptedImage : option json;
  densityMap : option json;
  molecularStructure : option json;
  timestamp : option json;
  owner : option json;
  status : json;
}.

(** What a [catch (e)] receives: [new Error(message)] (thrown by the code
    or by a rejected [setData]), or an error raised by the engine. *)
Inductive exn :=
| Error (message : string)
| SyntaxError
| TypeError.

Inductive completion (A : Type) :=
| Return (a : A)
| Throw (e : exn).
Arguments Return {A} a.
Arguments Throw {A} e.

(** The [status] of [transactionStatus] while it is visible; a failure
    keeps the exception its message is built from. *)
Inductive Notice :=
| Hidden
| Pending
| Success
| Failure (e : exn).

(** Modelled from the spec: the ledger behind [getContractReadOnly] and
    [getContractWithSigner].  Neither contract.ts nor a contract with
    [getData], [setData] and [isAvailable] is among the sources; the
    specification (section 6) has it as a flat key/value store with the
    two calls modelled below.  A read always answers (a failing transport
    is not modelled).  The record also holds the wallet's part in a
    call. *)
Record World := mkWorld {
  (** the contract's key/value mapping *)
  storage : gmap string string;
  (** the [setData] calls that went through, oldest first *)
  journal : list (string * string);
  (** [getContractReadOnly()] yields a contract *)
  reader : bool;
  (** [contract.isAvailable()] *)
  available : bool;
  (** [getContractWithSigner()] yields a contract *)
  signer : bool;
  (** how the coming [setData] calls end: [None] goes through, [Some m]
      throws [Error(m)]; past the end of the list every call goes through *)
  answers : list (option string);
}.

(** The React state that the three operations read and write. *)
Record AppState := mkApp {
  account : string;
  provider : bool;
  analysisData : list CrystallographyData;
  transactionStatus : Notice;
  (** [newAnalysisData]: [imageName] and [description] *)
  newAnalysisData : string * string;
}.

Definition setAnalysisData (l : list CrystallographyData) (st : AppState) : AppState :=
  mkApp (account st) (provider st) l (transactionStatus st) (newAnalysisData st).

Definition setTransactionStatus (n : Notice) (st : AppState) : AppState :=
  mkApp (account st) (provider st) (analysisData st) n (newAnalysisData st).

Definition setAccount (a : string) (st : AppState) : AppState :=
  mkApp a (provider st) (analysisData st) (transactionStatus st) (newAnalysisData st).

(** *** Ledger calls, with exceptions *)

Definition M (A : Type) : Type := World -> completion A * World.

Definition ret {A} (a : A) : M A := fun w => (Return a, w).

Definition throw {A} (e : exn) : M A := fun w => (Throw e, w).

Definition bind {A B} (m : M A) (k : A -> M B) : M B :=
  fun w =>
    match m w with
    | (Return a, w') => k a w'
    | (Throw e, w') => (Throw e, w')
    end.

Notation "'do' x <- m ; k" := (bind m (fun x => k))
  (at level 10, x name, m at level 100, k at level 200, only parsing).
Notation "m ;; k" := (bind m (fun _ => k))
  (at level 100, k at level 200, right associativity, only parsing).

(** Modelled from the spec: [contract.getData(key)], which "returns empty
    bytes if key absent; never throws for absence". *)
Definition getData (w : World) (key : string) : string :=
  default "" (storage w !! key).

Definition readData (key : string) : M string :=
  fun w => (Return (getData w key), w).

(** Modelled from the spec: [contract.setData(key, value)], which "requires
    an authenticated session; fails with LedgerError on rejection (e.g.,
    user declines authorization) or transport failure".  A call that goes
    through puts the value under the key; one that fails changes nothing. *)
Definition setData (key value : string) : M unit :=
  fun w =>
    match answers w with
    | Some m :: rest =>
        (Throw (Error m),
         mkWorld (storage w) (journal w) (reader w) (available w) (signer w) rest)
    | ans =>
        (Return tt,
         mkWorld (<[key := value]> (storage w)) (journal w ++ [(key, value)])
           (reader w) (available w) (signer w) (tail ans))
    end.

(** [getContractWithSigner()] and the [if (!contract) throw ...] after it. *)
Definition getContractWithSigner : M unit :=
  fun w =>
    if signer w then (Return tt, w)
    else (Throw (Error "Failed to get contract with signer"), w).

(** A step of the engine that may throw. *)
Definition engine {A} (e : exn) (o : option A) : M A :=
  match o with
  | Some a => ret a
  | None => throw e
  end.

(** The key of a record's entry: the template [`analysis_${key}`]. *)
Definition record_key (k : string) : string := "analysis_" +:+ k.

(** *** loadAnalysisData (App.tsx:70-128) *)

(** Lines 101-110: the record built from the bytes stored for [key]. *)
Definition decode (key : json) (dataBytes : string) : option CrystallographyData :=
  analysisData ← JSON_parse dataBytes;
  image ← get_prop analysisData "image";
  density ← get_prop analysisData "densityMap";
  structure ← get_prop analysisData "structure";
  time ← get_prop analysisData "timestamp";
  own ← get_prop analysisData "owner";
  stat ← get_prop analysisData "status";
  Some (mkData key image density structure time own
          (or_default stat (JStr "processing"))).

(** The bytes that lines 154-167 and 251-261 store for a record:
    [JSON.stringify] of its fields under the stored names.  The id is not
    among them (it is the key), and a property that is [undefined] is left
    out of the text. *)
Definition member (k : string) (v : option json) : list (string * json) :=
  match v with
  | Some x => [(k, x)]
  | None => []
  end.

Definition encode (r : CrystallographyData) : string :=
  JSON_stringify
    (JObj (member "image" (encryptedImage r) ++ member "densityMap" (densityMap r)
           ++ member "structure" (molecularStructure r)
           ++ member "timestamp" (timestamp r) ++ member "owner" (owner r)
           ++ [("status", status r)])).

(** Lines 83-92 (and 169-178): the [keys] variable. *)
Definition load_keys (w : World) : json :=
  let keysBytes := getData w "analysis_keys" in
  if String.eqb keysBytes "" then JArr []
  else default (JArr []) (JSON_parse keysBytes).

(** Lines 98-114, one turn of the loop for a key that has a text: [None]
    when nothing is pushed.  (A key that has none does not get here, see
    [load_list].) *)
Definition load_entry (w : World) (key : json) : option CrystallographyData :=
  k ← to_string key;
  let dataBytes := getData w (record_key k) in
  if String.eqb dataBytes "" then None else decode key dataBytes.

(** Lines 94-118, the loop.  A key that has no text makes the template of
    line 98 throw, and line 116, which formats the key for the log, throw
    again from inside the [catch]: the loop ends there and the exception
    goes to the [catch] of line 122, [None]. *)
Fixpoint load_list (w : World) (keys : list json) : option (list CrystallographyData) :=
  match keys with
  | [] => Some []
  | key :: rest =>
      match to_string key with
      | None => None
      | Some _ =>
          list ← load_list w rest;
          Some (match load_entry w key with
                | Some r => r :: list
                | None => list
                end)
      end
  end.

(** Line 120: [(a, b) => b.timestamp - a.timestamp], a [NaN] counting as 0. *)
Definition newest_first (a b : CrystallographyData) : option Z :=
  y ← to_number (timestamp b);
  x ← to_number (timestamp a);
  Some (match y, x with
        | Some y, Some x => y - x
        | _, _ => 0
        end).

(** Lines 94-120: the records of the index's ids, sorted. *)
Definition list_of_keys (w : World) (keys : list json) : option (list CrystallographyData) :=
  list ← load_list w keys;
  sort newest_first list.

(** The list handed to [setAnalysisData]; [None] when it is not called. *)
Definition loadAnalysisData (w : World) : option (list CrystallographyData) :=
  if negb (reader w) then None
  else if negb (available w) then None
  else
    keys ← iterate (load_keys w);
    list_of_keys w keys.

Definition refresh (w : World) (st : AppState) : AppState :=
  match loadAnalysisData w with
  | Some l => setAnalysisData l st
  | None => st
  end.

(** *** uploadXrayImage (App.tsx:130-220) *)

(** Line 152: the id, from [Date.now()] and the random base-36 suffix. *)
Definition make_id (now : N) (suffix : string) : string :=
  print_N now +:+ String "-" suffix.

(** Lines 154-161. *)
Definition new_record (encryptedImage : string) (now : N) (account : string) : json :=
  JObj [("image", JStr encryptedImage);
        ("densityMap", JStr "");
        ("structure", JStr "");
        ("timestamp", JNum (Z.of_N (now / 1000)));
        ("owner", JStr account);
        ("status", JStr "processing")].

(** Line 145. *)
Definition encrypt (newAnalysisData : string * string) : string :=
  "FHE-" +:+ btoa (JSON_stringify (JObj [("imageName", JStr newAnalysisData.1);
                                          ("description", JStr newAnalysisData.2)])).

(** Line 180: [keys.push(analysisId)]. *)
Definition push (keys : json) (x : json) : option json :=
  match keys with
  | JArr l => Some (JArr (l ++ [x]))
  | _ => None
  end.

(** Lines 144-185, the body of the [try].  [now] and [now'] are the two
    readings of [Date.now()] (whole milliseconds), [suffix] is
    [Math.random().toString(36).substring(2, 9)]. *)
Definition upload_try (st : AppState) (now : N) (suffix : string) (now' : N) : M unit :=
  let encryptedImage := encrypt (newAnalysisData st) in
  getContractWithSigner ;;
  let analysisId := make_id now suffix in
  let analysisData := new_record encryptedImage now' (account st) in
  setData (record_key analysisId) (JSON_stringify analysisData) ;;
  do keysBytes <- readData "analysis_keys" ;
  let keys :=
    if String.eqb keysBytes "" then JArr []
    else default (JArr []) (JSON_parse keysBytes) in
  do keys' <- engine TypeError (push keys (JStr analysisId)) ;
  setData "analysis_keys" (JSON_stringify keys').

Definition uploadXrayImage (now : N) (suffix : string) (now' : N)
    (st : AppState) (w : World) : AppState * World :=
  if negb (provider st) then (st, w)
  else
    match upload_try st now suffix now' w with
    | (Return _, w') => (refresh w' (setTransactionStatus Success st), w')
    | (Throw e, w') => (setTransactionStatus (Failure e) st, w')
    end.

(** *** processWithFHE (App.tsx:222-285) *)

(** Lines 251-256. *)
Definition updatedData (analysisData : json) : json :=
  JObj (obj_set "status" (JStr "completed")
          (obj_set "structure" (JStr "FHE-ENCRYPTED-STRUCTURE")
             (obj_set "densityMap" (JStr "FHE-ENCRYPTED-DENSITY-MAP")
                (spread analysisData)))).

(** Lines 235-261, the body of the [try].  The timer of line 236, which
    stands for the computation, resolves whatever happens and is left out;
    the results of the computation are the two constants of
    [updatedData]. *)
Definition process_try (analysisId : json) : M unit :=
  getContractWithSigner ;;
  do k <- engine TypeError (to_string analysisId) ;
  do dataBytes <- readData (record_key k) ;
  if String.eqb dataBytes "" then throw (Error "Analysis not found")
  else
    do analysisData <- engine SyntaxError (JSON_parse dataBytes) ;
    setData (record_key k) (JSON_stringify (updatedData analysisData)).

Definition processWithFHE (analysisId : json) (st : AppState) (w : World)
    : AppState * World :=
  if negb (provider st) then (st, w)
  else
    match process_try analysisId w with
    | (Return _, w') => (refresh w' (setTransactionStatus Success st), w')
    | (Throw e, w') => (setTransactionStatus (Failure e) st, w')
    end.

(** *** The owner gate (App.tsx:287-289) and the views that use it *)

(** [None] is the [TypeError] of calling [toLowerCase] on what is not a
    string. *)
Definition isOwner (account : string) (address : option json) : option bool :=
  match address with
  | Some (JStr a) => Some (String.eqb (toLowerCase account) (toLowerCase a))
  | _ => None
  end.

(** [data.status === "processing"]. *)
Definition is_processing (data : CrystallographyData) : bool :=
  match status data with
  | JStr s => String.eqb s "processing"
  | _ => false
  end.

(** Line 440: whether a row of the list shows "Process with FHE", whose
    click runs [processWithFHE(data.id)]. *)
Definition row_offers_process (account : string) (data : CrystallographyData)
    : option bool :=
  o ← isOwner account (owner data);
  Some (o && is_processing data).

(** Lines 495 and 674-678: whether the details modal shows "Accelerate
    Processing", whose click runs [processWithFHE(selectedData.id)]. *)
Definition modal_offers_process (account : string) (data : CrystallographyData)
    : option bool :=
  o ← isOwner account (owner data);
  Some (if is_processing data then o else false).

End App.

Import App.

(** ** The application, continued: the wallet (App.tsx:64-68) *)

(** [onDisconnect]: [setAccount("")] and [setProvider(null)]. *)
Definition onDisconnect (st : AppState) : AppState :=
  mkApp "" false (analysisData st) (transactionStatus st) (newAnalysisData st).

(** ** The contract: [contracts/SecureXrayCrystallography.sol] *)
Module Contract.

Local Open Scope N_scope.

(** [address] and [uint256] are numbers; [address(0)] is 0.  Arithmetic on
    [uint256] is checked (Solidity 0.8): a result above [MAX_UINT256]
    panics. *)
Definition address : Type := N.

Definition MAX_UINT256 : N := 2 ^ 256 - 1.

Definition MAX_UINT32 : N := 2 ^ 32 - 1.

(** [euint32], a handle of the FHE library: a ciphertext that a caller
    supplies, or the encryption [FHE.asEuint32(v)] of a value the contract
    knows. *)
Inductive euint32 :=
| ciphertext (handle : N)
| asEuint32 (value : N).

(** [FHE.toBytes32]: the handle itself. *)
Definition toBytes32 (e : euint32) : euint32 := e.

Record EncryptedDiffractionImage := mkImage {
  researcher : address;
  encryptedData : list euint32;
  timestamp : N;
}.

Record EncryptedDensityMap := mkMap {
  encryptedMap : list euint32;
  isComputed : bool;
}.

Record MolecularStructure := mkStructure {
  structureData : string;
  isRevealed : bool;
}.

Inductive event :=
| ImageUploaded (id : N) (researcher : address)
| ComputationStarted (id : N)
| DensityMapComputed (id : N)
| StructureDecrypted (id : N)
| DecryptionRequested (id : N).

(** The storage of the contract, with the events it has emitted and the
    requests it has handed to [FHE.requestDecryption] (the id the library
    answered with, and the ciphertexts), oldest first. *)
Record State := mkState {
  imageCount : N;
  diffractionImages : gmap N EncryptedDiffractionImage;
  densityMaps : gmap N EncryptedDensityMap;
  molecularStructures : gmap N MolecularStructure;
  requestToImageId : gmap N N;
  events : list event;
  requests : list (N * list euint32);
}.

(** A read of a mapping: the zero value where nothing was written. *)
Definition image (s : State) (imageId : N) : EncryptedDiffractionImage :=
  default (mkImage 0 [] 0) (diffractionImages s !! imageId).

Definition density (s : State) (imageId : N) : EncryptedDensityMap :=
  default (mkMap [] false) (densityMaps s !! imageId).

Definition structure (s : State) (imageId : N) : MolecularStructure :=
  default (mkStructure "" false) (molecularStructures s !! imageId).

Definition request (s : State) (requestId : N) : N :=
  default 0%N (requestToImageId s !! requestId).

(** How a call ends: it returns, it reverts with one of the contract's
    reasons, or it reverts otherwise (a checked operation that panics, or
    a check of the FHE library or of [abi.decode] that fails).  A call
    that does not return leaves the state as it was. *)
Inductive outcome (A : Type) :=
| Ok (a : A)
| Revert (reason : string)
| Panic.
Arguments Ok {A} a.
Arguments Revert {A} reason.
Arguments Panic {A}.

(** *** uintToString (lines 154-169) *)

Definition maxlength : nat := 100.

(** The [while] loop; it ends within as many turns as [v] has bits.
    [None] is the panic of an index outside [reversed]. *)
Fixpoint uintToString_digits (fuel : nat) (v : N) (reversed : list ascii) (i : nat)
    : option (list ascii * nat) :=
  if (v =? 0)%N then Some (reversed, i)
  else
    match fuel with
    | O => None
    | S fuel =>
        let remainder := (v mod 10)%N in
        let v := (v / 10)%N in
        if decide (i < length reversed)%nat
        then uintToString_digits fuel v
               (<[i := ascii_of_N (48 + remainder)]> reversed) (S i)
        else None
    end.

Definition uintToString (v : N) : option string :=
  if (v =? 0)%N then Some "0"
  else
    '(reversed, i) ← uintToString_digits (N.to_nat (N.size v)) v (replicate maxlength zero) 0;
    s ← mapM (fun j => reversed !! (i - 1 - j)%nat) (seq 0 i);
    Some (string_of_list_ascii s).

(** *** generateStructureRepresentation (lines 143-151) *)

Definition newline : string := String "010"%char "".

(** The [for] loop from index [i] on, [values] being what is left of the
    array. *)
Fixpoint structure_lines (values : list N) (i : N) (rep : string) : option string :=
  match values with
  | [] => Some rep
  | v :: r =>
      a ← (if (i + 1 <=? MAX_UINT256)%N then uintToString (i + 1) else None);
      b ← uintToString v;
      structure_lines r (i + 1)
        (rep +:+ "Atom " +:+ a +:+ ": Density=" +:+ b +:+ newline)
  end.

Definition generateStructureRepresentation (values : list N) : option string :=
  structure_lines values 0 ("Molecular Structure:" +:+ newline).

(** *** The transactions (lines 41-128) *)

(** [msg.sender] is [sender], [block.timestamp] is [now]. *)
Definition uploadDiffractionImage (sender : address) (now : N)
    (encryptedData : list euint32) (s : State) : outcome State :=
  if (imageCount s <? MAX_UINT256)%N then
    let newId := (imageCount s + 1)%N in
    Ok (mkState newId
          (<[newId := mkImage sender encryptedData now]> (diffractionImages s))
          (<[newId := mkMap [] false]> (densityMaps s))
          (<[newId := mkStructure "" false]> (molecularStructures s))
          (requestToImageId s)
          (events s ++ [ImageUploaded newId sender])
          (requests s))
  else Panic.

(** Lines 72-75: ten entries, the encryptions of 0, 100, ..., 900. *)
Definition dummyMap : list euint32 :=
  (fun i => asEuint32 (N.of_nat i * 100)) <$> seq 0 10.

Definition computeDensityMap (imageId : N) (s : State) : outcome State :=
  if (researcher (image s imageId) =? 0)%N then Revert "Image not found"
  else if isComputed (density s imageId) then Revert "Already computed"
  else
    Ok (mkState (imageCount s) (diffractionImages s)
          (<[imageId := mkMap dummyMap true]> (densityMaps s))
          (molecularStructures s) (requestToImageId s)
          (events s ++ [DensityMapComputed imageId])
          (requests s)).

(** [reqId] is the id that [FHE.requestDecryption] answers with. *)
Definition requestStructureDecryption (sender : address) (imageId : N) (reqId : N)
    (s : State) : outcome State :=
  if negb (researcher (image s imageId) =? sender)%N then Revert "Not owner"
  else if negb (isComputed (density s imageId)) then Revert "Density map not computed"
  else if isRevealed (structure s imageId) then Revert "Already decrypted"
  else
    let ciphertexts := toBytes32 <$> encryptedMap (density s imageId) in
    Ok (mkState (imageCount s) (diffractionImages s) (densityMaps s)
          (molecularStructures s)
          (<[reqId := imageId]> (requestToImageId s))
          (events s ++ [DecryptionRequested imageId])
          (requests s ++ [(reqId, ciphertexts)])).

(** [signed] is whether [FHE.checkSignatures] accepts the clear texts and
    the proof; [values] is what [abi.decode(cleartexts, (uint32[]))]
    yields, [None] when it reverts. *)
Definition decryptStructureCallback (requestId : N) (signed : bool)
    (values : option (list N)) (s : State) : outcome State :=
  let imageId := request s requestId in
  if (imageId =? 0)%N then Revert "Invalid request"
  else if isRevealed (structure s imageId) then Revert "Already decrypted"
  else if negb signed then Panic
  else
    match values ≫= generateStructureRepresentation with
    | Some structureRep =>
        Ok (mkState (imageCount s) (diffractionImages s) (densityMaps s)
              (<[imageId := mkStructure structureRep true]> (molecularStructures s))
              (requestToImageId s)
              (events s ++ [StructureDecrypted imageId])
              (requests s))
    | None => Panic
    end.

(** *** The views (lines 131-140) *)

Definition getEncryptedDensityMap (imageId : N) (s : State) : outcome (list euint32) :=
  if isComputed (density s imageId) then Ok (encryptedMap (density s imageId))
  else Revert "Not computed".

Definition getMolecularStructure (imageId : N) (s : State) : outcome string :=
  if isRevealed (structure s imageId) then Ok (structureData (structure s imageId))
  else Revert "Not decrypted".

(** *** Histories *)

Inductive call :=
| UploadDiffractionImage (sender : address) (now : N) (encryptedData : list euint32)
| ComputeDensityMap (imageId : N)
| RequestStructureDecryption (sender : address) (imageId : N) (reqId : N)
| DecryptStructureCallback (requestId : N) (signed : bool) (values : option (list N)).

Definition exec (c : call) (s : State) : outcome State :=
  match c with
  | UploadDiffractionImage sender now encryptedData =>
      uploadDiffractionImage sender now encryptedData s
  | ComputeDensityMap imageId => computeDensityMap imageId s
  | RequestStructureDecryption sender imageId reqId =>
      requestStructureDecryption sender imageId reqId s
  | DecryptStructureCallback requestId signed values =>
      decryptStructureCallback requestId signed values s
  end.

(** The state after a transaction: unchanged when the call does not
    return. *)
Definition step (s : State) (c : call) : State :=
  match exec c s with
  | Ok s' => s'
  | _ => s
  end.

Definition run (cs : list call) (s : State) : State := foldl step s cs.

(** The contract as deployed: all storage zero. *)
Definition deployed : State := mkState 0 ∅ ∅ ∅ ∅ [] [].

End Contract.

(** ** Measures and predicates of the proofs *)

(** The value of a numeral read left to right, as [parse_digits] reads. *)
Fixpoint uint_val (acc : N) (d : Decimal.uint) : N :=
  match d with
  | Decimal.Nil => acc
  | Decimal.D0 d => uint_val (10 * acc) d
  | Decimal.D1 d => uint_val (10 * acc + 1) d
  | Decimal.D2 d => uint_val (10 * acc + 2) d
  | Decimal.D3 d => uint_val (10 * acc + 3) d
  | Decimal.D4 d => uint_val (10 * acc + 4) d
  | Decimal.D5 d => uint_val (10 * acc + 5) d
  | Decimal.D6 d => uint_val (10 * acc + 6) d
  | Decimal.D7 d => uint_val (10 * acc + 7) d
  | Decimal.D8 d => uint_val (10 * acc + 8) d
  | Decimal.D9 d => uint_val (10 * acc + 9) d
  end%N.

Definition no_digit_ahead (s : string) : Prop :=
  match s with
  | String c _ => digit_val c = None
  | EmptyString => True
  end.

(** A record as [interface CrystallographyData] types it: text fields, a
    number for the timestamp, one of the three statuses. *)
Definition is_text (v : option json) : bool :=
  match v with
  | Some (JStr _) => true
  | _ => false
  end.

Definition is_status (v : json) : bool :=
  match v with
  | JStr s => String.eqb s "processing" || String.eqb s "completed" || String.eqb s "failed"
  | _ => false
  end.

Definition is_time (v : option json) : bool :=
  match v with
  | Some (JNum z) => (- MAX_SAFE_INTEGER <=? z) && (z <=? MAX_SAFE_INTEGER)
  | _ => false
  end.

Definition well_typed (r : CrystallographyData) : bool :=
  is_text (Some (id r)) && is_text (encryptedImage r) && is_text (densityMap r)
  && is_text (molecularStructure r) && is_time (timestamp r)
  && is_text (owner r) && is_status (status r).

(** The timestamp of a record as the comparison of line 120 reads it. *)
Definition time_of (r : CrystallographyData) : Z :=
  match to_number (timestamp r) with
  | Some (Some z) => z
  | _ => 0
  end.

Definition has_time (r : CrystallographyData) : bool :=
  match timestamp r with
  | Some (JNum _) => true
  | _ => false
  end.

(** The timestamp of the record can be compared: [ToNumber] does not raise
    on it (it does on an array or object that has no primitive value). *)
Definition comparable (r : CrystallographyData) : bool :=
  match to_number (timestamp r) with
  | Some _ => true
  | None => false
  end.

(** The key has a text: [ToString] does not raise on it. *)
Definition has_text (key : json) : bool :=
  match to_string key with
  | Some _ => true
  | None => false
  end.

(** Every entry of the ledger is [in_range]: the model reads the ledger as
    the application does. *)
Definition ledger_in_range (w : World) : bool :=
  bool_decide (map_Forall (fun _ bytes => in_range bytes = true) (storage w)).

(** [a] may stand before [b] in a list in descending order of [key]. *)
Definition descending {A} (key : A -> Z) (a b : A) : Prop := key b <= key a.

Definition newer_or_same : CrystallographyData -> CrystallographyData -> Prop :=
  descending time_of.

(** Ledgers for the examples: the bytes of a record as [uploadXrayImage]
    and [processWithFHE] write them, and a world whose contract holds an
    index and some entries. *)
Definition stored (image density structure : string) (time : Z)
    (owner status : string) : string :=
  JSON_stringify (JObj [("image", JStr image); ("densityMap", JStr density);
                        ("structure", JStr structure); ("timestamp", JNum time);
                        ("owner", JStr owner); ("status", JStr status)]).

Definition fresh (time : Z) (owner : string) : string :=
  stored "FHE-eyJ9" "" "" time owner "processing".

Definition listed (key : string) (time : Z) (owner status : string) : CrystallographyData :=
  mkData (JStr key) (Some (JStr "FHE-eyJ9")) (Some (JStr "")) (Some (JStr ""))
    (Some (JNum time)) (Some (JStr owner)) (JStr status).

Definition ledger (index : list string) (entries : list (string * string))
    (answers : list (option string)) : World :=
  mkWorld
    (<["analysis_keys" := JSON_stringify (JArr (JStr <$> index))]>
       (list_to_map (prod_map record_key (fun b => b) <$> entries)))
    [] true true true answers.

(** The wallet lets the next [setData] through. *)
Definition accepts (w : World) : bool :=
  match answers w with
  | Some _ :: _ => false
  | _ => true
  end.

(** The world after a [setData] that went through. *)
Definition written (key value : string) (w : World) : World :=
  mkWorld (<[key := value]> (storage w)) (journal w ++ [(key, value)])
    (reader w) (available w) (signer w) (tail (answers w)).

(** The property [k] of a parsed value that is not [null]. *)
Definition prop (v : json) (k : string) : option json :=
  match v with
  | JObj o => obj_get k o
  | _ => None
  end.

(** Keys in enumeration order: none precedes one listed before it. *)
Fixpoint key_order (ks : list string) : bool :=
  match ks with
  | [] => true
  | k :: r => forallb (fun k' => negb (precedes k' k)) r && key_order r
  end.

(** The values [JSON.parse] yields: numbers in the exact range, the keys of
    an object pairwise distinct and in enumeration order. *)
Fixpoint wf (v : json) : bool :=
  match v with
  | JNum z => (- MAX_SAFE_INTEGER <=? z) && (z <=? MAX_SAFE_INTEGER)
  | JArr l => forallb wf l
  | JObj o =>
      bool_decide (NoDup o.*1) && key_order o.*1 && forallb (fun kv => wf kv.2) o
  | _ => true
  end.

(** Fuel that [parse_value] needs to read a value back. *)
Fixpoint jsize (v : json) : nat :=
  match v with
  | JArr l => S (list_sum (map jsize l))
  | JObj o => S (list_sum (map (fun kv => jsize kv.2) o))
  | _ => 1
  end.

(** A character that starts a value: no white space, no closing bracket. *)
Definition starts_value (c : ascii) : bool :=
  negb (is_ws c || Ascii.eqb c "]" || Ascii.eqb c "}").

(** [pv] reads [e] back in front of any text that ends a number. *)
Definition reads (pv : string -> option (json * string)) (e : json) : Prop :=
  forall rest, number_ends rest = true ->
    pv (JSON_stringify e +:+ rest) = Some (e, rest).

(** ** The ledgers, accounts and records of the examples *)

Definition sample_record : CrystallographyData :=
  mkData (JStr "1700000000123-k3j9x2a") (Some (JStr "FHE-eyJ9"))
    (Some (JStr "FHE-ENCRYPTED-DENSITY-MAP")) (Some (JStr "FHE-ENCRYPTED-STRUCTURE"))
    (Some (JNum 1700000000)) (Some (JStr "0xAbC")) (JStr "completed").

Definition ledger_by_time : World :=
  ledger ["a"; "b"; "c"; "d"]
    [("a", fresh 100 "0xA"); ("b", fresh 300 "0xB"); ("c", fresh 200 "0xA");
     ("d", fresh 300 "0xA")] [].

Definition ledger_with_gaps : World :=
  ledger ["a"; "ghost"; "c"; "junk"]
    [("a", fresh 100 "0xA"); ("c", fresh 200 "0xA"); ("junk", "{not json")] [].

Definition ledger_poisoned : World :=
  ledger ["a"; "p"]
    [("a", fresh 100 "0xA");
     ("p", JSON_stringify (JObj [("timestamp", JObj [("toString", JNum 1)])]))] [].

(** An index whose first key is an object that has no text, before an id
    without entry and the id of a record. *)
Definition ledger_key_without_text : World :=
  mkWorld
    (<["analysis_keys" :=
         JSON_stringify (JArr [JObj [("toString", JNum 1)]; JStr "ghost"; JStr "a"])]>
       (<[record_key "a" := fresh 100 "0xA"]> ∅))
    [] true true true [].

Definition alice : AppState := mkApp "0xA11ce" true [] Hidden ("crystal.png", "lysozyme").

Definition mallory : AppState := mkApp "0xBad" true [] Hidden ("", "").

Definition ledger_one (status : string) (answers : list (option string)) : World :=
  ledger ["r1"] [("r1", stored "FHE-eyJ9" "" "" 100 "0xA11CE" status)] answers.

(** ** Measures, predicates and examples for the contract and the
    further properties of the front end *)

(** The decimal digits of [v] as characters, the least significant
    first, as the loop of [uintToString] produces them. *)
Fixpoint digits_le (fuel : nat) (v : N) : list ascii :=
  if (v =? 0)%N then []
  else
    match fuel with
    | O => []
    | S fuel => ascii_of_N (48 + v mod 10) :: digits_le fuel (v / 10)
    end.

(** A numeral followed by another. *)
Fixpoint uint_app (d e : Decimal.uint) : Decimal.uint :=
  match d with
  | Decimal.Nil => e
  | Decimal.D0 d => Decimal.D0 (uint_app d e)
  | Decimal.D1 d => Decimal.D1 (uint_app d e)
  | Decimal.D2 d => Decimal.D2 (uint_app d e)
  | Decimal.D3 d => Decimal.D3 (uint_app d e)
  | Decimal.D4 d => Decimal.D4 (uint_app d e)
  | Decimal.D5 d => Decimal.D5 (uint_app d e)
  | Decimal.D6 d => Decimal.D6 (uint_app d e)
  | Decimal.D7 d => Decimal.D7 (uint_app d e)
  | Decimal.D8 d => Decimal.D8 (uint_app d e)
  | Decimal.D9 d => Decimal.D9 (uint_app d e)
  end.

(** The lines that [generateStructureRepresentation] adds for [values],
    the first of them numbered [i + 1]. *)
Fixpoint atom_lines (i : N) (values : list N) : string :=
  match values with
  | [] => ""
  | v :: r =>
      "Atom " +:+ print_N (i + 1) +:+ ": Density=" +:+ print_N v +:+ Contract.newline
      +:+ atom_lines (i + 1) r
  end.

(** What holds of the contract's storage after every history of calls:
    ids beyond [imageCount] (and the id 0) are unused; a density map is
    computed only for an image that exists, and it is the dummy map; a
    decryption is requested, and a structure revealed, only where the
    density map is computed. *)
Definition contract_inv (s : Contract.State) : Prop :=
  (forall id, (id = 0 \/ Contract.imageCount s < id)%N ->
     Contract.diffractionImages s !! id = None /\
     Contract.densityMaps s !! id = None /\
     Contract.molecularStructures s !! id = None) /\
  (forall req id, Contract.requestToImageId s !! req = Some id ->
     Contract.isComputed (Contract.density s id) = true) /\
  (forall id, Contract.isComputed (Contract.density s id) = true ->
     Contract.researcher (Contract.image s id) <> 0%N /\
     Contract.encryptedMap (Contract.density s id) = Contract.dummyMap) /\
  (forall id, Contract.isRevealed (Contract.structure s id) = true ->
     Contract.isComputed (Contract.density s id) = true) /\
  (forall req cts, (req, cts) ∈ Contract.requests s -> cts = Contract.dummyMap).

(** [s'] keeps what [s] has settled: the images uploaded, the density
    maps computed and the structures revealed. *)
Definition contract_extends (s s' : Contract.State) : Prop :=
  (Contract.imageCount s <= Contract.imageCount s')%N /\
  (forall id, (1 <= id <= Contract.imageCount s)%N ->
     Contract.image s' id = Contract.image s id) /\
  (forall id, Contract.isComputed (Contract.density s id) = true ->
     Contract.density s' id = Contract.density s id) /\
  (forall id, Contract.isRevealed (Contract.structure s id) = true ->
     Contract.structure s' id = Contract.structure s id).

(** A history in which an image is uploaded, its density map computed,
    its decryption requested and answered. *)
Definition contract_history : list Contract.call :=
  [Contract.UploadDiffractionImage 7 1700000000
     [Contract.ciphertext 1; Contract.ciphertext 2];
   Contract.ComputeDensityMap 1;
   Contract.RequestStructureDecryption 7 1 55;
   Contract.DecryptStructureCallback 55 true (Some [0; 100; 200])]%N.

(** What the storage [s] owes to the history [cs]: a request id maps to
    an image only by a request of the image's researcher, and a structure
    is revealed only by a signed callback to such a request. *)
Definition contract_hist (cs : list Contract.call) (s : Contract.State) : Prop :=
  (forall req id, Contract.requestToImageId s !! req = Some id ->
     Contract.RequestStructureDecryption (Contract.researcher (Contract.image s id)) id req
     ∈ cs) /\
  (forall id, Contract.isRevealed (Contract.structure s id) = true ->
     exists req vs,
       Contract.RequestStructureDecryption (Contract.researcher (Contract.image s id)) id req
       ∈ cs /\
       Contract.DecryptStructureCallback req true (Some vs) ∈ cs /\
       Contract.generateStructureRepresentation vs
       = Some (Contract.structureData (Contract.structure s id))).

(** The events emitted agree with the storage. *)
Definition contract_events (s : Contract.State) : Prop :=
  (forall id a, Contract.ImageUploaded id a ∈ Contract.events s <->
     (1 <= id <= Contract.imageCount s)%N /\
     Contract.researcher (Contract.image s id) = a) /\
  (forall id, Contract.DensityMapComputed id ∈ Contract.events s <->
     Contract.isComputed (Contract.density s id) = true) /\
  (forall id, Contract.StructureDecrypted id ∈ Contract.events s <->
     Contract.isRevealed (Contract.structure s id) = true) /\
  (forall id, Contract.DecryptionRequested id ∈ Contract.events s ->
     Contract.isComputed (Contract.density s id) = true) /\
  (forall id, Contract.ComputationStarted id ∉ Contract.events s).

(** The value of a base64 character, and [atob], which reads back what
    [btoa] wrote. *)
Definition b64_val (c : ascii) : option N :=
  let n := N_of_ascii c in
  if ((65 <=? n) && (n <=? 90))%N then Some (n - 65)%N
  else if ((97 <=? n) && (n <=? 122))%N then Some (n - 71)%N
  else if ((48 <=? n) && (n <=? 57))%N then Some (n + 4)%N
  else if (n =? 43)%N then Some 62%N
  else if (n =? 47)%N then Some 63%N
  else None.

Fixpoint atob (s : string) : option string :=
  match s with
  | EmptyString => Some ""
  | String a (String b (String c (String d r))) =>
      x ← b64_val a;
      y ← b64_val b;
      if Ascii.eqb c "=" then Some (String (ascii_of_N (x * 4 + y / 16)) "")
      else
        z ← b64_val c;
        if Ascii.eqb d "=" then
          Some (String (ascii_of_N (x * 4 + y / 16))
                  (String (ascii_of_N (y mod 16 * 16 + z / 4)) ""))
        else
          v ← b64_val d;
          t ← atob r;
          Some (String (ascii_of_N (x * 4 + y / 16))
                  (String (ascii_of_N (y mod 16 * 16 + z / 4))
                     (String (ascii_of_N (z mod 4 * 64 + v)) t)))
  | _ => None
  end%N.

(** What anyone can read from the [image] field that [uploadXrayImage]
    stores: the image name and the description. *)
Definition read_image (image : string) : option (string * string) :=
  payload ← strip_prefix "FHE-" image;
  text ← atob payload;
  v ← JSON_parse text;
  match prop v "imageName", prop v "description" with
  | Some (JStr n), Some (JStr d) => Some (n, d)
  | _, _ => None
  end.

(** The call leaves the flags that [loadAnalysisData] reads as they are. *)
Definition keeps_flags {A} (m : M A) : Prop :=
  forall w, reader (m w).2 = reader w /\ available (m w).2 = available w.

(** The record that [uploadXrayImage] stores, as a listing shows it. *)
Definition uploaded (now : N) (suffix : string) (now' : N) (st : AppState)
    : CrystallographyData :=
  mkData (JStr (make_id now suffix)) (Some (JStr (encrypt (newAnalysisData st))))
    (Some (JStr "")) (Some (JStr "")) (Some (JNum (Z.of_N (now' / 1000))))
    (Some (JStr (account st))) (JStr "processing").

(** A listed record after [processWithFHE] on the id whose text is [k]:
    it is completed if its id is that one, and else unchanged. *)
Definition completed (k : string) (r : CrystallographyData) : CrystallographyData :=
  if decide (to_string (id r) = Some k)
  then mkData (id r) (encryptedImage r) (Some (JStr "FHE-ENCRYPTED-DENSITY-MAP"))
         (Some (JStr "FHE-ENCRYPTED-STRUCTURE")) (timestamp r) (owner r)
         (JStr "completed")
  else r.

(** A ledger that only the application has written: it starts empty,
    and changes by uploads (made at a time of day the model can hold) and
    by processing ids other than "keys" (the ids of a listing are such);
    the wallet and the connection may change in between. *)
Inductive built : World -> Prop :=
| built_empty w : storage w = ∅ -> built w
| built_env w w' : built w -> storage w' = storage w -> built w'
| built_upload now suffix now' st w :
    built w -> Z.of_N (now' / 1000) <= MAX_SAFE_INTEGER ->
    built (uploadXrayImage now suffix now' st w).2
| built_process analysisId st w k :
    built w -> to_string analysisId = Some k -> k <> "keys" ->
    built (processWithFHE analysisId st w).2.

(** The index lists ids other than "keys", each with an entry that
    decodes to a well-typed record. *)
Definition indexed (w : World) (ids : list string) : Prop :=
  load_keys w = JArr (JStr <$> ids) /\
  forall i, i ∈ ids ->
    i <> "keys" /\
    exists r, load_entry w (JStr i) = Some r /\ well_typed r = true.

Definition empty_ledger : World := mkWorld ∅ [] true true true [].

(** * Proofs *)

(** ** Text *)

Lemma app_cons (c : ascii) (s t : string) : String c s +:+ t = String c (s +:+ t).
Proof. reflexivity. Qed.

Lemma app_empty (t : string) : "" +:+ t = t.
Proof. reflexivity. Qed.

Lemma app_assoc (s t u : string) : (s +:+ t) +:+ u = s +:+ (t +:+ u).
Proof. induction s as [|c s IH]; [done|]. by rewrite !app_cons, IH. Qed.

Lemma app_empty_r (s : string) : s +:+ "" = s.
Proof. induction s as [|c s IH]; [done|]. by rewrite app_cons, IH. Qed.

Create Rewrite HintDb text.
#[local] Hint Rewrite app_cons app_empty app_assoc : text.

Ltac text := autorewrite with text.

(** ** Decimal numerals *)

Section decimal.

Lemma parse_digits_uint d acc rest :
  no_digit_ahead rest ->
  parse_digits acc (NilEmpty.string_of_uint d +:+ rest) = (uint_val acc d, rest).
Proof.
  intros Hrest. revert acc.
  induction d; intros acc; simpl NilEmpty.string_of_uint; text;
    try (simpl; rewrite IHd; do 2 f_equal; lia).
  destruct rest as [|c r]; [done|]. simpl in *. by rewrite Hrest.
Qed.

Lemma uint_val_pos d p : uint_val (Npos p) d = Npos (Pos.of_uint_acc d p).
Proof.
  revert p. induction d; intros p; simpl; [done|..];
    (etrans; [|apply IHd]); f_equal; lia.
Qed.

Lemma uint_val_0 d : uint_val 0 d = Pos.of_uint d.
Proof.
  induction d; simpl; try done; by rewrite <- uint_val_pos.
Qed.

Lemma uint_val_to_uint n : uint_val 0 (N.to_uint n) = n.
Proof. rewrite uint_val_0. apply (DecimalN.Unsigned.of_to n). Qed.

Lemma nzhead_not_D0 d d' : Decimal.nzhead d <> Decimal.D0 d'.
Proof. induction d; simpl; congruence. Qed.

(** A numeral printed from a number has no leading zero. *)
Lemma to_uint_D0 n d : N.to_uint n = Decimal.D0 d -> n = 0%N /\ d = Decimal.Nil.
Proof.
  intros H.
  assert (Hn : Decimal.unorm (N.to_uint n) = N.to_uint n).
  { rewrite <- (DecimalN.Unsigned.to_of (N.to_uint n)).
    by rewrite DecimalN.Unsigned.of_to. }
  rewrite H in Hn. unfold Decimal.unorm in Hn. simpl in Hn.
  destruct (Decimal.nzhead d) eqn:Hd; simplify_eq.
  - split; [|done]. apply DecimalN.Unsigned.to_uint_inj. by rewrite H.
  - by apply nzhead_not_D0 in Hd.
Qed.

Lemma to_uint_not_Nil n : N.to_uint n <> Decimal.Nil.
Proof.
  destruct n as [|p]; [done|]. apply DecimalPos.Unsigned.to_uint_nonnil.
Qed.

Lemma parse_int_print n rest :
  no_digit_ahead rest -> parse_int (print_N n +:+ rest) = Some (n, rest).
Proof.
  intros Hrest. unfold print_N.
  pose proof (uint_val_to_uint n) as Hv.
  destruct (N.to_uint n) as [|d|d|d|d|d|d|d|d|d|d] eqn:E;
    [by apply to_uint_not_Nil in E | |
     simpl NilEmpty.string_of_uint; text; simpl;
     rewrite (parse_digits_uint d _ rest Hrest); by rewrite <- Hv ..].
  apply to_uint_D0 in E as [-> ->]. reflexivity.
Qed.

Lemma print_N_head n : exists c s, print_N n = String c s /\ is_digit c = true.
Proof.
  unfold print_N.
  destruct (N.to_uint n) eqn:E; [by apply to_uint_not_Nil in E|..];
    simpl; eauto.
Qed.

Lemma print_N_inj n m : print_N n = print_N m -> n = m.
Proof.
  intros H.
  pose proof (parse_int_print n "" I) as Hn.
  pose proof (parse_int_print m "" I) as Hm.
  rewrite H in Hn. congruence.
Qed.

Lemma number_ends_no_digit rest : number_ends rest = true -> no_digit_ahead rest.
Proof.
  destruct rest as [|c r]; [done|]. unfold number_ends, is_digit. simpl.
  by destruct (digit_val c).
Qed.

Lemma parse_number_print z rest :
  - MAX_SAFE_INTEGER <= z <= MAX_SAFE_INTEGER ->
  number_ends rest = true ->
  parse_number (print_Z z +:+ rest) = Some (z, rest).
Proof.
  intros Hz Hrest. pose proof (number_ends_no_digit _ Hrest) as Hd.
  unfold parse_number. destruct z as [|p|p]; simpl print_Z.
  - change "0" with (String "0" ""). text. simpl. by rewrite Hrest.
  - destruct (print_N_head (N.pos p)) as (c & s & Hs & Hc).
    pose proof (parse_int_print (N.pos p) rest Hd) as Hp.
    rewrite Hs in Hp |- *. text. rewrite app_cons in Hp.
    assert (Ascii.eqb c "-" = false) as ->.
    { destruct (Ascii.eqb_spec c "-") as [->|]; done. }
    rewrite Hp. simpl. rewrite Hrest. simpl.
    destruct (Z.leb_spec (Z.pos p) MAX_SAFE_INTEGER); [done|lia].
  - text. simpl. rewrite (parse_int_print (N.pos p) rest Hd). simpl.
    rewrite Hrest. simpl.
    destruct (Z.leb_spec (Z.pos p) MAX_SAFE_INTEGER); [done|lia].
Qed.

End decimal.

(** ** String literals *)

Lemma parse_quote_char c r :
  parse_string_body (quote_char c +:+ r) =
  '(t, r') ← parse_string_body r; Some (String c t, r').
Proof.
  destruct c as [[] [] [] [] [] [] [] []]; reflexivity.
Qed.

Lemma parse_quote_body s rest :
  parse_string_body (quote_body s +:+ String dquote rest) = Some (s, rest).
Proof.
  induction s as [|c s IH]; [done|].
  simpl quote_body. rewrite app_assoc, parse_quote_char, IH. done.
Qed.

(** ** JSON values *)

Lemma json_ind' (P : json -> Prop) :
  P JNull -> (forall b, P (JBool b)) -> (forall z, P (JNum z)) ->
  (forall s, P (JStr s)) ->
  (forall l, Forall P l -> P (JArr l)) ->
  (forall o, Forall (fun kv => P kv.2) o -> P (JObj o)) ->
  forall v, P v.
Proof.
  intros Hnull Hbool Hnum Hstr Harr Hobj.
  fix IH 1.
  intros [| b | z | s | l | o];
    [apply Hnull | apply Hbool | apply Hnum | apply Hstr | | ].
  - apply Harr. induction l as [|e l IHl]; constructor; [apply IH | exact IHl].
  - apply Hobj. induction o as [|[k e] o IHo]; constructor; [apply IH | exact IHo].
Qed.

Lemma obj_set_fresh k v o :
  k ∉ o.*1 -> Forall (fun k' => precedes k k' = false) o.*1 ->
  obj_set k v o = o ++ [(k, v)].
Proof.
  induction o as [|[k' v'] o IH]; [done|]. simpl. intros Hk Hp.
  apply not_elem_of_cons in Hk as [Hne Hk]. apply Forall_cons in Hp as [Hp1 Hp].
  destruct (String.eqb_spec k k') as [->|_]; [done|]. by rewrite Hp1, IH.
Qed.

Lemma key_order_snoc ks k :
  key_order (ks ++ [k]) = true <->
  key_order ks = true /\ Forall (fun k' => precedes k k' = false) ks.
Proof.
  induction ks as [|k' ks IH]; simpl.
  - split; [by intros _|done].
  - rewrite !andb_true_iff, forallb_app, andb_true_iff, IH, Forall_cons. simpl.
    rewrite andb_true_r, negb_true_iff. tauto.
Qed.

Lemma key_order_app l1 l2 : key_order (l1 ++ l2) = true -> key_order l1 = true.
Proof.
  induction l1 as [|k l1 IH]; simpl; [done|].
  rewrite !andb_true_iff, forallb_app, andb_true_iff. intros [[H _] H2]. auto.
Qed.

Lemma obj_of_members_app acc ms :
  NoDup (acc.*1 ++ ms.*1) -> key_order (acc.*1 ++ ms.*1) = true ->
  fold_left (fun o kv => obj_set kv.1 kv.2 o) ms acc = acc ++ ms.
Proof.
  revert acc. induction ms as [|[k v] ms IH]; intros acc Hnd Hko; simpl.
  - by rewrite app_nil_r.
  - simpl in Hnd, Hko. rewrite (cons_middle k), (assoc_L (++)) in Hnd, Hko.
    rewrite obj_set_fresh.
    + rewrite IH; [by rewrite <- (assoc_L (++))| |]; by rewrite fmap_app.
    + apply NoDup_app in Hnd as (Hnd & _ & _).
      apply NoDup_app in Hnd as (_ & Hd & _).
      intros Hin. apply (Hd _ Hin). by left.
    + apply key_order_app in Hko. by apply key_order_snoc in Hko as [_ ?].
Qed.

Lemma obj_of_members_id o :
  NoDup o.*1 -> key_order o.*1 = true -> obj_of_members o = o.
Proof. intros H1 H2. unfold obj_of_members. by rewrite obj_of_members_app. Qed.

(** ** JSON.parse reads back what JSON.stringify wrote *)

Lemma is_digit_starts c :
  is_digit c = true ->
  is_ws c = false /\ Ascii.eqb c "{" = false /\ Ascii.eqb c "[" = false /\
  Ascii.eqb c "]" = false /\ Ascii.eqb c "}" = false /\
  Ascii.eqb c dquote = false /\ Ascii.eqb c "t" = false /\
  Ascii.eqb c "f" = false /\ Ascii.eqb c "n" = false /\ Ascii.eqb c "-" = false.
Proof.
  destruct c as [[] [] [] [] [] [] [] []]; intros H; try discriminate H;
    repeat split; reflexivity.
Qed.

Lemma stringify_head v :
  exists c s, JSON_stringify v = String c s /\ starts_value c = true.
Proof.
  destruct v as [| [] | [|p|p] | s | l | o]; simpl; try by eauto.
  destruct (print_N_head (N.pos p)) as (c & s & -> & Hc).
  exists c, s. split; [done|]. unfold starts_value.
  by destruct (is_digit_starts c Hc) as (-> & _ & _ & -> & -> & _).
Qed.

Lemma skip_ws_value c s : starts_value c = true -> skip_ws (String c s) = String c s.
Proof.
  unfold starts_value. simpl. by destruct (is_ws c).
Qed.

Section readback.
Variable pv : string -> option (json * string).

Lemma parse_elements_stringify l rest n :
  l <> [] -> (length l <= n)%nat -> Forall (reads pv) l ->
  parse_elements pv n (stringify_elements JSON_stringify l +:+ String "]" rest)
  = Some (l, rest).
Proof.
  revert n. induction l as [|e l IH]; intros n Hne Hlen Hall; [done|].
  apply Forall_cons in Hall as [He Hall].
  destruct n as [|n]; [simpl in Hlen; lia|].
  destruct l as [|e' l].
  - simpl. rewrite He by done. by simpl.
  - change (stringify_elements JSON_stringify (e :: e' :: l))
      with (JSON_stringify e +:+
            String "," (stringify_elements JSON_stringify (e' :: l))).
    text. cbn [parse_elements]. rewrite He by done.
    cbn [mbind option_bind skip_ws is_ws orb Ascii.eqb Bool.eqb].
    simpl in Hlen. rewrite IH; [done | done | simpl; lia | done].
Qed.

Lemma parse_members_stringify o rest n :
  o <> [] -> (length o <= n)%nat -> Forall (fun kv => reads pv kv.2) o ->
  parse_members pv n (stringify_members JSON_stringify o +:+ String "}" rest)
  = Some (o, rest).
Proof.
  revert n. induction o as [|[k e] o IH]; intros n Hne Hlen Hall; [done|].
  apply Forall_cons in Hall as [He Hall]. simpl in He.
  destruct n as [|n]; [simpl in Hlen; lia|].
  destruct o as [|kv o].
  - simpl stringify_members. unfold quote. text. cbn [parse_members].
    rewrite skip_ws_value by done.
    change (Ascii.eqb dquote dquote) with true. cbv iota.
    rewrite parse_quote_body. cbn [mbind option_bind].
    rewrite skip_ws_value by done.
    change (Ascii.eqb ":" ":") with true. cbv iota.
    rewrite He by done. by simpl.
  - change (stringify_members JSON_stringify ((k, e) :: kv :: o))
      with (quote k +:+ String ":" (JSON_stringify e) +:+
            String "," (stringify_members JSON_stringify (kv :: o))).
    unfold quote. text. cbn [parse_members].
    rewrite skip_ws_value by done.
    change (Ascii.eqb dquote dquote) with true. cbv iota.
    rewrite parse_quote_body. cbn [mbind option_bind].
    rewrite skip_ws_value by done.
    change (Ascii.eqb ":" ":") with true. cbv iota.
    rewrite He by done.
    cbn [mbind option_bind skip_ws is_ws orb Ascii.eqb Bool.eqb].
    simpl in Hlen. rewrite IH; [done | done | simpl; lia | done].
Qed.
End readback.

Lemma print_Z_head z :
  exists c s, print_Z z = String c s /\ (is_digit c = true \/ c = "-"%char).
Proof.
  destruct z as [|p|p]; simpl.
  - exists "0"%char, ""; by auto.
  - destruct (print_N_head (N.pos p)) as (c & s & -> & Hc); eauto.
  - eauto.
Qed.

Lemma jsize_elem (e : json) l : e ∈ l -> (jsize e <= list_sum (map jsize l))%nat.
Proof.
  induction 1 as [|??? _ IH]; simpl; lia.
Qed.

Lemma jsize_member (kv : string * json) o :
  kv ∈ o -> (jsize kv.2 <= list_sum (map (fun kv => jsize kv.2) o))%nat.
Proof.
  induction 1 as [|??? _ IH]; simpl; lia.
Qed.

Lemma length_le_sum {A} (g : A -> nat) l :
  (forall x, 1 <= g x)%nat -> (length l <= list_sum (map g l))%nat.
Proof.
  intros Hg. induction l as [|x l IH]; simpl; [lia|]. specialize (Hg x). lia.
Qed.

Lemma jsize_pos v : (1 <= jsize v)%nat.
Proof. destruct v; simpl; lia. Qed.

Lemma parse_value_stringify v :
  wf v = true -> forall f rest, (jsize v <= f)%nat -> number_ends rest = true ->
  parse_value f (JSON_stringify v +:+ rest) = Some (v, rest).
Proof.
  induction v as [| b | z | s | l IH | o IH] using json_ind';
    intros Hwf f rest Hf Hrest;
    (destruct f as [|f]; [simpl in Hf; lia|]).
  - reflexivity.
  - by destruct b.
  - simpl JSON_stringify.
    destruct (print_Z_head z) as (c & s & Hs & Hc).
    assert (is_ws c = false /\ Ascii.eqb c "{" = false /\ Ascii.eqb c "[" = false /\
            Ascii.eqb c dquote = false /\ Ascii.eqb c "t" = false /\
            Ascii.eqb c "f" = false /\ Ascii.eqb c "n" = false)
      as (H1 & H2 & H3 & H4 & H5 & H6 & H7).
    { destruct Hc as [Hc| ->]; [|done].
      by destruct (is_digit_starts c Hc) as (-> & -> & -> & _ & _ & -> & -> & -> & -> & _). }
    cbn [parse_value]. rewrite Hs. rewrite app_cons. cbn [skip_ws].
    rewrite H1, H2, H3, H4, H5, H6, H7. rewrite <- app_cons, <- Hs.
    simpl in Hwf. apply andb_true_iff in Hwf as [Hlo Hhi].
    rewrite parse_number_print; [done | lia | done].
  - simpl JSON_stringify. unfold quote. text. cbn [parse_value].
    rewrite skip_ws_value by done.
    change (Ascii.eqb dquote "{") with false.
    change (Ascii.eqb dquote "[") with false.
    change (Ascii.eqb dquote dquote) with true. cbv iota.
    by rewrite parse_quote_body.
  - simpl JSON_stringify. text. cbn [parse_value].
    rewrite skip_ws_value by done.
    change (Ascii.eqb "[" "{") with false.
    change (Ascii.eqb "[" "[") with true. cbv iota.
    destruct l as [|e l]; [reflexivity|].
    assert (Hhead : exists c s,
      stringify_elements JSON_stringify (e :: l) = String c s /\ starts_value c = true).
    { destruct (stringify_head e) as (c & s & Hs & Hc).
      destruct l; simpl; rewrite Hs; text; eauto. }
    destruct Hhead as (c & s & Hs & Hc).
    assert (Ascii.eqb c "]" = false) as Hc'.
    { unfold starts_value in Hc. by destruct (is_ws c), (Ascii.eqb c "]"). }
    rewrite Hs at 1. rewrite app_cons, skip_ws_value by done. rewrite Hc'.
    simpl in Hf, Hwf.
    rewrite parse_elements_stringify; [done | done | | ].
    + pose proof (length_le_sum jsize (e :: l) jsize_pos). simpl in *. lia.
    + apply Forall_forall. intros x Hx rest' Hrest'.
      rewrite Forall_forall in IH. apply IH; [done | | | done].
      * change (forallb wf (e :: l) = true) in Hwf.
        rewrite forallb_forall in Hwf. apply Hwf. by apply list_elem_of_In.
      * pose proof (jsize_elem x (e :: l) Hx). simpl in *. lia.
  - simpl JSON_stringify. text. cbn [parse_value].
    rewrite skip_ws_value by done.
    change (Ascii.eqb "{" "{") with true. cbv iota.
    destruct o as [|[k e] o]; [reflexivity|].
    assert (Hhead : exists s,
      stringify_members JSON_stringify ((k, e) :: o) = String dquote s).
    { destruct o as [|[] ?]; simpl; unfold quote; text; eauto. }
    destruct Hhead as (s & Hs).
    rewrite Hs at 1. rewrite app_cons, skip_ws_value by done.
    change (Ascii.eqb dquote "}") with false. cbv iota.
    simpl in Hf. simpl in Hwf. apply andb_true_iff in Hwf as [Hnd Hwf].
    apply andb_true_iff in Hnd as [Hnd Hko].
    apply bool_decide_eq_true_1 in Hnd.
    rewrite parse_members_stringify; [ | done | | ].
    + simpl. by rewrite obj_of_members_id.
    + pose proof (length_le_sum (fun kv : string * json => jsize kv.2)
                    ((k, e) :: o) (fun kv => jsize_pos kv.2)).
      simpl in *. lia.
    + apply Forall_forall. intros x Hx rest' Hrest'.
      rewrite Forall_forall in IH. apply IH; [done | | | done].
      * change (forallb (fun kv => wf kv.2) ((k, e) :: o) = true) in Hwf.
        rewrite forallb_forall in Hwf. apply Hwf. by apply list_elem_of_In.
      * pose proof (jsize_member x ((k, e) :: o) Hx). simpl in *. lia.
Qed.

Lemma length_app (s t : string) :
  String.length (s +:+ t) = (String.length s + String.length t)%nat.
Proof. induction s as [|c s IH]; [done|]. rewrite app_cons. simpl. by rewrite IH. Qed.

Lemma jsize_le_length v : (jsize v <= String.length (JSON_stringify v))%nat.
Proof.
  induction v as [| b | z | s | l IH | o IH] using json_ind'.
  - simpl; lia.
  - destruct b; simpl; lia.
  - destruct (print_Z_head z) as (c & s & Hs & _). simpl. rewrite Hs. simpl. lia.
  - simpl; lia.
  - simpl. apply le_n_S. rewrite length_app. simpl.
    enough (list_sum (map jsize l)
            <= String.length (stringify_elements JSON_stringify l))%nat by lia.
    induction IH as [|e l He _ IHl]; [simpl; lia|].
    destruct l as [|e' l]; [simpl in *; lia|].
    change (stringify_elements JSON_stringify (e :: e' :: l))
      with (JSON_stringify e +:+
            String "," (stringify_elements JSON_stringify (e' :: l))).
    rewrite length_app. simpl in *. lia.
  - simpl. apply le_n_S. rewrite length_app. simpl.
    enough (list_sum (map (fun kv => jsize kv.2) o)
            <= String.length (stringify_members JSON_stringify o))%nat by lia.
    induction IH as [|[k e] o He _ IHo]; [simpl; lia|].
    destruct o as [|kv o]; simpl in He.
    + simpl. rewrite length_app. simpl. lia.
    + change (stringify_members JSON_stringify ((k, e) :: kv :: o))
        with (quote k +:+ String ":" (JSON_stringify e) +:+
              String "," (stringify_members JSON_stringify (kv :: o))).
      rewrite !length_app. simpl String.length. rewrite length_app.
      simpl in *. lia.
Qed.

(** [JSON.parse(JSON.stringify(v))] is [v]. *)
Lemma JSON_parse_stringify v : wf v = true -> JSON_parse (JSON_stringify v) = Some v.
Proof.
  intros Hwf. unfold JSON_parse.
  rewrite <- (app_empty_r (JSON_stringify v)) at 2.
  rewrite parse_value_stringify; [done | done | | done].
  pose proof (jsize_le_length v). lia.
Qed.

(** ** What JSON.parse yields is well formed *)

Lemma precedes_asym k k' : precedes k k' = true -> precedes k' k = false.
Proof.
  unfold precedes.
  destruct (array_index k) as [i|], (array_index k') as [j|]; try done.
  intros ?%N.ltb_lt. apply N.ltb_ge. lia.
Qed.

Lemma precedes_later k k' z :
  precedes k k' = true -> precedes z k' = false -> precedes z k = false.
Proof.
  unfold precedes.
  destruct (array_index k) as [i|], (array_index k') as [j|],
    (array_index z) as [m|]; try done.
  intros ?%N.ltb_lt ?%N.ltb_ge. apply N.ltb_ge. lia.
Qed.

Lemma key_order_cons k ks :
  key_order (k :: ks) = true <->
  Forall (fun z => precedes z k = false) ks /\ key_order ks = true.
Proof.
  simpl. rewrite andb_true_iff.
  enough (forallb (fun k' => negb (precedes k' k)) ks = true
          <-> Forall (fun z => precedes z k = false) ks) by tauto.
  induction ks as [|z ks IH]; simpl; [by split|].
  rewrite andb_true_iff, negb_true_iff, Forall_cons, IH. done.
Qed.

Lemma obj_set_keys_other k k' v o : k' ∈ (obj_set k v o).*1 -> k' = k \/ k' ∈ o.*1.
Proof.
  induction o as [|[k2 v2] o IH]; simpl.
  - intros ?%list_elem_of_singleton. by left.
  - destruct (String.eqb_spec k k2) as [->|_]; simpl; [by right|].
    destruct (precedes k k2); simpl.
    + intros [->|H]%elem_of_cons; [by left | by right].
    + intros [->|H]%elem_of_cons; [right; by left|].
      destruct (IH H) as [->|?]; [by left | right; by right].
Qed.

(** Setting a property keeps the keys distinct and in enumeration order. *)
Lemma obj_set_keys_ok k v o :
  NoDup o.*1 -> key_order o.*1 = true ->
  NoDup (obj_set k v o).*1 /\ key_order (obj_set k v o).*1 = true.
Proof.
  induction o as [|[k' v'] o IH]; intros Hnd Hko.
  - split; [apply NoDup_singleton | done].
  - cbn [obj_set]. change (((k', v') :: o).*1) with (k' :: o.*1) in Hnd, Hko.
    apply NoDup_cons in Hnd as [Hk' Hnd].
    apply key_order_cons in Hko as [Hall Hko].
    destruct (String.eqb_spec k k') as [->|Hne].
    { change (((k', v) :: o).*1) with (k' :: o.*1).
      split; [by apply NoDup_cons | by apply key_order_cons]. }
    destruct (precedes k k') eqn:Hp.
    + change (((k, v) :: (k', v') :: o).*1) with (k :: k' :: o.*1). split.
      * apply NoDup_cons. split; [|by apply NoDup_cons].
        intros [->|Hin]%elem_of_cons; [done|].
        rewrite Forall_forall in Hall. specialize (Hall _ Hin). congruence.
      * apply key_order_cons. split; [|by apply key_order_cons].
        apply Forall_cons. split; [by apply precedes_asym|].
        eapply Forall_impl; [exact Hall|]. intros z Hz.
        by apply (precedes_later k k').
    + change (((k', v') :: obj_set k v o).*1) with (k' :: (obj_set k v o).*1).
      destruct (IH Hnd Hko) as [IH1 IH2]. split.
      * apply NoDup_cons. split; [|done].
        intros [->|?]%obj_set_keys_other; done.
      * apply key_order_cons. split; [|done].
        apply Forall_forall. intros z [->|Hz]%obj_set_keys_other; [done|].
        rewrite Forall_forall in Hall. by apply Hall.
Qed.

Lemma obj_set_wf k v o :
  wf v = true -> forallb (fun kv => wf kv.2) o = true ->
  forallb (fun kv => wf kv.2) (obj_set k v o) = true.
Proof.
  intros Hv. induction o as [|[k' v'] o IH]; simpl; [by rewrite Hv|].
  intros [H1 H2]%andb_true_iff.
  destruct (String.eqb_spec k k'); simpl; [by rewrite Hv, H2|].
  destruct (precedes k k'); simpl.
  - by rewrite Hv, H1, H2.
  - by rewrite H1, IH.
Qed.

Lemma wf_JObj o :
  wf (JObj o) = true <->
  NoDup o.*1 /\ key_order o.*1 = true /\ forallb (fun kv => wf kv.2) o = true.
Proof.
  simpl. rewrite !andb_true_iff, bool_decide_eq_true. tauto.
Qed.

Lemma obj_set_wf_obj k v o :
  wf v = true -> wf (JObj o) = true -> wf (JObj (obj_set k v o)) = true.
Proof.
  rewrite !wf_JObj. intros Hv (H1 & H2 & H3).
  destruct (obj_set_keys_ok k v o H1 H2). split; [done|]. split; [done|].
  by apply obj_set_wf.
Qed.

Lemma obj_of_members_wf ms :
  forallb (fun kv => wf kv.2) ms = true -> wf (JObj (obj_of_members ms)) = true.
Proof.
  unfold obj_of_members.
  assert (Hacc : wf (JObj []) = true) by done. revert Hacc.
  generalize (@nil (string * json)) as acc.
  induction ms as [|[k v] ms IH]; intros acc Hacc; simpl; [done|].
  intros [H1 H2]%andb_true_iff. apply IH; [|done]. by apply obj_set_wf_obj.
Qed.

Lemma parse_number_safe s z r :
  parse_number s = Some (z, r) -> wf (JNum z) = true.
Proof.
  unfold parse_number.
  destruct (match s with
            | String c r0 => if Ascii.eqb c "-" then (true, r0) else (false, s)
            | EmptyString => (false, s)
            end) as [neg s1].
  destruct (parse_int s1) as [[n r']|]; simpl; [|done].
  destruct (number_ends r'); simpl; [|done].
  destruct (Z.leb_spec (Z.of_N n) MAX_SAFE_INTEGER); [|done].
  intros [= <- <-]. apply andb_true_iff.
  unfold MAX_SAFE_INTEGER in *. destruct neg; split; lia.
Qed.

Section wellformed.
Variable pv : string -> option (json * string).
Hypothesis pv_wf : forall s v r, pv s = Some (v, r) -> wf v = true.

Lemma parse_elements_wf n s vs r :
  parse_elements pv n s = Some (vs, r) -> forallb wf vs = true.
Proof.
  revert s vs r. induction n as [|n IH]; intros s vs r; [done|]. simpl.
  destruct (pv s) as [[v r0]|] eqn:Hv; simpl; [|done].
  apply pv_wf in Hv.
  destruct (skip_ws r0) as [|c r1]; [done|].
  destruct (Ascii.eqb c ",").
  - destruct (parse_elements pv n r1) as [[vs' r2]|] eqn:Hvs; simpl; [|done].
    intros [= <- <-]. simpl. by rewrite Hv, (IH _ _ _ Hvs).
  - destruct (Ascii.eqb c "]"); [|done]. intros [= <- <-]. simpl. by rewrite Hv.
Qed.

Lemma parse_members_wf n s ms r :
  parse_members pv n s = Some (ms, r) -> forallb (fun kv => wf kv.2) ms = true.
Proof.
  revert s ms r. induction n as [|n IH]; intros s ms r; [done|]. simpl.
  destruct (skip_ws s) as [|q r0]; [done|].
  destruct (Ascii.eqb q dquote); [|done].
  destruct (parse_string_body r0) as [[k r1]|]; simpl; [|done].
  destruct (skip_ws r1) as [|c r2]; [done|].
  destruct (Ascii.eqb c ":"); [|done].
  destruct (pv r2) as [[v r3]|] eqn:Hv; simpl; [|done].
  apply pv_wf in Hv.
  destruct (skip_ws r3) as [|d r4]; [done|].
  destruct (Ascii.eqb d ",").
  - destruct (parse_members pv n r4) as [[ms' r5]|] eqn:Hms; simpl; [|done].
    intros [= <- <-]. simpl. by rewrite Hv, (IH _ _ _ Hms).
  - destruct (Ascii.eqb d "}"); [|done]. intros [= <- <-]. simpl. by rewrite Hv.
Qed.
End wellformed.

Lemma expect_wf lit v s v' r : wf v = true -> expect lit v s = Some (v', r) -> wf v' = true.
Proof.
  unfold expect. destruct (strip_prefix lit s); simpl; [|done]. by intros ? [= <- _].
Qed.

Lemma parse_value_wf f s v r : parse_value f s = Some (v, r) -> wf v = true.
Proof.
  revert s v r. induction f as [|f IH]; intros s v r; [done|]. simpl.
  destruct (skip_ws s) as [|c r0]; [done|].
  destruct (Ascii.eqb c "{").
  { destruct (skip_ws r0) as [|c' r']; [done|].
    destruct (Ascii.eqb c' "}"); [by intros [= <- _]|].
    destruct (parse_members (parse_value f) f r0) as [[ms r2]|] eqn:Hms; simpl; [|done].
    intros [= <- _]. apply obj_of_members_wf.
    by apply (parse_members_wf _ IH) in Hms. }
  destruct (Ascii.eqb c "[").
  { destruct (skip_ws r0) as [|c' r']; [done|].
    destruct (Ascii.eqb c' "]"); [by intros [= <- _]|].
    destruct (parse_elements (parse_value f) f r0) as [[vs r2]|] eqn:Hvs; simpl; [|done].
    intros [= <- _]. by apply (parse_elements_wf _ IH) in Hvs. }
  destruct (Ascii.eqb c dquote).
  { destruct (parse_string_body r0) as [[t r']|]; simpl; [|done]. by intros [= <- _]. }
  destruct (Ascii.eqb c "t"); [by apply expect_wf|].
  destruct (Ascii.eqb c "f"); [by apply expect_wf|].
  destruct (Ascii.eqb c "n"); [by apply expect_wf|].
  destruct (parse_number (String c r0)) as [[z r']|] eqn:Hz; simpl; [|done].
  intros [= <- _]. by apply parse_number_safe in Hz.
Qed.

Lemma JSON_parse_wf s v : JSON_parse s = Some v -> wf v = true.
Proof.
  unfold JSON_parse.
  destruct (parse_value (S (String.length s)) s) as [[v' r]|] eqn:Hv; simpl; [|done].
  destruct (skip_ws r); [|done]. intros [= <-]. by apply parse_value_wf in Hv.
Qed.

(** ** The fuel of JSON.parse is enough

    A parse that has more fuel than its text has characters does not depend
    on the fuel: [JSON_parse] gives [None] for want of a value, never for
    want of fuel. *)

Lemma skip_ws_length s : (String.length (skip_ws s) <= String.length s)%nat.
Proof.
  induction s as [|c s IH]; simpl; [lia|]. destruct (is_ws c); simpl; lia.
Qed.

Lemma skip_ws_cons s c r :
  skip_ws s = String c r -> (String.length r < String.length s)%nat.
Proof.
  intros H. pose proof (skip_ws_length s) as Hl. rewrite H in Hl. simpl in Hl. lia.
Qed.

Lemma parse_string_body_length s t r :
  parse_string_body s = Some (t, r) -> (String.length r < String.length s)%nat.
Proof.
  assert (H : forall n s t r, (String.length s <= n)%nat ->
            parse_string_body s = Some (t, r) ->
            (String.length r < String.length s)%nat); [|by apply (H _ s t r (le_n _))].
  clear. induction n as [|n IH]; intros s t r Hle.
  { destruct s; [done|simpl in Hle; lia]. }
  destruct s as [|c s]; [done|]. simpl in Hle. cbn [parse_string_body].
  destruct (Ascii.eqb c dquote); [intros [= _ <-]; simpl; lia|].
  destruct (Ascii.eqb c backslash).
  - destruct s as [|e s]; [done|]. simpl in Hle.
    assert (Hs : forall x t r,
              ('(t0, r') ← parse_string_body s; Some (String x t0, r')) = Some (t, r) ->
              (String.length r < String.length (String c (String e s)))%nat).
    { intros x t0 r0. destruct (parse_string_body s) as [[t1 r1]|] eqn:Hp; [|done].
      simpl. intros [= _ <-]. apply IH in Hp; [simpl; lia | lia]. }
    repeat (match goal with
            | |- context [if Ascii.eqb e ?x then _ else _] =>
                destruct (Ascii.eqb e x); [by apply Hs|]
            end).
    destruct (Ascii.eqb e "u"); [|done].
    destruct s as [|h1 [|h2 [|h3 [|h4 s]]]]; try done.
    destruct (hex_val h1), (hex_val h2), (hex_val h3), (hex_val h4); try done.
    simpl. destruct (_ <? 256)%N; [|done].
    destruct (parse_string_body s) as [[t1 r1]|] eqn:Hp; [|done].
    simpl. intros [= _ <-]. apply IH in Hp; simpl in *; lia.
  - destruct (N_of_ascii c <? 32)%N; [done|].
    destruct (parse_string_body s) as [[t1 r1]|] eqn:Hp; [|done].
    simpl. intros [= _ <-]. apply IH in Hp; simpl; lia.
Qed.

Lemma parse_digits_length acc s :
  (String.length (parse_digits acc s).2 <= String.length s)%nat.
Proof.
  revert acc. induction s as [|c s IH]; intros acc; simpl; [lia|].
  destruct (digit_val c); simpl; [|lia]. specialize (IH (10 * acc + n)%N). lia.
Qed.

Lemma parse_int_length s n r :
  parse_int s = Some (n, r) -> (String.length r < String.length s)%nat.
Proof.
  destruct s as [|c s]; [done|]. simpl. destruct (digit_val c) as [d|]; [|done].
  destruct (d =? 0)%N; [intros [= _ <-]; lia|].
  pose proof (parse_digits_length d s) as Hl.
  destruct (parse_digits d s) as [n' r']. simpl in Hl. intros [= _ <-]. lia.
Qed.

Lemma parse_number_length s z r :
  parse_number s = Some (z, r) -> (String.length r < String.length s)%nat.
Proof.
  unfold parse_number.
  assert (Hs1 : forall neg s1,
    match s with
    | String c r0 => if Ascii.eqb c "-" then (true, r0) else (false, s)
    | EmptyString => (false, s)
    end = (neg, s1) -> (String.length s1 <= String.length s)%nat).
  { intros neg s1. destruct s as [|c s]; [by intros [= _ <-]|].
    destruct (Ascii.eqb c "-"); intros [= _ <-]; simpl; lia. }
  destruct (match s with
            | String c r0 => if Ascii.eqb c "-" then (true, r0) else (false, s)
            | EmptyString => (false, s)
            end) as [neg s1].
  specialize (Hs1 neg s1 eq_refl).
  destruct (parse_int s1) as [[n r']|] eqn:Hn; simpl; [|done].
  apply parse_int_length in Hn.
  destruct (number_ends r' && _); [|done]. intros [= _ <-]. lia.
Qed.

Lemma strip_prefix_length lit s r :
  strip_prefix lit s = Some r ->
  (String.length r + String.length lit = String.length s)%nat.
Proof.
  revert s. induction lit as [|a lit IH]; intros s; simpl; [by intros [= <-]|].
  destruct s as [|b s]; [done|]. destruct (Ascii.eqb a b); [|done].
  intros H%IH. simpl. lia.
Qed.

Lemma expect_length lit v s v' r :
  lit <> "" -> expect lit v s = Some (v', r) ->
  (String.length r < String.length s)%nat.
Proof.
  intros Hlit. unfold expect.
  destruct (strip_prefix lit s) as [r'|] eqn:Hr; simpl; [|done].
  intros [= _ <-]. apply strip_prefix_length in Hr.
  destruct lit; [done|]. simpl in Hr. lia.
Qed.

Section consumes.
Variable pv : string -> option (json * string).
Hypothesis pv_length :
  forall s v r, pv s = Some (v, r) -> (String.length r < String.length s)%nat.

Lemma parse_elements_length n s vs r :
  parse_elements pv n s = Some (vs, r) -> (String.length r < String.length s)%nat.
Proof.
  revert s vs r. induction n as [|n IH]; intros s vs r; [done|]. simpl.
  destruct (pv s) as [[v r0]|] eqn:Hv; simpl; [|done]. apply pv_length in Hv.
  destruct (skip_ws r0) as [|c r1] eqn:Hr0; [done|]. apply skip_ws_cons in Hr0.
  destruct (Ascii.eqb c ",").
  - destruct (parse_elements pv n r1) as [[vs' r2]|] eqn:Hvs; simpl; [|done].
    apply IH in Hvs. intros [= _ <-]. lia.
  - destruct (Ascii.eqb c "]"); [|done]. intros [= _ <-]. lia.
Qed.

Lemma parse_members_length n s ms r :
  parse_members pv n s = Some (ms, r) -> (String.length r < String.length s)%nat.
Proof.
  revert s ms r. induction n as [|n IH]; intros s ms r; [done|]. simpl.
  destruct (skip_ws s) as [|q r0] eqn:Hs; [done|]. apply skip_ws_cons in Hs.
  destruct (Ascii.eqb q dquote); [|done].
  destruct (parse_string_body r0) as [[k r1]|] eqn:Hk; simpl; [|done].
  apply parse_string_body_length in Hk.
  destruct (skip_ws r1) as [|c r2] eqn:Hr1; [done|]. apply skip_ws_cons in Hr1.
  destruct (Ascii.eqb c ":"); [|done].
  destruct (pv r2) as [[v r3]|] eqn:Hv; simpl; [|done]. apply pv_length in Hv.
  destruct (skip_ws r3) as [|d r4] eqn:Hr3; [done|]. apply skip_ws_cons in Hr3.
  destruct (Ascii.eqb d ",").
  - destruct (parse_members pv n r4) as [[ms' r5]|] eqn:Hms; simpl; [|done].
    apply IH in Hms. intros [= _ <-]. lia.
  - destruct (Ascii.eqb d "}"); [|done]. intros [= _ <-]. lia.
Qed.

(** Two value parsers that agree on the texts no longer than [s] give the
    same elements and members of [s], whatever fuel above its length the
    loops have. *)
Variable pv' : string -> option (json * string).

Lemma parse_elements_agree n n' s :
  (forall t, (String.length t <= String.length s)%nat -> pv t = pv' t) ->
  (String.length s < n)%nat -> (String.length s < n')%nat ->
  parse_elements pv n s = parse_elements pv' n' s.
Proof.
  revert n' s. induction n as [|n IH]; intros n' s Hag Hn Hn'; [lia|].
  destruct n' as [|n']; [lia|]. simpl. rewrite <- (Hag s) by lia.
  destruct (pv s) as [[v r0]|] eqn:Hv; simpl; [|done]. apply pv_length in Hv.
  destruct (skip_ws r0) as [|c r1] eqn:Hr0; [done|]. apply skip_ws_cons in Hr0.
  destruct (Ascii.eqb c ","); [|done].
  rewrite (IH n' r1); [done | | lia | lia].
  intros t Ht. apply Hag. lia.
Qed.

Lemma parse_members_agree n n' s :
  (forall t, (String.length t <= String.length s)%nat -> pv t = pv' t) ->
  (String.length s < n)%nat -> (String.length s < n')%nat ->
  parse_members pv n s = parse_members pv' n' s.
Proof.
  revert n' s. induction n as [|n IH]; intros n' s Hag Hn Hn'; [lia|].
  destruct n' as [|n']; [lia|]. simpl.
  destruct (skip_ws s) as [|q r0] eqn:Hs; [done|]. apply skip_ws_cons in Hs.
  destruct (Ascii.eqb q dquote); [|done].
  destruct (parse_string_body r0) as [[k r1]|] eqn:Hk; simpl; [|done].
  apply parse_string_body_length in Hk.
  destruct (skip_ws r1) as [|c r2] eqn:Hr1; [done|]. apply skip_ws_cons in Hr1.
  destruct (Ascii.eqb c ":"); [|done].
  rewrite <- (Hag r2) by lia.
  destruct (pv r2) as [[v r3]|] eqn:Hv; simpl; [|done]. apply pv_length in Hv.
  destruct (skip_ws r3) as [|d r4] eqn:Hr3; [done|]. apply skip_ws_cons in Hr3.
  destruct (Ascii.eqb d ","); [|done].
  rewrite (IH n' r4); [done | | lia | lia].
  intros t Ht. apply Hag. lia.
Qed.
End consumes.

Lemma parse_value_length f s v r :
  parse_value f s = Some (v, r) -> (String.length r < String.length s)%nat.
Proof.
  revert s v r. induction f as [|f IH]; intros s v r; [done|]. simpl.
  destruct (skip_ws s) as [|c r0] eqn:Hs; [done|].
  pose proof (skip_ws_length s) as Hl. rewrite Hs in Hl. simpl in Hl.
  destruct (Ascii.eqb c "{").
  { destruct (skip_ws r0) as [|c' r'] eqn:Hr0; [done|]. apply skip_ws_cons in Hr0.
    destruct (Ascii.eqb c' "}"); [intros [= _ <-]; lia|].
    destruct (parse_members (parse_value f) f r0) as [[ms r2]|] eqn:Hms; simpl; [|done].
    apply (parse_members_length _ IH) in Hms. intros [= _ <-]. lia. }
  destruct (Ascii.eqb c "[").
  { destruct (skip_ws r0) as [|c' r'] eqn:Hr0; [done|]. apply skip_ws_cons in Hr0.
    destruct (Ascii.eqb c' "]"); [intros [= _ <-]; lia|].
    destruct (parse_elements (parse_value f) f r0) as [[vs r2]|] eqn:Hvs; simpl; [|done].
    apply (parse_elements_length _ IH) in Hvs. intros [= _ <-]. lia. }
  destruct (Ascii.eqb c dquote).
  { destruct (parse_string_body r0) as [[t r']|] eqn:Ht; simpl; [|done].
    apply parse_string_body_length in Ht. intros [= _ <-]. lia. }
  destruct (Ascii.eqb c "t"); [intros H%expect_length; [simpl in H; lia|done]|].
  destruct (Ascii.eqb c "f"); [intros H%expect_length; [simpl in H; lia|done]|].
  destruct (Ascii.eqb c "n"); [intros H%expect_length; [simpl in H; lia|done]|].
  destruct (parse_number (String c r0)) as [[z r']|] eqn:Hz; simpl; [|done].
  apply parse_number_length in Hz. intros [= _ <-]. simpl in Hz. lia.
Qed.

Lemma parse_value_fuel f f' s :
  (String.length s < f)%nat -> (String.length s < f')%nat ->
  parse_value f s = parse_value f' s.
Proof.
  revert f' s. induction f as [|f IH]; intros f' s Hf Hf'; [lia|].
  destruct f' as [|f']; [lia|]. simpl.
  destruct (skip_ws s) as [|c r0] eqn:Hs; [done|]. apply skip_ws_cons in Hs.
  assert (Hag : forall t, (String.length t <= String.length r0)%nat ->
                  parse_value f t = parse_value f' t).
  { intros t Ht. apply IH; lia. }
  destruct (Ascii.eqb c "{").
  { destruct (skip_ws r0) as [|c' r']; [done|].
    destruct (Ascii.eqb c' "}"); [done|].
    rewrite (parse_members_agree (parse_value f) (parse_value_length f)
               (parse_value f') f f' r0); [done | done | lia | lia]. }
  destruct (Ascii.eqb c "["); [|done].
  destruct (skip_ws r0) as [|c' r']; [done|].
  destruct (Ascii.eqb c' "]"); [done|].
  rewrite (parse_elements_agree (parse_value f) (parse_value_length f)
             (parse_value f') f f' r0); [done | done | lia | lia].
Qed.

(** [JSON_parse] is the parse with any fuel above the length of the text. *)
Lemma JSON_parse_fuel f s :
  (String.length s < f)%nat ->
  JSON_parse s =
  ('(v, r) ← parse_value f s;
   match skip_ws r with
   | EmptyString => Some v
   | String _ _ => None
   end).
Proof.
  intros Hf. unfold JSON_parse. by rewrite (parse_value_fuel _ f) by lia.
Qed.

(** ** JSON.parse reads JSON texts only

    Where [JSON_parse] has a value, the text is in the grammar: a text
    that [JSON_valid] refuses is one on which [JSON_parse] is [None] as
    [JSON.parse] throws. *)

Lemma parse_digits_skip acc s : (parse_digits acc s).2 = skip_digits s.
Proof.
  revert acc. induction s as [|c s IH]; intros acc; simpl; [done|].
  unfold is_digit. destruct (digit_val c); [apply IH | done].
Qed.

Lemma parse_int_valid s n r : parse_int s = Some (n, r) -> valid_int s = Some r.
Proof.
  destruct s as [|c s]; [done|]. simpl. destruct (digit_val c) as [d|]; [|done].
  destruct (d =? 0)%N; [by intros [= _ <-]|].
  intros [= H]. rewrite <- (parse_digits_skip d s). by rewrite H.
Qed.

Lemma number_ends_valid r :
  number_ends r = true -> valid_fraction r = Some r /\ valid_exponent r = Some r.
Proof.
  destruct r as [|c r]; [done|]. simpl.
  rewrite negb_true_iff, !orb_false_iff. intros [[[_ H1] H2] H3].
  by rewrite H1, H2, H3.
Qed.

Lemma parse_number_valid s z r : parse_number s = Some (z, r) -> valid_number s = Some r.
Proof.
  unfold parse_number, valid_number.
  assert (Hs1 : forall neg s1,
    match s with
    | String c r0 => if Ascii.eqb c "-" then (true, r0) else (false, s)
    | EmptyString => (false, s)
    end = (neg, s1) ->
    match s with
    | String c r0 => if Ascii.eqb c "-" then r0 else s
    | EmptyString => s
    end = s1).
  { intros neg s1. destruct s as [|c s]; [by intros [= _ <-]|].
    by destruct (Ascii.eqb c "-"); intros [= _ <-]. }
  destruct (match s with
            | String c r0 => if Ascii.eqb c "-" then (true, r0) else (false, s)
            | EmptyString => (false, s)
            end) as [neg s1].
  rewrite (Hs1 neg s1 eq_refl).
  destruct (parse_int s1) as [[n r']|] eqn:Hn; simpl; [|done].
  rewrite (parse_int_valid _ _ _ Hn). simpl.
  destruct (number_ends r') eqn:He; [|done]. destruct (_ <=? _); [|done].
  intros [= _ <-]. destruct (number_ends_valid _ He) as [Hf Hx].
  rewrite Hf. exact Hx.
Qed.

Lemma parse_string_body_valid s t r :
  parse_string_body s = Some (t, r) -> valid_string_body s = Some r.
Proof.
  assert (H : forall n s t r, (String.length s <= n)%nat ->
            parse_string_body s = Some (t, r) -> valid_string_body s = Some r);
    [|by apply (H _ s t r (le_n _))].
  clear. induction n as [|n IH]; intros s t r Hle.
  { destruct s; [done|simpl in Hle; lia]. }
  destruct s as [|c s]; [done|]. simpl in Hle.
  cbn [parse_string_body valid_string_body].
  destruct (Ascii.eqb c dquote); [by intros [= _ <-]|].
  destruct (Ascii.eqb c backslash).
  - destruct s as [|e s]; [done|]. simpl in Hle.
    assert (Hs : forall x t r,
              ('(t0, r') ← parse_string_body s; Some (String x t0, r')) = Some (t, r) ->
              valid_string_body s = Some r).
    { intros x t0 r0. destruct (parse_string_body s) as [[t1 r1]|] eqn:Hp; [|done].
      simpl. intros [= _ <-]. apply IH in Hp; [done | lia]. }
    repeat (match goal with
            | |- context [if Ascii.eqb e ?x then _ ← _; _ else _] =>
                destruct (Ascii.eqb e x); [by apply Hs|]
            end).
    simpl orb. cbv iota.
    destruct (Ascii.eqb e "u"); [|done].
    destruct s as [|h1 [|h2 [|h3 [|h4 s]]]]; try done.
    destruct (hex_val h1), (hex_val h2), (hex_val h3), (hex_val h4); try done.
    simpl. destruct (_ <? 256)%N; [|done].
    destruct (parse_string_body s) as [[t1 r1]|] eqn:Hp; [|done].
    simpl. intros [= _ <-]. apply IH in Hp; [done | simpl in *; lia].
  - destruct (N_of_ascii c <? 32)%N; [done|].
    destruct (parse_string_body s) as [[t1 r1]|] eqn:Hp; [|done].
    simpl. intros [= _ <-]. apply IH in Hp; [done | lia].
Qed.

Lemma expect_valid lit v s v' r : expect lit v s = Some (v', r) -> strip_prefix lit s = Some r.
Proof.
  unfold expect. destruct (strip_prefix lit s) as [r'|]; simpl; [|done].
  by intros [= _ <-].
Qed.

Section recognises.
Variable pv : string -> option (json * string).
Variable vv : string -> option string.
Hypothesis pv_valid : forall s v r, pv s = Some (v, r) -> vv s = Some r.

Lemma parse_elements_valid n s vs r :
  parse_elements pv n s = Some (vs, r) -> valid_elements vv n s = Some r.
Proof.
  revert s vs r. induction n as [|n IH]; intros s vs r; [done|]. simpl.
  destruct (pv s) as [[v r0]|] eqn:Hv; simpl; [|done].
  rewrite (pv_valid _ _ _ Hv). simpl.
  destruct (skip_ws r0) as [|c r1]; [done|].
  destruct (Ascii.eqb c ",").
  - destruct (parse_elements pv n r1) as [[vs' r2]|] eqn:Hvs; simpl; [|done].
    apply IH in Hvs. by intros [= _ <-].
  - destruct (Ascii.eqb c "]"); [|done]. by intros [= _ <-].
Qed.

Lemma parse_members_valid n s ms r :
  parse_members pv n s = Some (ms, r) -> valid_members vv n s = Some r.
Proof.
  revert s ms r. induction n as [|n IH]; intros s ms r; [done|]. simpl.
  destruct (skip_ws s) as [|q r0]; [done|].
  destruct (Ascii.eqb q dquote); [|done].
  destruct (parse_string_body r0) as [[k r1]|] eqn:Hk; simpl; [|done].
  rewrite (parse_string_body_valid _ _ _ Hk). simpl.
  destruct (skip_ws r1) as [|c r2]; [done|].
  destruct (Ascii.eqb c ":"); [|done].
  destruct (pv r2) as [[v r3]|] eqn:Hv; simpl; [|done].
  rewrite (pv_valid _ _ _ Hv). simpl.
  destruct (skip_ws r3) as [|d r4]; [done|].
  destruct (Ascii.eqb d ",").
  - destruct (parse_members pv n r4) as [[ms' r5]|] eqn:Hms; simpl; [|done].
    apply IH in Hms. by intros [= _ <-].
  - destruct (Ascii.eqb d "}"); [|done]. by intros [= _ <-].
Qed.
End recognises.

Lemma parse_value_valid f s v r : parse_value f s = Some (v, r) -> valid_value f s = Some r.
Proof.
  revert s v r. induction f as [|f IH]; intros s v r; [done|]. simpl.
  destruct (skip_ws s) as [|c r0]; [done|].
  destruct (Ascii.eqb c "{").
  { destruct (skip_ws r0) as [|c' r']; [done|].
    destruct (Ascii.eqb c' "}"); [by intros [= _ <-]|].
    destruct (parse_members (parse_value f) f r0) as [[ms r2]|] eqn:Hms; simpl; [|done].
    apply (parse_members_valid _ _ IH) in Hms. by intros [= _ <-]. }
  destruct (Ascii.eqb c "[").
  { destruct (skip_ws r0) as [|c' r']; [done|].
    destruct (Ascii.eqb c' "]"); [by intros [= _ <-]|].
    destruct (parse_elements (parse_value f) f r0) as [[vs r2]|] eqn:Hvs; simpl; [|done].
    apply (parse_elements_valid _ _ IH) in Hvs. by intros [= _ <-]. }
  destruct (Ascii.eqb c dquote).
  { destruct (parse_string_body r0) as [[t r']|] eqn:Ht; simpl; [|done].
    apply parse_string_body_valid in Ht. by intros [= _ <-]. }
  destruct (Ascii.eqb c "t"); [apply expect_valid|].
  destruct (Ascii.eqb c "f"); [apply expect_valid|].
  destruct (Ascii.eqb c "n"); [apply expect_valid|].
  destruct (parse_number (String c r0)) as [[z r']|] eqn:Hz; simpl; [|done].
  apply parse_number_valid in Hz. by intros [= _ <-].
Qed.

Lemma JSON_parse_valid s v : JSON_parse s = Some v -> JSON_valid s = true.
Proof.
  unfold JSON_parse, JSON_valid.
  destruct (parse_value (S (String.length s)) s) as [[v' r]|] eqn:Hv; [|done].
  rewrite (parse_value_valid _ _ _ _ Hv). cbn [mbind option_bind].
  by destruct (skip_ws r).
Qed.

Lemma JSON_valid_false s : JSON_valid s = false -> JSON_parse s = None.
Proof.
  intros H. destruct (JSON_parse s) as [v|] eqn:Hv; [|done].
  apply JSON_parse_valid in Hv. congruence.
Qed.

Lemma in_range_None s : in_range s = true -> JSON_parse s = None -> JSON_valid s = false.
Proof.
  unfold in_range. intros H Hp. rewrite Hp, orb_false_r in H.
  by apply negb_true_iff.
Qed.

(** JSON texts outside the range of the model: [JSON.parse] reads them,
    [JSON_parse] does not, and [in_range] tells. *)
Example numbers_out_of_range :
  JSON_valid "[17e8, 1700000000.5, 9007199254740993, 1e400]" = true /\
  JSON_parse "[17e8, 1700000000.5, 9007199254740993, 1e400]" = None /\
  in_range "[17e8, 1700000000.5, 9007199254740993, 1e400]" = false /\
  in_range "[1700000000, -5, 9007199254740991]" = true /\
  in_range "{not json" = true.
Proof. repeat split; vm_compute; reflexivity. Qed.

Lemma ledger_in_range_entry w key : ledger_in_range w = true -> in_range (getData w key) = true.
Proof.
  intros H%bool_decide_eq_true. unfold getData.
  destruct (storage w !! key) as [bytes|] eqn:Hk; [|done].
  by apply (H key bytes).
Qed.

(** ** The fuel of the recogniser is enough

    As for [JSON_parse]: [JSON_valid] refuses a text for what it holds,
    never for want of fuel. *)

Lemma skip_digits_length s : (String.length (skip_digits s) <= String.length s)%nat.
Proof.
  induction s as [|c s IH]; simpl; [lia|]. destruct (is_digit c); simpl; lia.
Qed.

Lemma valid_digits_length s r :
  valid_digits s = Some r -> (String.length r < String.length s)%nat.
Proof.
  destruct s as [|c s]; [done|]. simpl. destruct (is_digit c); [|done].
  intros [= <-]. pose proof (skip_digits_length s). lia.
Qed.

Lemma valid_number_length s r :
  valid_number s = Some r -> (String.length r < String.length s)%nat.
Proof.
  unfold valid_number.
  assert (Hs1 : (String.length
                   match s with
                   | String c r0 => if Ascii.eqb c "-" then r0 else s
                   | EmptyString => s
                   end <= String.length s)%nat).
  { destruct s as [|c s]; [done|]. destruct (Ascii.eqb c "-"); simpl; lia. }
  destruct (match s with
            | String c r0 => if Ascii.eqb c "-" then r0 else s
            | EmptyString => s
            end) as [|c s1]; [done|].
  cbn [valid_int]. destruct (digit_val c) as [d|]; [|done].
  assert (Hint : forall r1, (String.length r1 <= String.length s1)%nat ->
            (r2 ← valid_fraction r1; valid_exponent r2) = Some r ->
            (String.length r < String.length s)%nat).
  { intros r1 Hr1. simpl in Hs1.
    assert (Hfr : forall r2, valid_fraction r1 = Some r2 ->
              (String.length r2 <= String.length r1)%nat).
    { intros r2. destruct r1 as [|a r1]; [by intros [= <-]|]. simpl.
      destruct (Ascii.eqb a "."); [|by intros [= <-]].
      intros H%valid_digits_length. lia. }
    destruct (valid_fraction r1) as [r2|]; [|done]. specialize (Hfr r2 eq_refl).
    cbn [mbind option_bind].
    destruct r2 as [|a r2]; [intros [= <-]; simpl in *; lia|]. simpl in Hfr |- *.
    destruct (Ascii.eqb a "e" || Ascii.eqb a "E"); [|intros [= <-]; simpl; lia].
    destruct r2 as [|b r2]; [done|].
    destruct (Ascii.eqb b "+" || Ascii.eqb b "-");
      intros H%valid_digits_length; simpl in *; lia. }
  destruct (d =? 0)%N; cbn [mbind option_bind]; apply Hint; [lia|].
  apply skip_digits_length.
Qed.

Lemma valid_string_body_length s r :
  valid_string_body s = Some r -> (String.length r < String.length s)%nat.
Proof.
  assert (H : forall n s r, (String.length s <= n)%nat ->
            valid_string_body s = Some r ->
            (String.length r < String.length s)%nat); [|by apply (H _ s r (le_n _))].
  clear. induction n as [|n IH]; intros s r Hle.
  { destruct s; [done|simpl in Hle; lia]. }
  destruct s as [|c s]; [done|]. simpl in Hle. cbn [valid_string_body].
  destruct (Ascii.eqb c dquote); [intros [= <-]; simpl; lia|].
  destruct (Ascii.eqb c backslash).
  - destruct s as [|e s]; [done|]. simpl in Hle.
    destruct (_ || _).
    { intros Hp. apply IH in Hp; [simpl; lia | lia]. }
    destruct (Ascii.eqb e "u"); [|done].
    destruct s as [|h1 [|h2 [|h3 [|h4 s]]]]; try done.
    destruct (hex_val h1), (hex_val h2), (hex_val h3), (hex_val h4); try done.
    cbn [mbind option_bind]. intros Hp. apply IH in Hp; simpl in *; lia.
  - destruct (N_of_ascii c <? 32)%N; [done|].
    intros Hp. apply IH in Hp; [simpl; lia | lia].
Qed.

Section recognised.
Variable vv : string -> option string.
Hypothesis vv_length :
  forall s r, vv s = Some r -> (String.length r < String.length s)%nat.

Lemma valid_elements_length n s r :
  valid_elements vv n s = Some r -> (String.length r < String.length s)%nat.
Proof.
  revert s r. induction n as [|n IH]; intros s r; [done|]. simpl.
  destruct (vv s) as [r0|] eqn:Hv; simpl; [|done]. apply vv_length in Hv.
  destruct (skip_ws r0) as [|c r1] eqn:Hr0; [done|]. apply skip_ws_cons in Hr0.
  destruct (Ascii.eqb c ",").
  - intros H%IH. lia.
  - destruct (Ascii.eqb c "]"); [|done]. intros [= <-]. lia.
Qed.

Lemma valid_members_length n s r :
  valid_members vv n s = Some r -> (String.length r < String.length s)%nat.
Proof.
  revert s r. induction n as [|n IH]; intros s r; [done|]. simpl.
  destruct (skip_ws s) as [|q r0] eqn:Hs; [done|]. apply skip_ws_cons in Hs.
  destruct (Ascii.eqb q dquote); [|done].
  destruct (valid_string_body r0) as [r1|] eqn:Hk; simpl; [|done].
  apply valid_string_body_length in Hk.
  destruct (skip_ws r1) as [|c r2] eqn:Hr1; [done|]. apply skip_ws_cons in Hr1.
  destruct (Ascii.eqb c ":"); [|done].
  destruct (vv r2) as [r3|] eqn:Hv; simpl; [|done]. apply vv_length in Hv.
  destruct (skip_ws r3) as [|d r4] eqn:Hr3; [done|]. apply skip_ws_cons in Hr3.
  destruct (Ascii.eqb d ",").
  - intros H%IH. lia.
  - destruct (Ascii.eqb d "}"); [|done]. intros [= <-]. lia.
Qed.

Variable vv' : string -> option string.

Lemma valid_elements_agree n n' s :
  (forall t, (String.length t <= String.length s)%nat -> vv t = vv' t) ->
  (String.length s < n)%nat -> (String.length s < n')%nat ->
  valid_elements vv n s = valid_elements vv' n' s.
Proof.
  revert n' s. induction n as [|n IH]; intros n' s Hag Hn Hn'; [lia|].
  destruct n' as [|n']; [lia|]. simpl. rewrite <- (Hag s) by lia.
  destruct (vv s) as [r0|] eqn:Hv; simpl; [|done]. apply vv_length in Hv.
  destruct (skip_ws r0) as [|c r1] eqn:Hr0; [done|]. apply skip_ws_cons in Hr0.
  destruct (Ascii.eqb c ","); [|done].
  apply IH; [|lia|lia]. intros t Ht. apply Hag. lia.
Qed.

Lemma valid_members_agree n n' s :
  (forall t, (String.length t <= String.length s)%nat -> vv t = vv' t) ->
  (String.length s < n)%nat -> (String.length s < n')%nat ->
  valid_members vv n s = valid_members vv' n' s.
Proof.
  revert n' s. induction n as [|n IH]; intros n' s Hag Hn Hn'; [lia|].
  destruct n' as [|n']; [lia|]. simpl.
  destruct (skip_ws s) as [|q r0] eqn:Hs; [done|]. apply skip_ws_cons in Hs.
  destruct (Ascii.eqb q dquote); [|done].
  destruct (valid_string_body r0) as [r1|] eqn:Hk; simpl; [|done].
  apply valid_string_body_length in Hk.
  destruct (skip_ws r1) as [|c r2] eqn:Hr1; [done|]. apply skip_ws_cons in Hr1.
  destruct (Ascii.eqb c ":"); [|done].
  rewrite <- (Hag r2) by lia.
  destruct (vv r2) as [r3|] eqn:Hv; simpl; [|done]. apply vv_length in Hv.
  destruct (skip_ws r3) as [|d r4] eqn:Hr3; [done|]. apply skip_ws_cons in Hr3.
  destruct (Ascii.eqb d ","); [|done].
  apply IH; [|lia|lia]. intros t Ht. apply Hag. lia.
Qed.
End recognised.

Lemma valid_value_length f s r :
  valid_value f s = Some r -> (String.length r < String.length s)%nat.
Proof.
  revert s r. induction f as [|f IH]; intros s r; [done|]. cbn [valid_value].
  destruct (skip_ws s) as [|c r0] eqn:Hs; [done|].
  pose proof (skip_ws_length s) as Hl. rewrite Hs in Hl. simpl in Hl.
  destruct (Ascii.eqb c "{").
  { destruct (skip_ws r0) as [|c' r'] eqn:Hr0; [done|]. apply skip_ws_cons in Hr0.
    destruct (Ascii.eqb c' "}"); [intros [= <-]; lia|].
    intros H%(valid_members_length _ IH). lia. }
  destruct (Ascii.eqb c "[").
  { destruct (skip_ws r0) as [|c' r'] eqn:Hr0; [done|]. apply skip_ws_cons in Hr0.
    destruct (Ascii.eqb c' "]"); [intros [= <-]; lia|].
    intros H%(valid_elements_length _ IH). lia. }
  destruct (Ascii.eqb c dquote); [intros H%valid_string_body_length; lia|].
  destruct (Ascii.eqb c "t"); [intros H%strip_prefix_length; simpl in H; lia|].
  destruct (Ascii.eqb c "f"); [intros H%strip_prefix_length; simpl in H; lia|].
  destruct (Ascii.eqb c "n"); [intros H%strip_prefix_length; simpl in H; lia|].
  intros H%valid_number_length. simpl in H. lia.
Qed.

Lemma valid_value_fuel f f' s :
  (String.length s < f)%nat -> (String.length s < f')%nat ->
  valid_value f s = valid_value f' s.
Proof.
  revert f' s. induction f as [|f IH]; intros f' s Hf Hf'; [lia|].
  destruct f' as [|f']; [lia|]. cbn [valid_value].
  destruct (skip_ws s) as [|c r0] eqn:Hs; [done|]. apply skip_ws_cons in Hs.
  assert (Hag : forall t, (String.length t <= String.length r0)%nat ->
                  valid_value f t = valid_value f' t).
  { intros t Ht. apply IH; lia. }
  destruct (Ascii.eqb c "{").
  { destruct (skip_ws r0) as [|c' r']; [done|].
    destruct (Ascii.eqb c' "}"); [done|].
    apply (valid_members_agree (valid_value f) (valid_value_length f)
             (valid_value f') f f' r0); [done | lia | lia]. }
  destruct (Ascii.eqb c "["); [|done].
  destruct (skip_ws r0) as [|c' r']; [done|].
  destruct (Ascii.eqb c' "]"); [done|].
  apply (valid_elements_agree (valid_value f) (valid_value_length f)
           (valid_value f') f f' r0); [done | lia | lia].
Qed.

(** [JSON_valid] is the recogniser with any fuel above the length of the
    text. *)
Lemma JSON_valid_fuel f s :
  (String.length s < f)%nat ->
  JSON_valid s =
  match valid_value f s with
  | Some r =>
      match skip_ws r with
      | EmptyString => true
      | String _ _ => false
      end
  | None => false
  end.
Proof.
  intros Hf. unfold JSON_valid. by rewrite (valid_value_fuel _ f) by lia.
Qed.

(** ** The record codec *)

Lemma get_prop_prop v k : v <> JNull -> get_prop v k = Some (prop v k).
Proof. by destruct v. Qed.

Lemma decode_parsed key bytes v :
  JSON_parse bytes = Some v -> v <> JNull ->
  decode key bytes =
  Some (mkData key (prop v "image") (prop v "densityMap") (prop v "structure")
          (prop v "timestamp") (prop v "owner")
          (or_default (prop v "status") (JStr "processing"))).
Proof.
  intros Hp Hv. unfold decode. rewrite Hp. simpl.
  by rewrite !get_prop_prop by done.
Qed.

Lemma decode_id key bytes r : decode key bytes = Some r -> id r = key.
Proof.
  unfold decode. destruct (JSON_parse bytes) as [v|]; simpl; [|done].
  destruct (get_prop v "image"); simpl; [|done].
  destruct (get_prop v "densityMap"); simpl; [|done].
  destruct (get_prop v "structure"); simpl; [|done].
  destruct (get_prop v "timestamp"); simpl; [|done].
  destruct (get_prop v "owner"); simpl; [|done].
  destruct (get_prop v "status"); simpl; [|done].
  by intros [= <-].
Qed.

(** C5 as the code has it: [decode] gives no record for bytes that are
    not JSON text, and for the text [null].  On every other text that
    [JSON_parse] reads it gives a record: its id is the index key, a
    missing image, densityMap, structure, timestamp or owner property is
    [undefined] in it, and its status is the stored one unless that is
    absent or falsy, when it is "processing".  On the texts of the model
    ([in_range]) there is no other way to fail. *)
Theorem decode_fails_only_on_bad_text key bytes :
  (JSON_valid bytes = false -> decode key bytes = None) /\
  (JSON_parse bytes = Some JNull -> decode key bytes = None) /\
  (forall v, JSON_parse bytes = Some v -> v <> JNull ->
     decode key bytes =
     Some (mkData key (prop v "image") (prop v "densityMap") (prop v "structure")
             (prop v "timestamp") (prop v "owner")
             (or_default (prop v "status") (JStr "processing")))) /\
  (in_range bytes = true -> decode key bytes = None ->
     JSON_valid bytes = false \/ JSON_parse bytes = Some JNull).
Proof.
  split; [|split; [|split]].
  - intros Hv%JSON_valid_false. unfold decode. by rewrite Hv.
  - intros Hv. unfold decode. by rewrite Hv.
  - apply decode_parsed.
  - intros Hin Hnone. destruct (JSON_parse bytes) as [v|] eqn:Hp.
    + right. f_equal.
      assert (v = JNull \/ v <> JNull) as [->|Hv] by (destruct v; auto); [done|].
      by rewrite (decode_parsed key bytes v Hp Hv) in Hnone.
    + left. by apply in_range_None.
Qed.

(** C5 fails on the code: bytes that lack every field decode to a record,
    and a status that is present but empty is defaulted like an absent one. *)
Lemma decode_missing_fields_is_no_error :
  decode (JStr "a1") "{}" =
    Some (mkData (JStr "a1") None None None None None (JStr "processing")) /\
  decode (JStr "a1") (JSON_stringify (JObj [("owner", JStr "0xA"); ("status", JStr "")])) =
    Some (mkData (JStr "a1") None None None None (Some (JStr "0xA")) (JStr "processing")).
Proof. split; reflexivity. Qed.

(** C7: decoding the bytes that encode a well-typed record, under the
    record's id as key, gives the record back. *)
Theorem decode_encode r : well_typed r = true -> decode (id r) (encode r) = Some r.
Proof.
  destruct r as [i im dm ms ts ow st]. unfold well_typed. simpl.
  rewrite !andb_true_iff. intros [[[[[[_ Him] Hdm] Hms] Hts] How] Hst].
  destruct im as [[]|]; try discriminate Him.
  destruct dm as [[]|]; try discriminate Hdm.
  destruct ms as [[]|]; try discriminate Hms.
  destruct ts as [[]|]; try discriminate Hts.
  destruct ow as [[]|]; try discriminate How.
  destruct st as [| | |[|a st]| |]; try discriminate.
  unfold encode. simpl member. simpl app.
  erewrite decode_parsed; [| apply JSON_parse_stringify | done].
  - reflexivity.
  - apply wf_JObj. split; [|split].
    + apply (bool_decide_unpack _). by vm_compute.
    + by vm_compute.
    + simpl in Hts |- *. by rewrite Hts.
Qed.

Lemma decode_encode_witness :
  decode (id sample_record) (encode sample_record) = Some sample_record.
Proof. apply (decode_encode sample_record). reflexivity. Defined.

(** ** Array.prototype.sort *)

Section sorting.
Context {A : Type} (comparefn : A -> A -> option Z).

Lemma sort_insert_perm x l l' : sort_insert comparefn x l = Some l' -> l' ≡ₚ x :: l.
Proof.
  revert l'. induction l as [|y l IH]; intros l'; simpl.
  - by intros [= <-].
  - destruct (comparefn x y) as [c|]; simpl; [|done].
    destruct (0 <? c); [|by intros [= <-]].
    destruct (sort_insert comparefn x l) as [r'|]; simpl; [|done].
    intros [= <-]. rewrite (IH r' eq_refl). apply Permutation_swap.
Qed.

Lemma sort_perm l l' : sort comparefn l = Some l' -> l' ≡ₚ l.
Proof.
  revert l'. induction l as [|x l IH]; intros l'; simpl.
  - by intros [= <-].
  - destruct (sort comparefn l) as [r'|]; simpl; [|done].
    intros Hins%sort_insert_perm. by rewrite Hins, (IH r' eq_refl).
Qed.

(** The sort fails only on a comparison that throws. *)
Lemma sort_insert_is_Some x l :
  (forall y, y ∈ l -> is_Some (comparefn x y)) -> is_Some (sort_insert comparefn x l).
Proof.
  induction l as [|y l IH]; intros Hc; simpl; [done|].
  destruct (Hc y) as [c ->]; [by left|]. simpl.
  destruct (0 <? c); [|done].
  destruct IH as [r' ->]; [|done]. intros z Hz. apply Hc. by right.
Qed.

Lemma sort_is_Some l :
  (forall x y, x ∈ l -> y ∈ l -> is_Some (comparefn x y)) -> is_Some (sort comparefn l).
Proof.
  induction l as [|x l IH]; intros Hc; simpl; [done|].
  destruct IH as [r' Hr'].
  { intros y z Hy Hz. apply Hc; by right. }
  rewrite Hr'. simpl. apply sort_insert_is_Some.
  intros y Hy. apply Hc; [by left|]. right. by rewrite <- (sort_perm _ _ Hr').
Qed.

(** Stability: elements that the comparison never orders one after the
    other keep their places relative to each other. *)
Section stable.
Context (P : A -> Prop) `{!forall x, Decision (P x)}.
Hypothesis tied : forall x y c, P x -> P y -> comparefn x y = Some c -> c <= 0.

Lemma sort_insert_filter x l l' :
  sort_insert comparefn x l = Some l' -> filter P l' = filter P (x :: l).
Proof.
  revert l'. induction l as [|y l IH]; intros l'; simpl.
  - by intros [= <-].
  - destruct (comparefn x y) as [c|] eqn:Hc; simpl; [|done].
    destruct (Z.ltb_spec 0 c) as [Hlt|Hle]; [|by intros [= <-]].
    destruct (sort_insert comparefn x l) as [r'|]; simpl; [|done].
    intros [= <-]. rewrite filter_cons, (IH r' eq_refl), !filter_cons.
    destruct (decide (P x)) as [Hx|Hx], (decide (P y)) as [Hy|Hy]; try done.
    specialize (tied x y c Hx Hy Hc). lia.
Qed.

Lemma sort_filter l l' : sort comparefn l = Some l' -> filter P l' = filter P l.
Proof.
  revert l'. induction l as [|x l IH]; intros l'; simpl.
  - by intros [= <-].
  - destruct (sort comparefn l) as [r'|]; simpl; [|done].
    intros Hins%sort_insert_filter. by rewrite Hins, !filter_cons, (IH r' eq_refl).
Qed.
End stable.

(** Order: where the comparison is a difference of keys. *)
Section ordered.
Context (key : A -> Z) (good : A -> Prop).
Hypothesis cmp_key :
  forall a b, good a -> good b -> comparefn a b = Some (key b - key a).

Lemma sort_insert_sorted x l l' :
  good x -> Forall good l -> StronglySorted (descending key) l ->
  sort_insert comparefn x l = Some l' -> StronglySorted (descending key) l'.
Proof.
  intros Hx. revert l'. induction l as [|y l IH]; intros l' Hl Hs; simpl.
  - intros [= <-]. by repeat constructor.
  - apply Forall_cons in Hl as [Hy Hl].
    apply StronglySorted_inv in Hs as [Hs Hall].
    rewrite (cmp_key x y Hx Hy). simpl.
    destruct (Z.ltb_spec 0 (key y - key x)) as [Hlt|Hle].
    + destruct (sort_insert comparefn x l) as [r'|] eqn:Hr'; simpl; [|done].
      intros [= <-]. constructor; [by apply IH|].
      rewrite (sort_insert_perm _ _ _ Hr').
      constructor; [unfold descending; lia | done].
    + intros [= <-]. constructor; [by constructor|].
      constructor; [unfold descending; lia|].
      eapply Forall_impl; [exact Hall|]. unfold descending. intros z Hz. lia.
Qed.

Lemma sort_sorted l l' :
  Forall good l -> sort comparefn l = Some l' -> StronglySorted (descending key) l'.
Proof.
  revert l'. induction l as [|x l IH]; intros l' Hl; simpl.
  - intros [= <-]. constructor.
  - apply Forall_cons in Hl as [Hx Hl].
    destruct (sort comparefn l) as [r'|] eqn:Hr'; simpl; [|done].
    apply sort_insert_sorted; [done | | by apply IH].
    by rewrite (sort_perm _ _ Hr').
Qed.
End ordered.
End sorting.

(** ** loadAnalysisData *)

Lemma load_entry_id w key r : load_entry w key = Some r -> id r = key.
Proof.
  unfold load_entry. destruct (to_string key) as [k|]; simpl; [|done].
  destruct (String.eqb _ _); [done|].
  apply decode_id.
Qed.

Lemma load_list_eq w keys :
  load_list w keys =
  if forallb has_text keys then Some (omap (load_entry w) keys) else None.
Proof.
  induction keys as [|key keys IH]; [done|]. cbn [load_list forallb omap list_omap].
  unfold has_text at 1. destruct (to_string key) as [k|] eqn:Hk; [|done].
  cbn [andb]. rewrite IH. destruct (forallb has_text keys); [|done].
  cbn [mbind option_bind]. by destruct (load_entry w key).
Qed.

Lemma list_of_keys_eq w keys :
  list_of_keys w keys =
  if forallb has_text keys then sort newest_first (omap (load_entry w) keys) else None.
Proof.
  unfold list_of_keys. rewrite load_list_eq. by destruct (forallb has_text keys).
Qed.

Lemma list_of_keys_Some w keys l :
  list_of_keys w keys = Some l ->
  forallb has_text keys = true /\
  sort newest_first (omap (load_entry w) keys) = Some l.
Proof. rewrite list_of_keys_eq. by destruct (forallb has_text keys). Qed.

Lemma in_range_valid s :
  in_range s = true -> JSON_valid s = true -> exists v, JSON_parse s = Some v.
Proof.
  unfold in_range. intros H Hv. rewrite Hv in H. simpl in H.
  destruct (JSON_parse s) as [v|]; [by exists v | done].
Qed.



Lemma loadAnalysisData_eq w :
  reader w = true -> available w = true ->
  loadAnalysisData w = (keys ← iterate (load_keys w); list_of_keys w keys).
Proof. intros Hr Ha. unfold loadAnalysisData. by rewrite Hr, Ha. Qed.

Lemma loadAnalysisData_inv w l :
  loadAnalysisData w = Some l ->
  exists ks, iterate (load_keys w) = Some ks /\ list_of_keys w ks = Some l.
Proof.
  unfold loadAnalysisData.
  destruct (reader w); [|done]. destruct (available w); [|done]. simpl.
  destruct (iterate (load_keys w)) as [ks|]; [|done]. simpl. eauto.
Qed.

Lemma newest_first_diff a b :
  has_time a = true -> has_time b = true ->
  newest_first a b = Some (time_of b - time_of a).
Proof.
  unfold has_time, newest_first, time_of.
  destruct (timestamp a) as [[]|]; try done.
  destruct (timestamp b) as [[]|]; done.
Qed.

Lemma newest_first_tied t x y c :
  time_of x = t -> time_of y = t -> newest_first x y = Some c -> c <= 0.
Proof.
  unfold newest_first, time_of. intros Hx Hy.
  destruct (to_number (timestamp y)) as [[ty|]|]; simpl; [| |done];
    (destruct (to_number (timestamp x)) as [[tx|]|]; simpl; [| |done]);
    intros [= <-]; lia.
Qed.

(** C6 as the code has it: the listing is in descending order of
    timestamp, and records with the same timestamp stand in the order of
    their ids in the index (the sort is stable; ids are not compared). *)
Theorem list_newest_first_ties_in_index_order w l :
  loadAnalysisData w = Some l ->
  Forall (fun r => has_time r = true) l ->
  StronglySorted newer_or_same l /\
  exists ks, iterate (load_keys w) = Some ks /\
    forall t, filter (fun r => time_of r = t) l
              = filter (fun r => time_of r = t) (omap (load_entry w) ks).
Proof.
  intros (ks & Hks & Hl)%loadAnalysisData_inv Hnum.
  apply list_of_keys_Some in Hl as [_ Hl].
  split.
  - apply (sort_sorted newest_first time_of (fun r => has_time r = true)
             newest_first_diff _ _) in Hl; [done|].
    by rewrite (sort_perm _ _ _ Hl) in Hnum.
  - exists ks. split; [done|]. intros t.
    apply (sort_filter newest_first _ (newest_first_tied t) _ _ Hl).
Qed.

Lemma list_newest_first_witness :
  StronglySorted newer_or_same
    [listed "b" 300 "0xB" "processing"; listed "d" 300 "0xA" "processing";
     listed "c" 200 "0xA" "processing"; listed "a" 100 "0xA" "processing"] /\
  exists ks, iterate (load_keys ledger_by_time) = Some ks /\
    forall t,
      filter (fun r => time_of r = t)
        [listed "b" 300 "0xB" "processing"; listed "d" 300 "0xA" "processing";
         listed "c" 200 "0xA" "processing"; listed "a" 100 "0xA" "processing"]
      = filter (fun r => time_of r = t) (omap (load_entry ledger_by_time) ks).
Proof.
  apply (list_newest_first_ties_in_index_order ledger_by_time).
  - vm_compute. reflexivity.
  - repeat constructor.
Defined.

(** The listing of the specification's example: timestamps 100, 300, 200. *)
Example list_100_300_200 :
  loadAnalysisData
    (ledger ["x"; "y"; "z"]
       [("x", fresh 100 "0xA"); ("y", fresh 300 "0xA"); ("z", fresh 200 "0xA")] [])
  = Some [listed "y" 300 "0xA" "processing"; listed "z" 200 "0xA" "processing";
          listed "x" 100 "0xA" "processing"].
Proof. vm_compute. reflexivity. Qed.

(** C6 fails on the code: two records of the same timestamp are listed in
    index order, here "b" before "a", not by ascending id. *)
Lemma list_ties_not_by_id :
  loadAnalysisData
    (ledger ["b"; "a"] [("a", fresh 100 "0xA"); ("b", fresh 100 "0xA")] [])
  = Some [listed "b" 100 "0xA" "processing"; listed "a" 100 "0xA" "processing"] /\
  String.ltb "a" "b" = true.
Proof. split; vm_compute; reflexivity. Qed.




(** The listing of that ledger: the two records that decode. *)
Example list_with_gaps :
  loadAnalysisData ledger_with_gaps
  = Some [listed "c" 200 "0xA" "processing"; listed "a" 100 "0xA" "processing"].
Proof. vm_compute. reflexivity. Qed.

(** A listing can fail for another cause than a bad id: an entry that
    decodes, but to a timestamp that has no number ([ToPrimitive] raises
    on an object whose own [toString] is not a function), makes the
    comparison of line 120 throw. *)
Example list_fails_on_timestamp_without_number :
  load_entry ledger_poisoned (JStr "p")
  = Some (mkData (JStr "p") None None None
            (Some (JObj [("toString", JNum 1)])) None (JStr "processing")) /\
  loadAnalysisData ledger_poisoned = None.
Proof. split; vm_compute; reflexivity. Qed.

(** ** Ledger writes *)

Lemma setData_accepted key value w :
  accepts w = true -> setData key value w = (Return tt, written key value w).
Proof.
  unfold accepts, setData, written. by destruct (answers w) as [|[m|] rest].
Qed.

Lemma setData_rejected key value w :
  accepts w = false ->
  exists e w', setData key value w = (Throw e, w') /\
    storage w' = storage w /\ journal w' = journal w /\
    reader w' = reader w /\ available w' = available w /\ signer w' = signer w.
Proof.
  unfold accepts, setData. destruct (answers w) as [|[m|] rest]; try done.
  intros _. by eexists _, _.
Qed.

Lemma getData_written key value w k :
  getData (written key value w) k = if decide (key = k) then value else getData w k.
Proof.
  unfold getData, written. simpl. rewrite lookup_insert. by destruct (decide (key = k)).
Qed.

(** ** Objects *)

Lemma obj_get_set k k' v o :
  obj_get k (obj_set k' v o) = if String.eqb k k' then Some v else obj_get k o.
Proof.
  induction o as [|[k2 v2] o IH]; simpl; [done|].
  destruct (String.eqb_spec k' k2) as [->|Hne]; simpl.
  - by destruct (String.eqb k k2).
  - destruct (precedes k' k2); simpl; [done|].
    rewrite IH. destruct (String.eqb_spec k k') as [->|]; [|done].
    by destruct (String.eqb_spec k' k2).
Qed.

Lemma obj_get_Some_in k v o : obj_get k o = Some v -> k ∈ o.*1.
Proof.
  induction o as [|[k' v'] o IH]; simpl; [done|].
  destruct (String.eqb_spec k k') as [->|_]; [by left | right; auto].
Qed.

Lemma obj_set_same k v o :
  key_order o.*1 = true -> obj_get k o = Some v -> obj_set k v o = o.
Proof.
  induction o as [|[k2 v2] o IH]; [done|].
  change (((k2, v2) :: o).*1) with (k2 :: o.*1).
  intros [Hall Hko]%key_order_cons. simpl.
  destruct (String.eqb_spec k k2) as [->|Hne]; [by intros [= ->]|].
  intros Hget. rewrite Forall_forall in Hall.
  rewrite (Hall k (obj_get_Some_in _ _ _ Hget)). by rewrite IH.
Qed.

Lemma imap_keys {B} (g : nat -> string) (h : B -> json) (l : list B) :
  (imap (fun i e => (g i, h e)) l).*1 = g <$> seq 0 (length l).
Proof.
  revert g. induction l as [|x l IH]; intros g; [done|]. simpl. f_equal.
  rewrite <- fmap_S_seq, <- list_fmap_compose. apply (IH (g ∘ S)).
Qed.

Lemma imap_values {B} (g : nat -> string) (h : B -> json) (l : list B) :
  (imap (fun i e => (g i, h e)) l).*2 = h <$> l.
Proof.
  revert g. induction l as [|x l IH]; intros g; [done|]. simpl. f_equal.
  apply (IH (g ∘ S)).
Qed.

Lemma forallb_values (o : list (string * json)) :
  forallb (fun kv => wf kv.2) o = forallb wf o.*2.
Proof. induction o as [|[k v] o IH]; simpl; [done|]. by rewrite IH. Qed.

Lemma index_keys_NoDup n : NoDup ((fun i => print_N (N.of_nat i)) <$> seq 0 n).
Proof.
  apply NoDup_fmap_2; [|apply NoDup_seq].
  intros i j H. apply print_N_inj in H. lia.
Qed.

Lemma array_index_print n :
  array_index (print_N n) = if (n <=? 4294967294)%N then Some n else None.
Proof.
  unfold array_index.
  pose proof (parse_int_print n "" I) as H. rewrite app_empty_r in H. by rewrite H.
Qed.

Lemma index_keys_order a n :
  key_order ((fun i => print_N (N.of_nat i)) <$> seq a n) = true.
Proof.
  revert a. induction n as [|n IH]; intros a; [done|].
  cbn [seq fmap list_fmap]. apply key_order_cons. split; [|apply IH].
  apply Forall_forall. intros z (j & -> & Hj)%list_elem_of_fmap.
  apply elem_of_seq in Hj. unfold precedes. rewrite !array_index_print.
  destruct (N.leb_spec (N.of_nat j) 4294967294); [|done].
  destruct (N.leb_spec (N.of_nat a) 4294967294); [|lia].
  apply N.ltb_ge. lia.
Qed.

Lemma wf_spread v : wf v = true -> wf (JObj (spread v)) = true.
Proof.
  destruct v as [| b | z | s | l | o]; try done; intros Hwf; apply wf_JObj; simpl.
  - rewrite imap_keys. split; [apply index_keys_NoDup|].
    split; [apply index_keys_order|].
    rewrite forallb_values, imap_values.
    induction (list_ascii_of_string s); simpl; auto.
  - rewrite (imap_keys _ (fun e => e)). split; [apply index_keys_NoDup|].
    split; [apply index_keys_order|].
    rewrite forallb_values, (imap_values _ (fun e => e)), list_fmap_id. done.
Qed.

Lemma wf_updatedData v : wf v = true -> wf (updatedData v) = true.
Proof.
  intros Hwf. unfold updatedData.
  do 3 (apply obj_set_wf_obj; [done|]). by apply wf_spread.
Qed.

(** A key that does not start with a digit is no index of an array or a
    string. *)
Lemma obj_get_index {B} (h : B -> json) (l : list B) c k :
  is_digit c = false ->
  obj_get (String c k) (imap (fun i e => (print_N (N.of_nat i), h e)) l) = None.
Proof.
  intros Hc.
  assert (H : forall g : nat -> string,
            (forall i, exists c' s, g i = String c' s /\ is_digit c' = true) ->
            obj_get (String c k) (imap (fun i e => (g i, h e)) l) = None).
  { induction l as [|x l IH]; intros g Hg; [done|]. simpl.
    destruct (Hg 0%nat) as (c' & s & -> & Hc'). simpl.
    destruct (Ascii.eqb_spec c c') as [->|_]; [congruence|].
    apply (IH (g ∘ S)). intros i. apply Hg. }
  apply H. intros i. apply print_N_head.
Qed.

Lemma prop_spread v c k :
  is_digit c = false -> obj_get (String c k) (spread v) = prop v (String c k).
Proof.
  intros Hc. destruct v as [| b | z | s | l | o]; try done.
  - apply (obj_get_index _ _ _ _ Hc).
  - apply (obj_get_index (fun e => e) _ _ _ Hc).
Qed.

(** ** processWithFHE *)

Lemma process_try_cases analysisId w :
  (exists e w', process_try analysisId w = (Throw e, w') /\
     storage w' = storage w /\ journal w' = journal w /\
     reader w' = reader w /\ available w' = available w) \/
  (exists k v, signer w = true /\ accepts w = true /\
     to_string analysisId = Some k /\
     getData w (record_key k) <> "" /\
     JSON_parse (getData w (record_key k)) = Some v /\
     process_try analysisId w =
       (Return tt, written (record_key k) (JSON_stringify (updatedData v)) w)).
Proof.
  unfold process_try, bind, getContractWithSigner, engine, readData, ret, throw.
  destruct (signer w) eqn:Hs; [|left; by eexists _, _].
  destruct (to_string analysisId) as [k|] eqn:Hk; [|left; by eexists _, _].
  destruct (String.eqb_spec (getData w (record_key k)) "") as [He|Hne];
    [left; by eexists _, _|].
  destruct (JSON_parse (getData w (record_key k))) as [v|] eqn:Hv;
    [|left; by eexists _, _].
  destruct (accepts w) eqn:Hacc.
  - right. exists k, v. rewrite setData_accepted by done. by repeat split.
  - left.
    destruct (setData_rejected (record_key k) (JSON_stringify (updatedData v)) w Hacc)
      as (e & w' & -> & ? & ? & ? & ? & ?).
    by eexists _, _.
Qed.

Lemma processWithFHE_status analysisId st w :
  provider st = true ->
  transactionStatus (processWithFHE analysisId st w).1 =
  match (process_try analysisId w).1 with
  | Return _ => Success
  | Throw e => Failure e
  end.
Proof.
  intros Hp. unfold processWithFHE. rewrite Hp. simpl.
  destruct (process_try analysisId w) as [[[]|e] w']; simpl; [|done].
  unfold refresh. by destruct (loadAnalysisData w').
Qed.

Lemma processWithFHE_world analysisId st w :
  provider st = true ->
  (processWithFHE analysisId st w).2 = (process_try analysisId w).2.
Proof.
  intros Hp. unfold processWithFHE. rewrite Hp. simpl.
  by destruct (process_try analysisId w) as [[[]|e] w'].
Qed.

(** What a call that goes through has read and written. *)
Lemma processWithFHE_success analysisId st w :
  provider st = true ->
  transactionStatus (processWithFHE analysisId st w).1 = Success ->
  exists k v, signer w = true /\ accepts w = true /\
    to_string analysisId = Some k /\
    getData w (record_key k) <> "" /\
    JSON_parse (getData w (record_key k)) = Some v /\
    (processWithFHE analysisId st w).2 =
      written (record_key k) (JSON_stringify (updatedData v)) w.
Proof.
  intros Hp. rewrite processWithFHE_status, processWithFHE_world by done.
  destruct (process_try_cases analysisId w)
    as [(e & w' & -> & _)|(k & v & Hs & Ha & Hk & Hne & Hv & ->)]; [done|].
  intros _. by exists k, v.
Qed.

Lemma decode_updated key v :
  wf v = true ->
  decode key (JSON_stringify (updatedData v)) =
  Some (mkData key (prop v "image") (Some (JStr "FHE-ENCRYPTED-DENSITY-MAP"))
          (Some (JStr "FHE-ENCRYPTED-STRUCTURE")) (prop v "timestamp")
          (prop v "owner") (JStr "completed")).
Proof.
  intros Hwf.
  rewrite (decode_parsed key _ (updatedData v));
    [| by apply JSON_parse_stringify, wf_updatedData | done].
  unfold updatedData, prop. rewrite !obj_get_set. simpl.
  by rewrite !prop_spread by done.
Qed.

(** On the bytes of a well-typed record, the update of lines 251-261
    writes the encoding of the record with its artifacts and status
    replaced. *)
Lemma updatedData_encode r v :
  well_typed r = true -> JSON_parse (encode r) = Some v ->
  JSON_stringify (updatedData v) =
  encode (mkData (id r) (encryptedImage r)
            (Some (JStr "FHE-ENCRYPTED-DENSITY-MAP"))
            (Some (JStr "FHE-ENCRYPTED-STRUCTURE"))
            (timestamp r) (owner r) (JStr "completed")).
Proof.
  destruct r as [i im dm ms ts ow st]. unfold well_typed. simpl.
  rewrite !andb_true_iff. intros [[[[[[_ Him] Hdm] Hms] Hts] How] Hst].
  destruct im as [[]|]; try discriminate Him.
  destruct dm as [[]|]; try discriminate Hdm.
  destruct ms as [[]|]; try discriminate Hms.
  destruct ts as [[]|]; try discriminate Hts.
  destruct ow as [[]|]; try discriminate How.
  destruct st as [| | |[|a st]| |]; try discriminate.
  unfold encode. simpl member. simpl app.
  rewrite JSON_parse_stringify.
  - by intros [= <-].
  - apply wf_JObj. split; [|split].
    + apply (bool_decide_unpack _). by vm_compute.
    + by vm_compute.
    + simpl in Hts |- *. by rewrite Hts.
Qed.

Lemma stringify_nonempty v : JSON_stringify v <> "".
Proof. destruct (stringify_head v) as (c & s & -> & _). done. Qed.

Lemma process_try_run analysisId w k v :
  signer w = true -> accepts w = true -> to_string analysisId = Some k ->
  getData w (record_key k) <> "" ->
  JSON_parse (getData w (record_key k)) = Some v ->
  process_try analysisId w =
    (Return tt, written (record_key k) (JSON_stringify (updatedData v)) w).
Proof.
  intros Hs Ha Hk Hne Hv.
  unfold process_try, bind, getContractWithSigner, engine, readData, ret, throw.
  rewrite Hs, Hk.
  destruct (String.eqb_spec (getData w (record_key k)) "") as [He|_]; [done|].
  rewrite Hv. by apply setData_accepted.
Qed.

Lemma processWithFHE_provider analysisId st w :
  provider (processWithFHE analysisId st w).1 = provider st.
Proof.
  unfold processWithFHE. destruct (provider st) eqn:Hp; simpl; [|done].
  destruct (process_try analysisId w) as [[[]|e] w']; simpl; [|done].
  unfold refresh. by destruct (loadAnalysisData w').
Qed.

Lemma updatedData_idem v :
  wf v = true -> updatedData (updatedData v) = updatedData v.
Proof.
  intros Hwf. apply wf_updatedData in Hwf.
  unfold updatedData at 1. unfold spread. unfold updatedData in *. f_equal.
  apply wf_JObj in Hwf as (_ & Hko & _).
  rewrite (obj_set_same "densityMap"); [|done|by rewrite !obj_get_set].
  rewrite (obj_set_same "structure"); [|done|by rewrite !obj_get_set].
  rewrite (obj_set_same "status"); [|done|by rewrite !obj_get_set].
  done.
Qed.

(** What [JSON_parse] reads in the bytes of a well-typed record. *)
Lemma encode_parsed r :
  well_typed r = true ->
  exists v, JSON_parse (encode r) = Some v /\ wf v = true /\
    prop v "image" = encryptedImage r /\ prop v "timestamp" = timestamp r /\
    prop v "owner" = owner r.
Proof.
  destruct r as [i im dm ms ts ow st]. unfold well_typed. simpl.
  rewrite !andb_true_iff. intros [[[[[[_ Him] Hdm] Hms] Hts] How] Hst].
  destruct im as [[]|]; try discriminate Him.
  destruct dm as [[]|]; try discriminate Hdm.
  destruct ms as [[]|]; try discriminate Hms.
  destruct ts as [[]|]; try discriminate Hts.
  destruct ow as [[]|]; try discriminate How.
  destruct st as [| | |[|a st]| |]; try discriminate.
  unfold encode. simpl member. simpl app.
  assert (Hwf : wf (JObj [("image", JStr s); ("densityMap", JStr s0);
                          ("structure", JStr s1); ("timestamp", JNum z);
                          ("owner", JStr s2); ("status", JStr (String a st))]) = true).
  { apply wf_JObj. split; [|split].
    - apply (bool_decide_unpack _). by vm_compute.
    - by vm_compute.
    - simpl in Hts |- *. by rewrite Hts. }
  eexists. split; [by apply JSON_parse_stringify|]. by split.
Qed.



(** On the bytes of a well-typed record a call goes through as soon as
    there is a signer and the wallet lets the write through. *)
Lemma process_try_record w k r :
  well_typed r = true -> id r = JStr k -> getData w (record_key k) = encode r ->
  signer w = true -> accepts w = true ->
  process_try (id r) w =
  (Return tt,
   written (record_key k)
     (encode (mkData (id r) (encryptedImage r)
                (Some (JStr "FHE-ENCRYPTED-DENSITY-MAP"))
                (Some (JStr "FHE-ENCRYPTED-STRUCTURE"))
                (timestamp r) (owner r) (JStr "completed"))) w).
Proof.
  intros Hwt Hid Hget Hs Ha.
  destruct (encode_parsed r Hwt) as (v & Hv & _).
  rewrite (process_try_run (id r) w k v Hs Ha).
  - by rewrite (updatedData_encode r v Hwt Hv).
  - by rewrite Hid.
  - rewrite Hget. apply stringify_nonempty.
  - by rewrite Hget.
Qed.

Lemma decode_completed r :
  well_typed r = true ->
  decode (id r)
    (encode (mkData (id r) (encryptedImage r)
               (Some (JStr "FHE-ENCRYPTED-DENSITY-MAP"))
               (Some (JStr "FHE-ENCRYPTED-STRUCTURE"))
               (timestamp r) (owner r) (JStr "completed")))
  = Some (mkData (id r) (encryptedImage r)
            (Some (JStr "FHE-ENCRYPTED-DENSITY-MAP"))
            (Some (JStr "FHE-ENCRYPTED-STRUCTURE"))
            (timestamp r) (owner r) (JStr "completed")).
Proof.
  intros Hwt. destruct (encode_parsed r Hwt) as (v & Hv & Hwf & Him & Hts & How).
  rewrite <- (updatedData_encode r v Hwt Hv), decode_updated by done.
  by rewrite Him, Hts, How.
Qed.

(** C10, for the records that the application stores (the bytes that
    encode a well-typed record, under the key of its id).  A call of
    [processWithFHE] succeeds exactly when there is a signer and the wallet
    lets the write through.  A call that succeeds stores the record with
    the two artifacts and the status replaced: the id, the encrypted image,
    the timestamp and the owner of the stored record are as they were; and
    it touches no other entry of the ledger. *)
Theorem advance_keeps_identity_fields st w k r :
  provider st = true ->
  well_typed r = true -> id r = JStr k ->
  getData w (record_key k) = encode r ->
  let out := processWithFHE (id r) st w in
  let r' := mkData (id r) (encryptedImage r)
              (Some (JStr "FHE-ENCRYPTED-DENSITY-MAP"))
              (Some (JStr "FHE-ENCRYPTED-STRUCTURE"))
              (timestamp r) (owner r) (JStr "completed") in
  (transactionStatus out.1 = Success <-> signer w = true /\ accepts w = true) /\
  (transactionStatus out.1 = Success ->
   getData out.2 (record_key k) = encode r' /\
   decode (id r) (getData out.2 (record_key k)) = Some r' /\
   (forall key, key <> record_key k -> getData out.2 key = getData w key)).
Proof.
  intros Hp Hwt Hid Hget out r'.
  pose proof (process_try_record w k r Hwt Hid Hget) as Hrun.
  split.
  - unfold out. rewrite processWithFHE_status by done. split.
    + intros Hok.
      destruct (process_try_cases (id r) w)
        as [(e & w' & Hfail & _)|(k' & v' & Hs & Ha & _)]; [|done].
      by rewrite Hfail in Hok.
    + intros [Hs Ha]. by rewrite Hrun.
  - intros Hok.
    destruct (processWithFHE_success _ _ _ Hp Hok) as (k' & v' & Hs & Ha & _).
    unfold out. rewrite processWithFHE_world by done. rewrite Hrun by done.
    cbn [snd]. split; [|split].
    + by rewrite getData_written, decide_True.
    + rewrite getData_written, decide_True by done. by apply decode_completed.
    + intros key Hkey. by rewrite getData_written, decide_False.
Qed.

Lemma advance_keeps_identity_fields_witness :
  let w := ledger_one "processing" [] in
  let r := listed "r1" 100 "0xA11CE" "processing" in
  let out := processWithFHE (id r) alice w in
  let r' := mkData (id r) (encryptedImage r)
              (Some (JStr "FHE-ENCRYPTED-DENSITY-MAP"))
              (Some (JStr "FHE-ENCRYPTED-STRUCTURE"))
              (timestamp r) (owner r) (JStr "completed") in
  (transactionStatus out.1 = Success <-> signer w = true /\ accepts w = true) /\
  (transactionStatus out.1 = Success ->
   getData out.2 (record_key "r1") = encode r' /\
   decode (id r) (getData out.2 (record_key "r1")) = Some r' /\
   (forall key, key <> record_key "r1" -> getData out.2 key = getData w key)).
Proof.
  apply (advance_keeps_identity_fields alice (ledger_one "processing" []) "r1"
           (listed "r1" 100 "0xA11CE" "processing")).
  - reflexivity.
  - reflexivity.
  - reflexivity.
  - vm_compute. reflexivity.
Defined.



(** The two ends of a call on a record in status "processing": the wallet
    lets the write through, and the record is stored as completed; the
    wallet rejects it, and the stored record is as it was. *)
Example advance_accepted_and_rejected :
  transactionStatus (processWithFHE (JStr "r1") alice (ledger_one "processing" [])).1
  = Success /\
  decode (JStr "r1")
    (getData (processWithFHE (JStr "r1") alice (ledger_one "processing" [])).2
       (record_key "r1"))
  = Some (mkData (JStr "r1") (Some (JStr "FHE-eyJ9"))
            (Some (JStr "FHE-ENCRYPTED-DENSITY-MAP"))
            (Some (JStr "FHE-ENCRYPTED-STRUCTURE")) (Some (JNum 100))
            (Some (JStr "0xA11CE")) (JStr "completed")) /\
  transactionStatus
    (processWithFHE (JStr "r1") alice
       (ledger_one "processing" [Some "user rejected transaction"])).1
  = Failure (Error "user rejected transaction") /\
  decode (JStr "r1")
    (getData
       (processWithFHE (JStr "r1") alice
          (ledger_one "processing" [Some "user rejected transaction"])).2
       (record_key "r1"))
  = Some (listed "r1" 100 "0xA11CE" "processing").
Proof. repeat split; vm_compute; reflexivity. Qed.

(** C2 as the code has it: [processWithFHE] makes no check of the stored
    status.  Called again on a record it has completed (the wallet letting
    the write through), it succeeds again and leaves the storage as the
    first call wrote it.  The guard is in the views: neither offers the
    action for a record whose status is not "processing". *)
Theorem advance_twice_succeeds_twice analysisId st w :
  provider st = true ->
  transactionStatus (processWithFHE analysisId st w).1 = Success ->
  accepts (processWithFHE analysisId st w).2 = true ->
  (exists k r, to_string analysisId = Some k /\
     decode analysisId (getData (processWithFHE analysisId st w).2 (record_key k))
       = Some r /\ status r = JStr "completed") /\
  (let once := processWithFHE analysisId st w in
   transactionStatus (processWithFHE analysisId once.1 once.2).1 = Success /\
   storage (processWithFHE analysisId once.1 once.2).2 = storage once.2) /\
  (forall account data, is_processing data = false ->
     row_offers_process account data <> Some true /\
     modal_offers_process account data <> Some true).
Proof.
  intros Hp Hok Hacc.
  pose proof (processWithFHE_provider analysisId st w) as Hp1. rewrite Hp in Hp1.
  destruct (processWithFHE_success analysisId st w Hp Hok)
    as (k & v & Hs & _ & Hk & _ & Hv & Hw).
  pose proof (JSON_parse_wf _ _ Hv) as Hwf.
  split; [|split].
  - exists k. eexists. split; [done|]. rewrite Hw.
    rewrite getData_written, decide_True by done.
    by rewrite decode_updated.
  - cbv zeta.
    rewrite (processWithFHE_status analysisId _ _ Hp1).
    rewrite (processWithFHE_world analysisId _ _ Hp1).
    rewrite Hw in Hacc |- *.
    rewrite (process_try_run analysisId _ k (updatedData v)); try done.
    + cbn [fst snd]. split; [done|]. rewrite updatedData_idem by done.
      unfold written. cbn [storage]. by rewrite insert_insert_eq.
    + rewrite getData_written, decide_True by done. apply stringify_nonempty.
    + rewrite getData_written, decide_True by done.
      by apply JSON_parse_stringify, wf_updatedData.
  - intros account data Hnp.
    unfold row_offers_process, modal_offers_process. rewrite Hnp.
    destruct (isOwner account (owner data)) as [[]|]; simpl; done.
Qed.

Lemma advance_twice_succeeds_twice_witness :
  (exists k r, to_string (JStr "r1") = Some k /\
     decode (JStr "r1")
       (getData (processWithFHE (JStr "r1") alice (ledger_one "processing" [])).2
          (record_key k)) = Some r /\ status r = JStr "completed") /\
  (let once := processWithFHE (JStr "r1") alice (ledger_one "processing" []) in
   transactionStatus (processWithFHE (JStr "r1") once.1 once.2).1 = Success /\
   storage (processWithFHE (JStr "r1") once.1 once.2).2 = storage once.2) /\
  (forall account data, is_processing data = false ->
     row_offers_process account data <> Some true /\
     modal_offers_process account data <> Some true).
Proof.
  apply (advance_twice_succeeds_twice (JStr "r1") alice (ledger_one "processing" []));
    vm_compute; reflexivity.
Defined.

(** C2 fails on the code: on a record whose stored status is "failed" the
    call goes through and rewrites the record as completed. *)
Lemma advance_of_terminal_record_goes_through :
  decode (JStr "r1") (getData (ledger_one "failed" []) (record_key "r1"))
  = Some (listed "r1" 100 "0xA11CE" "failed") /\
  transactionStatus (processWithFHE (JStr "r1") alice (ledger_one "failed" [])).1
  = Success /\
  decode (JStr "r1")
    (getData (processWithFHE (JStr "r1") alice (ledger_one "failed" [])).2
       (record_key "r1"))
  = Some (mkData (JStr "r1") (Some (JStr "FHE-eyJ9"))
            (Some (JStr "FHE-ENCRYPTED-DENSITY-MAP"))
            (Some (JStr "FHE-ENCRYPTED-STRUCTURE")) (Some (JNum 100))
            (Some (JStr "0xA11CE")) (JStr "completed")).
Proof. repeat split; vm_compute; reflexivity. Qed.

(** C1 as the code has it: the owner check is made by the views, not by
    [processWithFHE].  For an account that is not the record's owner
    neither the row nor the details modal offers the action; the call
    itself does the same to the ledger whatever the account is. *)
Theorem owner_check_is_in_the_views st data :
  isOwner (account st) (owner data) = Some false ->
  row_offers_process (account st) data = Some false /\
  modal_offers_process (account st) data = Some false /\
  (forall caller w,
     (processWithFHE (id data) (setAccount caller st) w).2
     = (processWithFHE (id data) st w).2 /\
     transactionStatus (processWithFHE (id data) (setAccount caller st) w).1
     = transactionStatus (processWithFHE (id data) st w).1).
Proof.
  intros Hno. unfold row_offers_process, modal_offers_process. rewrite Hno. simpl.
  split; [done|]. split; [by destruct (is_processing data)|].
  intros caller w. unfold processWithFHE. simpl.
  destruct (provider st); simpl; [|done].
  destruct (process_try (id data) w) as [[[]|e] w']; simpl; [|done].
  split; [done|]. unfold refresh. by destruct (loadAnalysisData w').
Qed.

Lemma owner_check_is_in_the_views_witness :
  row_offers_process (account mallory) (listed "r1" 100 "0xA11CE" "processing")
  = Some false /\
  modal_offers_process (account mallory) (listed "r1" 100 "0xA11CE" "processing")
  = Some false /\
  (forall caller w,
     (processWithFHE (id (listed "r1" 100 "0xA11CE" "processing"))
        (setAccount caller mallory) w).2
     = (processWithFHE (id (listed "r1" 100 "0xA11CE" "processing")) mallory w).2 /\
     transactionStatus
       (processWithFHE (id (listed "r1" 100 "0xA11CE" "processing"))
          (setAccount caller mallory) w).1
     = transactionStatus
         (processWithFHE (id (listed "r1" 100 "0xA11CE" "processing")) mallory w).1).
Proof.
  apply (owner_check_is_in_the_views mallory (listed "r1" 100 "0xA11CE" "processing")).
  reflexivity.
Defined.

(** C1 fails on the code: called under an account that is not the owner,
    [processWithFHE] goes through and the stored status changes from
    "processing" to "completed". *)
Lemma advance_by_non_owner_goes_through :
  isOwner (account mallory) (Some (JStr "0xA11CE")) = Some false /\
  decode (JStr "r1") (getData (ledger_one "processing" []) (record_key "r1"))
  = Some (listed "r1" 100 "0xA11CE" "processing") /\
  transactionStatus (processWithFHE (JStr "r1") mallory (ledger_one "processing" [])).1
  = Success /\
  status <$> decode (JStr "r1")
    (getData (processWithFHE (JStr "r1") mallory (ledger_one "processing" [])).2
       (record_key "r1"))
  = Some (JStr "completed").
Proof. repeat split; vm_compute; reflexivity. Qed.

(** The owner gate compares accounts without regard to case. *)
Example isOwner_ignores_case :
  isOwner (account alice) (Some (JStr "0xA11CE")) = Some true.
Proof. reflexivity. Qed.

(** ** uploadXrayImage *)


Lemma record_key_not_index now suffix : record_key (make_id now suffix) <> "analysis_keys".
Proof.
  unfold record_key, make_id.
  change "analysis_keys" with ("analysis_" +:+ "keys").
  intros H%(inj (String.append "analysis_")).
  by destruct (print_N_head now) as (c & s & Hs & Hc); rewrite Hs in H;
    injection H as -> _.
Qed.

Lemma load_keys_wf w : wf (load_keys w) = true.
Proof.
  unfold load_keys. destruct (String.eqb _ _); [done|].
  destruct (JSON_parse _) as [v|] eqn:Hv; [|done]. by apply JSON_parse_wf in Hv.
Qed.

Lemma load_keys_written_record now suffix bytes w :
  load_keys (written (record_key (make_id now suffix)) bytes w) = load_keys w.
Proof.
  unfold load_keys. rewrite getData_written, decide_False; [done|].
  apply record_key_not_index.
Qed.

Lemma load_keys_written_index ks w :
  wf (JArr ks) = true ->
  load_keys (written "analysis_keys" (JSON_stringify (JArr ks)) w) = JArr ks.
Proof.
  intros Hwf. unfold load_keys. rewrite getData_written, decide_True by done.
  destruct (String.eqb_spec (JSON_stringify (JArr ks)) "") as [H|_].
  - by apply stringify_nonempty in H.
  - by rewrite JSON_parse_stringify.
Qed.

(** The three ways a call can end: nothing written, the record written
    and the index not, both written in that order. *)
Lemma upload_try_cases st now suffix now' w :
  let key := record_key (make_id now suffix) in
  let bytes := JSON_stringify (new_record (encrypt (newAnalysisData st)) now' (account st)) in
  let w1 := written key bytes w in
  (exists e w', upload_try st now suffix now' w = (Throw e, w') /\
     storage w' = storage w /\ journal w' = journal w) \/
  (exists e w', upload_try st now suffix now' w = (Throw e, w') /\
     storage w' = storage w1 /\ journal w' = journal w1) \/
  (exists ks, load_keys w = JArr ks /\
     upload_try st now suffix now' w =
       (Return tt,
        written "analysis_keys"
          (JSON_stringify (JArr (ks ++ [JStr (make_id now suffix)]))) w1)).
Proof.
  intros key bytes w1.
  unfold upload_try, bind, getContractWithSigner, engine, readData, ret, throw.
  destruct (signer w) eqn:Hs; [|left; by eexists _, _].
  fold key bytes.
  destruct (accepts w) eqn:Hacc.
  2:{ left. destruct (setData_rejected key bytes w Hacc)
        as (e & w' & -> & ? & ? & _). by eexists _, _. }
  rewrite setData_accepted by done. fold w1.
  change (if String.eqb (getData w1 "analysis_keys") "" then JArr []
          else default (JArr []) (JSON_parse (getData w1 "analysis_keys")))
    with (load_keys w1).
  assert (Hk : load_keys w1 = load_keys w) by apply load_keys_written_record.
  rewrite Hk.
  destruct (load_keys w) as [| b | z | s | ks | o] eqn:Hks; cbn [push];
    try (right; left; by eexists _, _).
  destruct (accepts w1) eqn:Hacc1.
  - right. right. exists ks. by rewrite setData_accepted.
  - right. left.
    destruct (setData_rejected "analysis_keys"
                (JSON_stringify (JArr (ks ++ [JStr (make_id now suffix)]))) w1 Hacc1)
      as (e & w' & -> & ? & ? & _).
    by eexists _, _.
Qed.

Lemma uploadXrayImage_status now suffix now' st w :
  provider st = true ->
  transactionStatus (uploadXrayImage now suffix now' st w).1 =
  match (upload_try st now suffix now' w).1 with
  | Return _ => Success
  | Throw e => Failure e
  end.
Proof.
  intros Hp. unfold uploadXrayImage. rewrite Hp. simpl.
  destruct (upload_try st now suffix now' w) as [[[]|e] w']; simpl; [|done].
  unfold refresh. by destruct (loadAnalysisData w').
Qed.

Lemma uploadXrayImage_world now suffix now' st w :
  provider st = true ->
  (uploadXrayImage now suffix now' st w).2 = (upload_try st now suffix now' w).2.
Proof.
  intros Hp. unfold uploadXrayImage. rewrite Hp. simpl.
  by destruct (upload_try st now suffix now' w) as [[[]|e] w'].
Qed.

(** C3 as the code has it: the id is appended to the index list without a
    look at the list.  After an upload that goes through, the stored index
    is the list that was stored before followed by the new id, whether or
    not that id was in it already. *)
Theorem register_key_appends now suffix now' st w :
  provider st = true ->
  transactionStatus (uploadXrayImage now suffix now' st w).1 = Success ->
  exists ks, load_keys w = JArr ks /\
    load_keys (uploadXrayImage now suffix now' st w).2
    = JArr (ks ++ [JStr (make_id now suffix)]).
Proof.
  intros Hp. rewrite uploadXrayImage_status, uploadXrayImage_world by done.
  destruct (upload_try_cases st now suffix now' w)
    as [(e & w' & -> & _)|[(e & w' & -> & _)|(ks & Hks & ->)]]; try done.
  intros _. exists ks. split; [done|]. cbn [snd].
  apply load_keys_written_index.
  pose proof (load_keys_wf w) as Hwf. rewrite Hks in Hwf.
  simpl in Hwf |- *. rewrite forallb_app, Hwf. done.
Qed.

Lemma register_key_appends_witness :
  exists ks, load_keys (ledger_one "processing" []) = JArr ks /\
    load_keys
      (uploadXrayImage 1700000000123 "k3j9x2a" 1700000000456 alice
         (ledger_one "processing" [])).2
    = JArr (ks ++ [JStr (make_id 1700000000123 "k3j9x2a")]).
Proof.
  apply (register_key_appends 1700000000123 "k3j9x2a" 1700000000456 alice
           (ledger_one "processing" [])).
  - reflexivity.
  - vm_compute. reflexivity.
Defined.

(** C3 fails on the code: when the id made from the clock and the random
    suffix is in the index already, it is appended once more. *)
Lemma register_key_twice_lists_twice :
  load_keys (ledger ["1700000000123-k3j9x2a"]
               [("1700000000123-k3j9x2a", fresh 1700000000 "0xA11ce")] [])
  = JArr [JStr "1700000000123-k3j9x2a"] /\
  transactionStatus
    (uploadXrayImage 1700000000123 "k3j9x2a" 1700000000456 alice
       (ledger ["1700000000123-k3j9x2a"]
          [("1700000000123-k3j9x2a", fresh 1700000000 "0xA11ce")] [])).1
  = Success /\
  load_keys
    (uploadXrayImage 1700000000123 "k3j9x2a" 1700000000456 alice
       (ledger ["1700000000123-k3j9x2a"]
          [("1700000000123-k3j9x2a", fresh 1700000000 "0xA11ce")] [])).2
  = JArr [JStr "1700000000123-k3j9x2a"; JStr "1700000000123-k3j9x2a"].
Proof. repeat split; vm_compute; reflexivity. Qed.

Lemma decode_new_record key image now' owner :
  Z.of_N (now' / 1000) <= MAX_SAFE_INTEGER ->
  decode key (JSON_stringify (new_record image now' owner)) =
  Some (mkData key (Some (JStr image)) (Some (JStr "")) (Some (JStr ""))
          (Some (JNum (Z.of_N (now' / 1000)))) (Some (JStr owner))
          (JStr "processing")).
Proof.
  intros Hsafe.
  rewrite (decode_parsed key _ (new_record image now' owner));
    [done | | done].
  apply JSON_parse_stringify, wf_JObj. split; [|split].
  - apply (bool_decide_unpack _). by vm_compute.
  - by vm_compute.
  - simpl. rewrite !andb_true_r. apply andb_true_iff.
    pose proof (N2Z.is_nonneg (now' / 1000)) as Hpos.
    unfold MAX_SAFE_INTEGER in *. split; apply Z.leb_le; [|done].
    etrans; [|exact Hpos]. done.
Qed.






(** What that upload stores, and the listing after it. *)
Example upload_then_list :
  let out := uploadXrayImage 1700000000123 "k3j9x2a" 1700000000456 alice
               (ledger_one "processing" []) in
  journal out.2 =
    [(record_key "1700000000123-k3j9x2a",
      stored "FHE-eyJpbWFnZU5hbWUiOiJjcnlzdGFsLnBuZyIsImRlc2NyaXB0aW9uIjoibHlzb3p5bWUifQ=="
        "" "" 1700000000 "0xA11ce" "processing");
     ("analysis_keys",
      JSON_stringify (JArr [JStr "r1"; JStr "1700000000123-k3j9x2a"]))] /\
  (id <$> analysisData out.1) = [JStr "1700000000123-k3j9x2a"; JStr "r1"].
Proof. split; vm_compute; reflexivity. Qed.


(** The end-to-end example of the specification: an upload, then the
    processing of the new record. *)
Example upload_then_process :
  let up := uploadXrayImage 1700000000123 "k3j9x2a" 1700000000456 alice
              (ledger [] [] []) in
  let out := processWithFHE (JStr "1700000000123-k3j9x2a") up.1 up.2 in
  (status <$> analysisData up.1) = [JStr "processing"] /\
  (owner <$> analysisData up.1) = [Some (JStr "0xA11ce")] /\
  transactionStatus out.1 = Success /\
  (status <$> analysisData out.1) = [JStr "completed"] /\
  (densityMap <$> analysisData out.1) = [Some (JStr "FHE-ENCRYPTED-DENSITY-MAP")] /\
  (molecularStructure <$> analysisData out.1) = [Some (JStr "FHE-ENCRYPTED-STRUCTURE")].
Proof. repeat split; vm_compute; reflexivity. Qed.

(** * The contract *)

(** ** uintToString *)

Lemma string_of_uint_app d e :
  NilEmpty.string_of_uint (uint_app d e)
  = NilEmpty.string_of_uint d +:+ NilEmpty.string_of_uint e.
Proof. induction d; simpl; text; congruence. Qed.

Lemma uint_val_app d e acc : uint_val acc (uint_app d e) = uint_val (uint_val acc d) e.
Proof. revert acc. induction d; intros acc; simpl; auto. Qed.

(** The numeral of [10 * q + r] is the numeral of [q] followed by the
    digit [r]. *)
Lemma print_N_snoc q r :
  (0 < q)%N -> (r < 10)%N ->
  print_N (10 * q + r) = print_N q +:+ String (ascii_of_N (48 + r)) "".
Proof.
  intros Hq Hr.
  assert (exists e, forall acc, uint_val acc e = (10 * acc + r)%N /\
            NilEmpty.string_of_uint e = String (ascii_of_N (48 + r)) "") as (e & He).
  { assert (r = 0 \/ r = 1 \/ r = 2 \/ r = 3 \/ r = 4 \/ r = 5 \/ r = 6 \/ r = 7
            \/ r = 8 \/ r = 9)%N as Hc by lia.
    destruct Hc as [->|[->|[->|[->|[->|[->|[->|[->|[->| ->]]]]]]]]].
    - exists (Decimal.D0 Decimal.Nil). intros acc. split; simpl; [lia|done].
    - exists (Decimal.D1 Decimal.Nil). intros acc. split; simpl; [lia|done].
    - exists (Decimal.D2 Decimal.Nil). intros acc. split; simpl; [lia|done].
    - exists (Decimal.D3 Decimal.Nil). intros acc. split; simpl; [lia|done].
    - exists (Decimal.D4 Decimal.Nil). intros acc. split; simpl; [lia|done].
    - exists (Decimal.D5 Decimal.Nil). intros acc. split; simpl; [lia|done].
    - exists (Decimal.D6 Decimal.Nil). intros acc. split; simpl; [lia|done].
    - exists (Decimal.D7 Decimal.Nil). intros acc. split; simpl; [lia|done].
    - exists (Decimal.D8 Decimal.Nil). intros acc. split; simpl; [lia|done].
    - exists (Decimal.D9 Decimal.Nil). intros acc. split; simpl; [lia|done]. }
  set (d := uint_app (N.to_uint q) e).
  assert (Hval : N.of_uint d = (10 * q + r)%N).
  { change (N.of_uint d) with (Pos.of_uint d). rewrite <- uint_val_0.
    unfold d. rewrite uint_val_app, uint_val_to_uint. apply He. }
  assert (Hnorm : Decimal.unorm d = d).
  { unfold d. destruct (N.to_uint q) eqn:E; try reflexivity.
    - by apply to_uint_not_Nil in E.
    - apply to_uint_D0 in E as [-> _]. lia. }
  unfold print_N. rewrite <- Hval, DecimalN.Unsigned.to_of, Hnorm.
  unfold d. rewrite string_of_uint_app. f_equal. apply (He 0%N).
Qed.

Lemma print_N_digit r :
  (0 < r)%N -> (r < 10)%N -> print_N r = String (ascii_of_N (48 + r)) "".
Proof.
  intros H0 H10.
  assert (r = 1 \/ r = 2 \/ r = 3 \/ r = 4 \/ r = 5 \/ r = 6 \/ r = 7
          \/ r = 8 \/ r = 9)%N as Hc by lia.
  by destruct Hc as [->|[->|[->|[->|[->|[->|[->|[->| ->]]]]]]]].
Qed.

Lemma string_of_list_ascii_snoc l c :
  string_of_list_ascii (l ++ [c]) = string_of_list_ascii l +:+ String c "".
Proof. induction l as [|a l IH]; simpl; [done|]. by rewrite IH. Qed.

(** The digits the loop writes, read from the last one back, are the
    decimal numeral. *)
Lemma digits_le_print fuel v :
  (0 < v)%N -> (v < 2 ^ N.of_nat fuel)%N ->
  string_of_list_ascii (reverse (digits_le fuel v)) = print_N v.
Proof.
  revert v. induction fuel as [|fuel IH]; intros v Hv Hlt.
  { simpl in Hlt. lia. }
  simpl digits_le. destruct (N.eqb_spec v 0) as [->|_]; [lia|].
  rewrite reverse_cons, string_of_list_ascii_snoc.
  pose proof (N.div_mod v 10 ltac:(lia)) as Hdm.
  pose proof (N.mod_lt v 10 ltac:(lia)) as Hm.
  destruct (N.eqb_spec (v / 10) 0) as [Hq|Hq].
  - destruct fuel; simpl digits_le; rewrite Hq; simpl; symmetry;
      (rewrite Hdm at 1; rewrite Hq, N.mul_0_r, N.add_0_l;
       apply print_N_digit; lia).
  - rewrite IH.
    + rewrite Hdm at 3. symmetry. apply print_N_snoc; lia.
    + lia.
    + rewrite Nat2N.inj_succ, N.pow_succ_r' in Hlt.
      apply N.Div0.div_lt_upper_bound. lia.
Qed.

Lemma digits_le_length fuel v k :
  (v < 10 ^ N.of_nat k)%N -> (length (digits_le fuel v) <= k)%nat.
Proof.
  revert v k. induction fuel as [|fuel IH]; intros v k Hlt; simpl.
  { destruct (v =? 0)%N; simpl; lia. }
  destruct (N.eqb_spec v 0) as [->|Hv]; simpl; [lia|].
  destruct k as [|k]; [simpl in Hlt; lia|].
  apply le_n_S, IH. rewrite Nat2N.inj_succ, N.pow_succ_r' in Hlt.
  apply N.Div0.div_lt_upper_bound. lia.
Qed.

Lemma uintToString_digits_spec fuel v pre rest :
  (v < 2 ^ N.of_nat fuel)%N ->
  (length (digits_le fuel v) <= length rest)%nat ->
  exists rest',
    Contract.uintToString_digits fuel v (pre ++ rest) (length pre)
    = Some (pre ++ digits_le fuel v ++ rest',
            (length pre + length (digits_le fuel v))%nat).
Proof.
  revert v pre rest. induction fuel as [|fuel IH]; intros v pre rest Hlt Hlen.
  { assert (v = 0%N) as -> by (simpl in Hlt; lia). simpl.
    exists rest. by rewrite Nat.add_0_r. }
  simpl in *. destruct (N.eqb_spec v 0) as [->|Hv].
  { exists rest. by rewrite Nat.add_0_r. }
  simpl in Hlen. destruct rest as [|z rest]; [simpl in Hlen; lia|].
  rewrite decide_True by (rewrite List.length_app; simpl; lia).
  rewrite insert_app_r_alt by lia. rewrite Nat.sub_diag. simpl.
  destruct (IH (v / 10)%N (pre ++ [ascii_of_N (48 + v mod 10)]) rest) as [rest' Hr].
  - rewrite Nat2N.inj_succ, N.pow_succ_r' in Hlt.
    apply N.Div0.div_lt_upper_bound. lia.
  - simpl in Hlen. lia.
  - rewrite List.length_app in Hr. simpl in Hr.
    rewrite <- !(assoc_L (++)) in Hr. simpl in Hr.
    exists rest'. simpl.
    replace (S (length pre)) with (length pre + 1)%nat by lia.
    rewrite Hr. do 2 f_equal. lia.
Qed.

Lemma copy_reversed (ds rest : list ascii) :
  mapM (fun j => (ds ++ rest) !! (length ds - 1 - j)%nat) (seq 0 (length ds))
  = Some (reverse ds).
Proof.
  apply mapM_Some. apply Forall2_same_length_lookup_2.
  { by rewrite length_seq, length_reverse. }
  intros j x y Hx Hy. apply lookup_seq in Hx as [-> Hj]. simpl.
  apply reverse_lookup_Some in Hy as [Hy _].
  rewrite lookup_app_l by lia. rewrite <- Hy. f_equal. lia.
Qed.

Lemma MAX_UINT256_digits : (Contract.MAX_UINT256 < 10 ^ N.of_nat Contract.maxlength)%N.
Proof. by vm_compute. Qed.

Lemma uintToString_spec v :
  (v < 10 ^ N.of_nat Contract.maxlength)%N -> Contract.uintToString v = Some (print_N v).
Proof.
  intros Hmax. unfold Contract.uintToString.
  destruct (N.eqb_spec v 0) as [->|Hv]; [done|].
  pose proof (N.size_gt v) as Hsize.
  assert (Hlen : (length (digits_le (N.to_nat (N.size v)) v) <= Contract.maxlength)%nat)
    by by apply digits_le_length.
  destruct (uintToString_digits_spec (N.to_nat (N.size v)) v []
              (replicate Contract.maxlength zero)) as [rest' Hr].
  - by rewrite N2Nat.id.
  - by rewrite length_replicate.
  - cbn [app length Nat.add] in Hr. rewrite Hr. cbn [mbind option_bind].
    rewrite copy_reversed. cbn [mbind option_bind].
    f_equal. apply digits_le_print; [lia|]. by rewrite N2Nat.id.
Qed.

Lemma digits_le_long fuel v k :
  (v < 2 ^ N.of_nat fuel)%N -> (10 ^ N.of_nat k <= v)%N ->
  (k < length (digits_le fuel v))%nat.
Proof.
  revert fuel v. induction k as [|k IH]; intros fuel v Hlt Hge.
  - destruct fuel as [|fuel]; simpl in *; [lia|].
    destruct (N.eqb_spec v 0); [lia|]. simpl. lia.
  - rewrite Nat2N.inj_succ, N.pow_succ_r' in Hge.
    assert (0 < 10 ^ N.of_nat k)%N by (apply N.neq_0_lt_0, N.pow_nonzero; lia).
    destruct fuel as [|fuel]; [simpl in Hlt; lia|].
    simpl. destruct (N.eqb_spec v 0); [lia|]. simpl. apply -> Nat.succ_lt_mono.
    apply IH.
    + rewrite Nat2N.inj_succ, N.pow_succ_r' in Hlt.
      apply N.Div0.div_lt_upper_bound. lia.
    + apply N.div_le_lower_bound; lia.
Qed.

Lemma uintToString_digits_overrun fuel v pre rest :
  (v < 2 ^ N.of_nat fuel)%N ->
  (length rest < length (digits_le fuel v))%nat ->
  Contract.uintToString_digits fuel v (pre ++ rest) (length pre) = None.
Proof.
  revert v pre rest. induction fuel as [|fuel IH]; intros v pre rest Hlt Hlen.
  { assert (v = 0%N) as -> by (simpl in Hlt; lia). simpl in Hlen. lia. }
  simpl in *. destruct (N.eqb_spec v 0) as [->|Hv]; [simpl in Hlen; lia|].
  simpl in Hlen. destruct rest as [|z rest].
  { rewrite decide_False; [done|]. rewrite List.length_app. simpl. lia. }
  rewrite decide_True by (rewrite List.length_app; simpl; lia).
  rewrite insert_app_r_alt by lia. rewrite Nat.sub_diag. simpl.
  replace (S (length pre)) with (length (pre ++ [ascii_of_N (48 + v mod 10)]))
    by (rewrite List.length_app; simpl; lia).
  replace (pre ++ ascii_of_N (48 + v mod 10) :: rest)
    with ((pre ++ [ascii_of_N (48 + v mod 10)]) ++ rest)
    by by rewrite <- (assoc_L (++)).
  apply IH.
  - rewrite Nat2N.inj_succ, N.pow_succ_r' in Hlt.
    apply N.Div0.div_lt_upper_bound. lia.
  - simpl in Hlen. lia.
Qed.

(** uintToString returns the decimal numeral of its argument (the text
    that a template literal of the front end gives for the same number)
    for every value below 10^100, which covers every [uint256]; from
    10^100 on the loop would run over its buffer of 100 bytes, and the
    function panics. *)
Theorem uintToString_decimal v :
  Contract.uintToString v
  = (if (v <? 10 ^ 100)%N then Some (print_N v) else None) /\
  (Contract.MAX_UINT256 < 10 ^ 100)%N.
Proof.
  split; [|exact MAX_UINT256_digits].
  destruct (N.ltb_spec v (10 ^ 100)) as [Hlt|Hge]; [by apply uintToString_spec|].
  unfold Contract.uintToString.
  assert (0 < 10 ^ 100)%N by done.
  destruct (N.eqb_spec v 0) as [->|Hv]; [lia|].
  rewrite (uintToString_digits_overrun _ v [] (replicate Contract.maxlength zero));
    [done | rewrite N2Nat.id; apply N.size_gt |].
  rewrite length_replicate. apply digits_le_long; [|done].
  rewrite N2Nat.id. apply N.size_gt.
Qed.

(** ** generateStructureRepresentation *)

Lemma structure_lines_spec values i rep :
  Forall (fun v => (v <= Contract.MAX_UINT256)%N) values ->
  (i + N.of_nat (length values) <= Contract.MAX_UINT256)%N ->
  Contract.structure_lines values i rep = Some (rep +:+ atom_lines i values).
Proof.
  revert i rep. induction values as [|v r IH]; intros i rep Hv Hlen; simpl.
  { by rewrite app_empty_r. }
  apply Forall_cons in Hv as [Hv Hr]. simpl in Hlen.
  destruct (N.leb_spec (i + 1) Contract.MAX_UINT256) as [Hi|Hi]; [|lia].
  rewrite !uintToString_spec by (pose proof MAX_UINT256_digits; lia). simpl.
  rewrite IH; [|done|lia]. f_equal. by text.
Qed.

Lemma string_app_inv_head (p s t : string) : p +:+ s = p +:+ t -> s = t.
Proof. induction p as [|c p IH]; [done|]. rewrite !app_cons. intros [= H]. auto. Qed.

Lemma atom_lines_inj i values values' :
  atom_lines i values = atom_lines i values' -> values = values'.
Proof.
  revert i values'. induction values as [|v r IH]; intros i [|v' r']; simpl; try done.
  intros H. apply (string_app_inv_head "Atom ") in H.
  apply string_app_inv_head in H.
  apply (string_app_inv_head ": Density=") in H.
  assert (Hread : forall x rest,
            parse_int (print_N x +:+ Contract.newline +:+ rest)
            = Some (x, Contract.newline +:+ rest)).
  { intros x rest. by apply parse_int_print. }
  pose proof (Hread v (atom_lines (i + 1) r)) as H1.
  rewrite H, Hread in H1. injection H1 as -> H1.
  rewrite !app_empty in H1. f_equal. by apply (IH (i + 1)%N).
Qed.

Lemma generateStructureRepresentation_spec values :
  Forall (fun v => (v <= Contract.MAX_UINT32)%N) values ->
  (N.of_nat (length values) <= Contract.MAX_UINT256)%N ->
  Contract.generateStructureRepresentation values
  = Some ("Molecular Structure:" +:+ Contract.newline +:+ atom_lines 0 values).
Proof.
  intros Hvs Hlen. unfold Contract.generateStructureRepresentation.
  rewrite structure_lines_spec; [by text | | lia].
  eapply Forall_impl; [exact Hvs|]. intros v Hv. simpl in Hv.
  etrans; [exact Hv|]. by vm_compute.
Qed.

(** generateStructureRepresentation, on the [uint32] values of a
    decrypted density map, returns the header line followed by one line
    "Atom i: Density=v" for each value, numbered from 1; and the text
    determines the values: no two arrays have the same representation. *)
Theorem generateStructureRepresentation_lines values :
  Forall (fun v => (v <= Contract.MAX_UINT32)%N) values ->
  (N.of_nat (length values) <= Contract.MAX_UINT256)%N ->
  Contract.generateStructureRepresentation values
  = Some ("Molecular Structure:" +:+ Contract.newline +:+ atom_lines 0 values) /\
  (forall values',
     Forall (fun v => (v <= Contract.MAX_UINT32)%N) values' ->
     (N.of_nat (length values') <= Contract.MAX_UINT256)%N ->
     Contract.generateStructureRepresentation values'
     = Contract.generateStructureRepresentation values ->
     values' = values).
Proof.
  intros Hv Hlen. split; [by apply generateStructureRepresentation_spec|].
  intros values' Hv' Hlen'. rewrite !generateStructureRepresentation_spec by done.
  intros [= H]. rewrite !app_empty in H. by apply atom_lines_inj in H.
Qed.

Lemma generateStructureRepresentation_lines_witness :
  Contract.generateStructureRepresentation [0; 100; 4294967295]%N
  = Some ("Molecular Structure:" +:+ Contract.newline
          +:+ atom_lines 0 [0; 100; 4294967295]%N) /\
  (forall values',
     Forall (fun v => (v <= Contract.MAX_UINT32)%N) values' ->
     (N.of_nat (length values') <= Contract.MAX_UINT256)%N ->
     Contract.generateStructureRepresentation values'
     = Contract.generateStructureRepresentation [0; 100; 4294967295]%N ->
     values' = [0; 100; 4294967295]%N).
Proof.
  apply (generateStructureRepresentation_lines [0; 100; 4294967295]%N).
  - repeat constructor; by vm_compute.
  - by vm_compute.
Defined.

(** ** The storage of the contract *)

Ltac contract_reads :=
  unfold Contract.image, Contract.density, Contract.structure, Contract.request in *;
  cbn [Contract.imageCount Contract.diffractionImages Contract.densityMaps
       Contract.molecularStructures Contract.requestToImageId Contract.events
       Contract.requests] in *.

Lemma contract_inv_deployed : contract_inv Contract.deployed.
Proof.
  unfold contract_inv, Contract.deployed. contract_reads.
  repeat split; try done.
  intros req cts H. by apply elem_of_nil in H.
Qed.

Lemma computed_exists s id :
  contract_inv s -> Contract.isComputed (Contract.density s id) = true ->
  (1 <= id <= Contract.imageCount s)%N.
Proof.
  intros (I1 & _ & I3 & _) Hc. apply I3 in Hc as [Hr _].
  destruct (decide (id = 0 \/ Contract.imageCount s < id)%N) as [Hid|Hid]; [|lia].
  apply I1 in Hid as (Hi & _). unfold Contract.image in Hr. by rewrite Hi in Hr.
Qed.

Lemma uploadDiffractionImage_Ok sender now encryptedData s s' :
  Contract.uploadDiffractionImage sender now encryptedData s = Contract.Ok s' ->
  (Contract.imageCount s < Contract.MAX_UINT256)%N /\
  s' = Contract.mkState (Contract.imageCount s + 1)
         (<[(Contract.imageCount s + 1)%N := Contract.mkImage sender encryptedData now]>
            (Contract.diffractionImages s))
         (<[(Contract.imageCount s + 1)%N := Contract.mkMap [] false]>
            (Contract.densityMaps s))
         (<[(Contract.imageCount s + 1)%N := Contract.mkStructure "" false]>
            (Contract.molecularStructures s))
         (Contract.requestToImageId s)
         (Contract.events s
          ++ [Contract.ImageUploaded (Contract.imageCount s + 1) sender])
         (Contract.requests s).
Proof.
  unfold Contract.uploadDiffractionImage.
  destruct (N.ltb_spec (Contract.imageCount s) Contract.MAX_UINT256); [|done].
  by intros [= <-].
Qed.

Lemma computeDensityMap_Ok imageId s s' :
  Contract.computeDensityMap imageId s = Contract.Ok s' ->
  Contract.researcher (Contract.image s imageId) <> 0%N /\
  Contract.isComputed (Contract.density s imageId) = false /\
  s' = Contract.mkState (Contract.imageCount s) (Contract.diffractionImages s)
         (<[imageId := Contract.mkMap Contract.dummyMap true]> (Contract.densityMaps s))
         (Contract.molecularStructures s) (Contract.requestToImageId s)
         (Contract.events s ++ [Contract.DensityMapComputed imageId])
         (Contract.requests s).
Proof.
  unfold Contract.computeDensityMap.
  destruct (N.eqb_spec (Contract.researcher (Contract.image s imageId)) 0); [done|].
  destruct (Contract.isComputed (Contract.density s imageId)); [done|].
  by intros [= <-].
Qed.

Lemma requestStructureDecryption_Ok sender imageId reqId s s' :
  Contract.requestStructureDecryption sender imageId reqId s = Contract.Ok s' ->
  Contract.researcher (Contract.image s imageId) = sender /\
  Contract.isComputed (Contract.density s imageId) = true /\
  Contract.isRevealed (Contract.structure s imageId) = false /\
  s' = Contract.mkState (Contract.imageCount s) (Contract.diffractionImages s)
         (Contract.densityMaps s) (Contract.molecularStructures s)
         (<[reqId := imageId]> (Contract.requestToImageId s))
         (Contract.events s ++ [Contract.DecryptionRequested imageId])
         (Contract.requests s
          ++ [(reqId, Contract.toBytes32
                      <$> Contract.encryptedMap (Contract.density s imageId))]).
Proof.
  unfold Contract.requestStructureDecryption.
  destruct (N.eqb_spec (Contract.researcher (Contract.image s imageId)) sender);
    [|done]. simpl.
  destruct (Contract.isComputed (Contract.density s imageId)); [|done]. simpl.
  destruct (Contract.isRevealed (Contract.structure s imageId)); [done|].
  by intros [= <-].
Qed.

Lemma decryptStructureCallback_Ok requestId signed values s s' :
  Contract.decryptStructureCallback requestId signed values s = Contract.Ok s' ->
  exists vs text,
    Contract.request s requestId <> 0%N /\
    Contract.isRevealed (Contract.structure s (Contract.request s requestId)) = false /\
    signed = true /\ values = Some vs /\
    Contract.generateStructureRepresentation vs = Some text /\
    s' = Contract.mkState (Contract.imageCount s) (Contract.diffractionImages s)
           (Contract.densityMaps s)
           (<[Contract.request s requestId := Contract.mkStructure text true]>
              (Contract.molecularStructures s))
           (Contract.requestToImageId s)
           (Contract.events s
            ++ [Contract.StructureDecrypted (Contract.request s requestId)])
           (Contract.requests s).
Proof.
  unfold Contract.decryptStructureCallback.
  destruct (N.eqb_spec (Contract.request s requestId) 0); [done|].
  destruct (Contract.isRevealed (Contract.structure s (Contract.request s requestId)));
    [done|].
  destruct signed; [|done]. simpl.
  destruct values as [vs|]; [|done]. simpl.
  destruct (Contract.generateStructureRepresentation vs) as [text|] eqn:Ht; [|done].
  intros [= <-]. by exists vs, text.
Qed.

Lemma request_lookup s req :
  Contract.request s req <> 0%N ->
  Contract.requestToImageId s !! req = Some (Contract.request s req).
Proof. unfold Contract.request. by destruct (Contract.requestToImageId s !! req). Qed.

Lemma dummyMap_toBytes32 : Contract.toBytes32 <$> Contract.dummyMap = Contract.dummyMap.
Proof. reflexivity. Qed.

Lemma contract_inv_exec c s s' :
  contract_inv s -> Contract.exec c s = Contract.Ok s' -> contract_inv s'.
Proof.
  intros Hinv Hc. pose proof Hinv as (I1 & I2 & I3 & I4 & I5).
  destruct c as [sender now data | imageId | sender imageId reqId
                | requestId signed values]; simpl in Hc.
  - apply uploadDiffractionImage_Ok in Hc as [Hmax ->].
    assert (Hnew : forall id, Contract.isComputed (Contract.density s id) = true ->
                     (Contract.imageCount s + 1)%N <> id).
    { intros id Hid%(computed_exists _ _ Hinv). lia. }
    unfold contract_inv. contract_reads. split_and!.
    + intros id Hid. rewrite !lookup_insert_ne by lia. apply I1. lia.
    + intros req id Hreq. specialize (I2 _ _ Hreq).
      rewrite lookup_insert_ne by by apply Hnew. done.
    + intros id. rewrite !lookup_insert. case_decide; [done|]. apply I3.
    + intros id. rewrite !lookup_insert. case_decide; [done|]. apply I4.
    + done.
  - apply computeDensityMap_Ok in Hc as (Hr & Hnot & ->).
    assert (Hid : ~ (imageId = 0 \/ Contract.imageCount s < imageId)%N).
    { intros (Hi & _)%I1. unfold Contract.image in Hr. by rewrite Hi in Hr. }
    unfold contract_inv. contract_reads. split_and!.
    + intros id Hid'. rewrite lookup_insert_ne by (intros ->; done). by apply I1.
    + intros req id Hreq. rewrite lookup_insert. case_decide; [done|]. eauto.
    + intros id. rewrite lookup_insert. case_decide; [by subst|]. apply I3.
    + intros id Hrev. rewrite lookup_insert. case_decide; [done|]. eauto.
    + done.
  - apply requestStructureDecryption_Ok in Hc as (Hr & Hcomp & Hnot & ->).
    unfold contract_inv. contract_reads. split_and!; try done.
    + intros req id. rewrite lookup_insert. case_decide; [|by eauto].
      by intros [= <-].
    + intros req cts [Hin|Hin%list_elem_of_singleton]%elem_of_app; [by eauto|].
      injection Hin as -> ->. apply I3 in Hcomp as [_ ->]. apply dummyMap_toBytes32.
  - apply decryptStructureCallback_Ok in Hc
      as (vs & text & Hreq & Hnot & -> & -> & Htext & ->).
    apply request_lookup in Hreq. apply I2 in Hreq.
    unfold contract_inv. contract_reads. split_and!; try done.
    + intros id Hid. rewrite lookup_insert_ne; [by apply I1|].
      intros <-. apply (computed_exists _ _ Hinv) in Hreq.
      unfold Contract.request in Hreq. lia.
    + intros id. rewrite lookup_insert. case_decide; [by subst|]. apply I4.
Qed.

Lemma run_snoc cs c s : Contract.run (cs ++ [c]) s = Contract.step (Contract.run cs s) c.
Proof. unfold Contract.run. by rewrite foldl_snoc. Qed.

Lemma run_app cs cs' s : Contract.run (cs ++ cs') s = Contract.run cs' (Contract.run cs s).
Proof. unfold Contract.run. by rewrite foldl_app. Qed.

Lemma contract_inv_step s c : contract_inv s -> contract_inv (Contract.step s c).
Proof.
  intros Hinv. unfold Contract.step.
  destruct (Contract.exec c s) eqn:Hc; [|done..]. by eapply contract_inv_exec.
Qed.

Lemma contract_inv_run cs s : contract_inv s -> contract_inv (Contract.run cs s).
Proof.
  revert s. induction cs as [|c cs IH]; intros s Hinv; [done|].
  apply IH. by apply contract_inv_step.
Qed.

(** The workflow of an image runs in order: in every state the contract
    can reach, a structure is revealed only where the density map is
    computed, and a density map is computed only for an image that was
    uploaded (its id between 1 and [imageCount], its researcher set). *)
Theorem structure_revealed_after_density_map cs imageId :
  Contract.isRevealed (Contract.structure (Contract.run cs Contract.deployed) imageId)
  = true ->
  Contract.isComputed (Contract.density (Contract.run cs Contract.deployed) imageId)
  = true /\
  Contract.researcher (Contract.image (Contract.run cs Contract.deployed) imageId)
  <> 0%N /\
  (1 <= imageId <= Contract.imageCount (Contract.run cs Contract.deployed))%N.
Proof.
  intros Hrev.
  pose proof (contract_inv_run cs _ contract_inv_deployed) as Hinv.
  pose proof Hinv as (_ & _ & I3 & I4 & _).
  apply I4 in Hrev as Hcomp. split; [done|]. split.
  - by apply I3 in Hcomp as [Hr _].
  - by apply computed_exists.
Qed.

Lemma structure_revealed_after_density_map_witness :
  Contract.isComputed (Contract.density (Contract.run contract_history Contract.deployed) 1)
  = true /\
  Contract.researcher (Contract.image (Contract.run contract_history Contract.deployed) 1)
  <> 0%N /\
  (1 <= 1 <= Contract.imageCount (Contract.run contract_history Contract.deployed))%N.
Proof.
  apply (structure_revealed_after_density_map contract_history 1).
  vm_compute. reflexivity.
Defined.

(** What the contract computes and sends out never depends on what was
    uploaded: in every reachable state a density map that can be read is
    the dummy map (the encryptions of 0, 100, ..., 900), and every
    request handed to [FHE.requestDecryption] carries that map. *)
Theorem density_map_is_the_dummy_map cs :
  (forall imageId m,
     Contract.getEncryptedDensityMap imageId (Contract.run cs Contract.deployed)
     = Contract.Ok m ->
     m = (fun i => Contract.asEuint32 (N.of_nat i * 100)) <$> seq 0 10) /\
  (forall reqId ciphertexts,
     (reqId, ciphertexts) ∈ Contract.requests (Contract.run cs Contract.deployed) ->
     ciphertexts = (fun i => Contract.asEuint32 (N.of_nat i * 100)) <$> seq 0 10).
Proof.
  pose proof (contract_inv_run cs _ contract_inv_deployed) as (_ & _ & I3 & _ & I5).
  split.
  - intros imageId m. unfold Contract.getEncryptedDensityMap.
    destruct (Contract.isComputed _) eqn:Hc; [|done].
    intros [= <-]. by apply I3 in Hc as [_ ->].
  - intros reqId cts Hin. by apply I5 in Hin.
Qed.

(** ** What is settled stays settled *)

Lemma contract_extends_refl s : contract_extends s s.
Proof. by repeat split. Qed.

Lemma contract_extends_trans s1 s2 s3 :
  contract_extends s1 s2 -> contract_extends s2 s3 -> contract_extends s1 s3.
Proof.
  intros (Hc & Hi & Hd & Hs) (Hc' & Hi' & Hd' & Hs'). split_and!.
  - lia.
  - intros id Hid. rewrite Hi' by lia. by apply Hi.
  - intros id Hid. rewrite Hd'; [by apply Hd|]. by rewrite Hd.
  - intros id Hid. rewrite Hs'; [by apply Hs|]. by rewrite Hs.
Qed.

Lemma contract_extends_exec c s s' :
  contract_inv s -> Contract.exec c s = Contract.Ok s' -> contract_extends s s'.
Proof.
  intros Hinv Hc. pose proof Hinv as (I1 & I2 & I3 & I4 & I5).
  destruct c as [sender now data | imageId | sender imageId reqId
                | requestId signed values]; simpl in Hc.
  - apply uploadDiffractionImage_Ok in Hc as [Hmax ->].
    unfold contract_extends. contract_reads. split_and!.
    + lia.
    + intros id Hid. by rewrite lookup_insert_ne by lia.
    + intros id Hid%(computed_exists _ _ Hinv). by rewrite lookup_insert_ne by lia.
    + intros id Hid%I4%(computed_exists _ _ Hinv). by rewrite lookup_insert_ne by lia.
  - apply computeDensityMap_Ok in Hc as (Hr & Hnot & ->).
    unfold contract_extends. contract_reads. split_and!; try done.
    intros id Hid. rewrite lookup_insert_ne; [done|]. intros ->. congruence.
  - apply requestStructureDecryption_Ok in Hc as (Hr & Hcomp & Hnot & ->).
    by unfold contract_extends.
  - apply decryptStructureCallback_Ok in Hc
      as (vs & text & Hreq & Hnot & -> & -> & Htext & ->).
    unfold contract_extends. contract_reads. split_and!; try done.
    intros id Hid. rewrite lookup_insert_ne; [done|]. intros <-. congruence.
Qed.

Lemma contract_extends_run cs s :
  contract_inv s -> contract_extends s (Contract.run cs s).
Proof.
  revert s. induction cs as [|c cs IH]; intros s Hinv; [apply contract_extends_refl|].
  simpl. eapply contract_extends_trans; [|apply IH, contract_inv_step, Hinv].
  unfold Contract.step. destruct (Contract.exec c s) eqn:Hc;
    [by eapply contract_extends_exec | apply contract_extends_refl ..].
Qed.

(** Nothing settled is ever overwritten: whatever calls follow a
    reachable state, [imageCount] does not decrease, an uploaded image
    keeps its researcher, data and timestamp, a computed density map stays
    computed and unchanged, and a revealed structure stays revealed with
    the same text. *)
Theorem settled_storage_is_kept cs cs' :
  let s := Contract.run cs Contract.deployed in
  let s' := Contract.run (cs ++ cs') Contract.deployed in
  (Contract.imageCount s <= Contract.imageCount s')%N /\
  (forall imageId, (1 <= imageId <= Contract.imageCount s)%N ->
     Contract.image s' imageId = Contract.image s imageId) /\
  (forall imageId, Contract.isComputed (Contract.density s imageId) = true ->
     Contract.density s' imageId = Contract.density s imageId) /\
  (forall imageId, Contract.isRevealed (Contract.structure s imageId) = true ->
     Contract.structure s' imageId = Contract.structure s imageId).
Proof.
  intros s s'. unfold s'. rewrite run_app. fold s.
  apply contract_extends_run. apply contract_inv_run, contract_inv_deployed.
Qed.

(** ** Where a revealed structure comes from *)

Lemma contract_hist_mono cs c s : contract_hist cs s -> contract_hist (cs ++ [c]) s.
Proof.
  intros [H1 H2]. split.
  - intros req id Hreq. apply elem_of_app. left. by apply H1.
  - intros id Hrev. destruct (H2 id Hrev) as (req & vs & Hr & Hc & Ht).
    exists req, vs. split_and!; [apply elem_of_app; by left .. | done].
Qed.

Lemma contract_hist_exec cs c s s' :
  contract_inv s -> contract_hist cs s -> Contract.exec c s = Contract.Ok s' ->
  contract_hist (cs ++ [c]) s'.
Proof.
  intros Hinv Hhist Hc.
  pose proof (contract_extends_exec c s s' Hinv Hc) as (_ & Himg & _ & Hstr).
  pose proof Hinv as (I1 & I2 & I3 & I4 & I5).
  apply (contract_hist_mono cs c) in Hhist as [H1 H2].
  assert (Hsame : forall id, Contract.isComputed (Contract.density s id) = true ->
                    Contract.image s' id = Contract.image s id).
  { intros id Hid%(computed_exists _ _ Hinv). by apply Himg. }
  destruct c as [sender now data | imageId | sender imageId reqId
                | requestId signed values]; simpl in Hc.
  - apply uploadDiffractionImage_Ok in Hc as [Hmax ->]. split.
    + intros req id Hreq. cbn [Contract.requestToImageId] in Hreq.
      rewrite Hsame by eauto. by apply H1.
    + intros id Hrev.
      assert (Hold : Contract.isRevealed (Contract.structure s id) = true).
      { revert Hrev. contract_reads. rewrite lookup_insert. by case_decide. }
      rewrite Hstr, Hsame by eauto. by apply H2.
  - apply computeDensityMap_Ok in Hc as (Hr & Hnot & ->). split.
    + intros req id Hreq. by apply H1.
    + intros id Hrev. by apply H2.
  - apply requestStructureDecryption_Ok in Hc as (Hr & Hcomp & Hnot & ->). split.
    + intros req id. cbn [Contract.requestToImageId]. rewrite lookup_insert.
      case_decide as Hd; [|by apply H1].
      intros [= <-]. subst reqId. apply elem_of_app. right.
      apply list_elem_of_singleton. by rewrite <- Hr.
    + intros id Hrev. by apply H2.
  - apply decryptStructureCallback_Ok in Hc
      as (vs & text & Hreq & Hnot & -> & -> & Htext & ->).
    apply request_lookup in Hreq. split.
    + intros req id Hr. by apply H1.
    + intros id. contract_reads. rewrite lookup_insert.
      case_decide as Hd; [|by apply H2].
      intros _. exists requestId, vs. split_and!.
      * subst id. by apply H1.
      * apply elem_of_app. right. by apply list_elem_of_singleton.
      * done.
Qed.

Lemma contract_hist_run cs :
  contract_hist cs (Contract.run cs Contract.deployed).
Proof.
  induction cs as [|c cs IH] using rev_ind.
  { split; [done|]. intros id. by contract_reads. }
  rewrite run_snoc. unfold Contract.step.
  destruct (Contract.exec c _) eqn:Hc; [|by apply contract_hist_mono ..].
  eapply contract_hist_exec; [|done..]. apply contract_inv_run, contract_inv_deployed.
Qed.

(** A structure that [getMolecularStructure] returns has gone through
    the whole workflow: the history holds a decryption request for the
    image made by its researcher (no one else passes the owner check), and
    a callback for that request whose signatures were accepted; the text
    is [generateStructureRepresentation] of the values the callback
    delivered. *)
Theorem structure_comes_from_owner_request cs imageId text :
  Contract.getMolecularStructure imageId (Contract.run cs Contract.deployed)
  = Contract.Ok text ->
  exists reqId values,
    Contract.RequestStructureDecryption
      (Contract.researcher (Contract.image (Contract.run cs Contract.deployed) imageId))
      imageId reqId ∈ cs /\
    Contract.DecryptStructureCallback reqId true (Some values) ∈ cs /\
    Contract.generateStructureRepresentation values = Some text.
Proof.
  unfold Contract.getMolecularStructure.
  destruct (Contract.isRevealed _) eqn:Hrev; [|done]. intros [= <-].
  destruct (contract_hist_run cs) as [_ H2]. by apply H2.
Qed.

Lemma structure_comes_from_owner_request_witness :
  exists reqId values,
    Contract.RequestStructureDecryption
      (Contract.researcher
         (Contract.image (Contract.run contract_history Contract.deployed) 1))
      1 reqId ∈ contract_history /\
    Contract.DecryptStructureCallback reqId true (Some values) ∈ contract_history /\
    Contract.generateStructureRepresentation values
    = Some ("Molecular Structure:" +:+ Contract.newline
            +:+ atom_lines 0 [0; 100; 200]%N).
Proof.
  apply (structure_comes_from_owner_request contract_history 1).
  vm_compute. reflexivity.
Defined.

(** ** The events *)

Lemma contract_events_exec c s s' :
  contract_inv s -> contract_events s -> Contract.exec c s = Contract.Ok s' ->
  contract_events s'.
Proof.
  intros Hinv (E1 & E2 & E3 & E4 & E5) Hc.
  pose proof Hinv as (I1 & I2 & I3 & I4 & I5).
  pose proof (fun id H => computed_exists s id Hinv H) as Hex.
  destruct c as [sender now data | imageId | sender imageId reqId
                | requestId signed values]; simpl in Hc.
  - apply uploadDiffractionImage_Ok in Hc as [Hmax ->].
    unfold contract_events. contract_reads. split_and!.
    + intros id a. rewrite elem_of_app, list_elem_of_singleton, E1, lookup_insert.
      case_decide as Hd; simpl; [subst id; split; [|intuition congruence] | split].
      * intros [[? _]|[= ->]]; [lia|]. split; [lia|done].
      * intros [[? ?]|[= ? ?]]; [|done]. split; [lia|done].
      * intros [? ?]. left. split; [lia|done].
    + intros id. rewrite elem_of_app, list_elem_of_singleton, E2, lookup_insert.
      case_decide as Hd; simpl; [subst id; split; [|done] | intuition congruence].
      intros [Hcomp%Hex|[=]]. lia.
    + intros id. rewrite elem_of_app, list_elem_of_singleton, E3, lookup_insert.
      case_decide as Hd; simpl; [subst id; split; [|done] | intuition congruence].
      intros [Hcomp%I4%Hex|[=]]. lia.
    + intros id [Hin%E4|[=]%list_elem_of_singleton]%elem_of_app.
      rewrite lookup_insert_ne; [done|]. apply Hex in Hin. lia.
    + intros id [Hin%E5|[=]%list_elem_of_singleton]%elem_of_app. done.
  - apply computeDensityMap_Ok in Hc as (Hr & Hnot & ->).
    unfold contract_events. contract_reads. split_and!.
    + intros id a. rewrite elem_of_app, list_elem_of_singleton, E1. intuition congruence.
    + intros id. rewrite elem_of_app, list_elem_of_singleton, E2, lookup_insert.
      case_decide as Hd; simpl; intuition congruence.
    + intros id. rewrite elem_of_app, list_elem_of_singleton, E3. intuition congruence.
    + intros id [Hin%E4|[=]%list_elem_of_singleton]%elem_of_app.
      rewrite lookup_insert. by case_decide.
    + intros id [Hin%E5|[=]%list_elem_of_singleton]%elem_of_app. done.
  - apply requestStructureDecryption_Ok in Hc as (Hr & Hcomp & Hnot & ->).
    unfold contract_events. contract_reads. split_and!.
    + intros id a. rewrite elem_of_app, list_elem_of_singleton, E1. intuition congruence.
    + intros id. rewrite elem_of_app, list_elem_of_singleton, E2. intuition congruence.
    + intros id. rewrite elem_of_app, list_elem_of_singleton, E3. intuition congruence.
    + intros id [Hin%E4|[= ->]%list_elem_of_singleton]%elem_of_app; done.
    + intros id [Hin%E5|[=]%list_elem_of_singleton]%elem_of_app. done.
  - apply decryptStructureCallback_Ok in Hc
      as (vs & text & Hreq & Hnot & -> & -> & Htext & ->).
    unfold contract_events. contract_reads. split_and!.
    + intros id a. rewrite elem_of_app, list_elem_of_singleton, E1. intuition congruence.
    + intros id. rewrite elem_of_app, list_elem_of_singleton, E2. intuition congruence.
    + intros id. rewrite elem_of_app, list_elem_of_singleton, E3, lookup_insert.
      case_decide as Hd; simpl; intuition congruence.
    + intros id [Hin%E4|[=]%list_elem_of_singleton]%elem_of_app. done.
    + intros id [Hin%E5|[=]%list_elem_of_singleton]%elem_of_app. done.
Qed.

(** The events tell the state: after every history, [ImageUploaded(id,
    a)] is in the log exactly for the ids 1 to [imageCount], with [a] the
    researcher stored for the image; [DensityMapComputed(id)] exactly where
    the density map is computed; [StructureDecrypted(id)] exactly where
    the structure is revealed; [DecryptionRequested(id)] only where the
    density map is computed; and [ComputationStarted], which the contract
    declares, is never emitted. *)
Theorem events_agree_with_storage cs :
  let s := Contract.run cs Contract.deployed in
  (forall id a, Contract.ImageUploaded id a ∈ Contract.events s <->
     (1 <= id <= Contract.imageCount s)%N /\
     Contract.researcher (Contract.image s id) = a) /\
  (forall id, Contract.DensityMapComputed id ∈ Contract.events s <->
     Contract.isComputed (Contract.density s id) = true) /\
  (forall id, Contract.StructureDecrypted id ∈ Contract.events s <->
     Contract.isRevealed (Contract.structure s id) = true) /\
  (forall id, Contract.DecryptionRequested id ∈ Contract.events s ->
     Contract.isComputed (Contract.density s id) = true) /\
  (forall id, Contract.ComputationStarted id ∉ Contract.events s).
Proof.
  simpl. change (contract_events (Contract.run cs Contract.deployed)).
  induction cs as [|c cs IH] using rev_ind.
  { change (Contract.run [] Contract.deployed) with Contract.deployed.
    unfold contract_events, Contract.deployed. contract_reads. split_and!.
    - intros id a. split; [by intros ?%elem_of_nil | lia].
    - intros id. split; [by intros ?%elem_of_nil | done].
    - intros id. split; [by intros ?%elem_of_nil | done].
    - intros id. by intros ?%elem_of_nil.
    - intros id. by intros ?%elem_of_nil. }
  rewrite run_snoc. unfold Contract.step.
  destruct (Contract.exec c _) eqn:Hc; [|done..].
  eapply contract_events_exec; [|done..]. apply contract_inv_run, contract_inv_deployed.
Qed.

(** ** Reverts *)

(** An id that no upload has given out (0, or one above [imageCount])
    is refused everywhere, in every reachable state: computeDensityMap
    reverts with "Image not found", requestStructureDecryption with "Not
    owner" (for the zero address, which equals the researcher of an unset
    image, with "Density map not computed"), and the two views with "Not
    computed" and "Not decrypted". *)
Theorem unknown_image_is_refused cs imageId :
  let s := Contract.run cs Contract.deployed in
  (imageId = 0 \/ Contract.imageCount s < imageId)%N ->
  Contract.computeDensityMap imageId s = Contract.Revert "Image not found" /\
  (forall sender reqId,
     Contract.requestStructureDecryption sender imageId reqId s
     = if (sender =? 0)%N then Contract.Revert "Density map not computed"
       else Contract.Revert "Not owner") /\
  Contract.getEncryptedDensityMap imageId s = Contract.Revert "Not computed" /\
  Contract.getMolecularStructure imageId s = Contract.Revert "Not decrypted".
Proof.
  intros s Hid.
  pose proof (contract_inv_run cs _ contract_inv_deployed) as (I1 & _).
  fold s in I1. apply I1 in Hid as (Hi & Hd & Hs).
  unfold Contract.computeDensityMap, Contract.requestStructureDecryption,
    Contract.getEncryptedDensityMap, Contract.getMolecularStructure,
    Contract.image, Contract.density, Contract.structure.
  rewrite Hi, Hd, Hs. simpl. split_and!; try done.
  intros sender reqId. by destruct sender.
Qed.

Lemma unknown_image_is_refused_witness :
  let s := Contract.run contract_history Contract.deployed in
  Contract.computeDensityMap 2 s = Contract.Revert "Image not found" /\
  (forall sender reqId,
     Contract.requestStructureDecryption sender 2 reqId s
     = if (sender =? 0)%N then Contract.Revert "Density map not computed"
       else Contract.Revert "Not owner") /\
  Contract.getEncryptedDensityMap 2 s = Contract.Revert "Not computed" /\
  Contract.getMolecularStructure 2 s = Contract.Revert "Not decrypted".
Proof.
  apply (unknown_image_is_refused contract_history 2). right. by vm_compute.
Defined.

(** A density map is computed once: from a reachable state in which the
    map of an image is computed, whatever calls follow, computeDensityMap
    reverts with "Already computed" and the view returns the same map. *)
Theorem density_map_is_computed_once cs cs' imageId :
  let s := Contract.run cs Contract.deployed in
  let s' := Contract.run cs' s in
  Contract.isComputed (Contract.density s imageId) = true ->
  Contract.computeDensityMap imageId s' = Contract.Revert "Already computed" /\
  Contract.getEncryptedDensityMap imageId s'
  = Contract.getEncryptedDensityMap imageId s.
Proof.
  intros s s' Hcomp.
  pose proof (contract_inv_run cs _ contract_inv_deployed) as Hinv. fold s in Hinv.
  pose proof (contract_extends_run cs' s Hinv) as (_ & Himg & Hden & _).
  fold s' in Himg, Hden.
  pose proof (computed_exists s imageId Hinv Hcomp) as Hid.
  pose proof Hinv as (_ & _ & I3 & _). apply I3 in Hcomp as Hr. destruct Hr as [Hr _].
  unfold Contract.computeDensityMap, Contract.getEncryptedDensityMap.
  rewrite Himg, Hden by done. rewrite Hcomp.
  by destruct (N.eqb_spec (Contract.researcher (Contract.image s imageId)) 0).
Qed.

Lemma density_map_is_computed_once_witness :
  let s := Contract.run contract_history Contract.deployed in
  let s' := Contract.run [Contract.UploadDiffractionImage 9%N 1700000100 []] s in
  Contract.computeDensityMap 1 s' = Contract.Revert "Already computed" /\
  Contract.getEncryptedDensityMap 1 s' = Contract.getEncryptedDensityMap 1 s.
Proof.
  apply (density_map_is_computed_once contract_history
           [Contract.UploadDiffractionImage 9%N 1700000100 []] 1).
  vm_compute. reflexivity.
Defined.

(** A revealed structure is final: from a reachable state in which the
    structure of an image is revealed, whatever calls follow, a further
    request for its decryption reverts ("Already decrypted" for the
    researcher, "Not owner" for anyone else), every callback for a request
    id that maps to the image reverts with "Already decrypted", and
    getMolecularStructure returns the same text. *)
Theorem revealed_structure_is_final cs cs' imageId :
  let s := Contract.run cs Contract.deployed in
  let s' := Contract.run cs' s in
  Contract.isRevealed (Contract.structure s imageId) = true ->
  (forall sender reqId,
     Contract.requestStructureDecryption sender imageId reqId s'
     = if (Contract.researcher (Contract.image s imageId) =? sender)%N
       then Contract.Revert "Already decrypted"
       else Contract.Revert "Not owner") /\
  (forall requestId signed values,
     Contract.request s' requestId = imageId ->
     Contract.decryptStructureCallback requestId signed values s'
     = Contract.Revert "Already decrypted") /\
  Contract.getMolecularStructure imageId s' = Contract.getMolecularStructure imageId s.
Proof.
  intros s s' Hrev.
  pose proof (contract_inv_run cs _ contract_inv_deployed) as Hinv. fold s in Hinv.
  pose proof (contract_extends_run cs' s Hinv) as (_ & Himg & Hden & Hstr).
  fold s' in Himg, Hden, Hstr.
  pose proof Hinv as (_ & _ & _ & I4 & _). apply I4 in Hrev as Hcomp.
  pose proof (computed_exists s imageId Hinv Hcomp) as Hid.
  split_and!.
  - intros sender reqId. unfold Contract.requestStructureDecryption.
    rewrite Himg, Hden, Hstr by done. rewrite Hcomp, Hrev.
    by destruct (_ =? sender)%N.
  - intros requestId signed values Hreq. unfold Contract.decryptStructureCallback.
    rewrite Hreq, Hstr by done. rewrite Hrev.
    destruct (N.eqb_spec imageId 0); [lia|done].
  - unfold Contract.getMolecularStructure. by rewrite Hstr.
Qed.

Lemma revealed_structure_is_final_witness :
  let s := Contract.run contract_history Contract.deployed in
  let s' := Contract.run [Contract.UploadDiffractionImage 9%N 1700000100 []] s in
  (forall sender reqId,
     Contract.requestStructureDecryption sender 1 reqId s'
     = if (Contract.researcher (Contract.image s 1) =? sender)%N
       then Contract.Revert "Already decrypted"
       else Contract.Revert "Not owner") /\
  (forall requestId signed values,
     Contract.request s' requestId = 1%N ->
     Contract.decryptStructureCallback requestId signed values s'
     = Contract.Revert "Already decrypted") /\
  Contract.getMolecularStructure 1 s' = Contract.getMolecularStructure 1 s.
Proof.
  apply (revealed_structure_is_final contract_history
           [Contract.UploadDiffractionImage 9%N 1700000100 []] 1).
  vm_compute. reflexivity.
Defined.

(** ** The workflow *)

(** The four calls of the workflow go through from every state in which
    an id is left: after an upload by [sender], computeDensityMap on the
    new id, the sender's requestStructureDecryption and a signed callback
    with [uint32] values for the request, getMolecularStructure returns
    the representation of those values, and the density map is the dummy
    map. *)
Theorem workflow_completes s sender now data reqId values :
  (Contract.imageCount s < Contract.MAX_UINT256)%N ->
  sender <> 0%N ->
  Forall (fun v => (v <= Contract.MAX_UINT32)%N) values ->
  (N.of_nat (length values) <= Contract.MAX_UINT256)%N ->
  let imageId := (Contract.imageCount s + 1)%N in
  let s' :=
    Contract.run
      [Contract.UploadDiffractionImage sender now data;
       Contract.ComputeDensityMap imageId;
       Contract.RequestStructureDecryption sender imageId reqId;
       Contract.DecryptStructureCallback reqId true (Some values)] s in
  Contract.imageCount s' = imageId /\
  Contract.image s' imageId = Contract.mkImage sender data now /\
  Contract.getEncryptedDensityMap imageId s' = Contract.Ok Contract.dummyMap /\
  Contract.getMolecularStructure imageId s'
  = Contract.Ok ("Molecular Structure:" +:+ Contract.newline +:+ atom_lines 0 values).
Proof.
  intros Hmax Hsender Hvalues Hlen imageId s'.
  pose proof (generateStructureRepresentation_spec values Hvalues Hlen) as Htext.
  set (s1 := Contract.step s (Contract.UploadDiffractionImage sender now data)).
  set (s2 := Contract.step s1 (Contract.ComputeDensityMap imageId)).
  set (s3 := Contract.step s2 (Contract.RequestStructureDecryption sender imageId reqId)).
  assert (H1 : Contract.imageCount s1 = imageId /\
               Contract.image s1 imageId = Contract.mkImage sender data now /\
               Contract.density s1 imageId = Contract.mkMap [] false /\
               Contract.structure s1 imageId = Contract.mkStructure "" false).
  { unfold s1, Contract.step. cbn [Contract.exec].
    unfold Contract.uploadDiffractionImage.
    destruct (N.ltb_spec (Contract.imageCount s) Contract.MAX_UINT256); [|lia].
    contract_reads. by rewrite !lookup_insert_eq. }
  destruct H1 as (Hc1 & Hi1 & Hd1 & Hs1).
  assert (H2 : Contract.imageCount s2 = imageId /\
               Contract.image s2 imageId = Contract.mkImage sender data now /\
               Contract.density s2 imageId = Contract.mkMap Contract.dummyMap true /\
               Contract.structure s2 imageId = Contract.mkStructure "" false).
  { unfold s2, Contract.step. cbn [Contract.exec]. unfold Contract.computeDensityMap.
    rewrite Hi1, Hd1. simpl. destruct (N.eqb_spec sender 0); [done|].
    split_and!; try done. contract_reads. by rewrite lookup_insert_eq. }
  destruct H2 as (Hc2 & Hi2 & Hd2 & Hs2).
  assert (H3 : Contract.imageCount s3 = imageId /\
               Contract.image s3 imageId = Contract.mkImage sender data now /\
               Contract.density s3 imageId = Contract.mkMap Contract.dummyMap true /\
               Contract.structure s3 imageId = Contract.mkStructure "" false /\
               Contract.request s3 reqId = imageId).
  { unfold s3, Contract.step. cbn [Contract.exec].
    unfold Contract.requestStructureDecryption.
    rewrite Hi2, Hd2, Hs2. simpl. rewrite N.eqb_refl. simpl.
    split_and!; try done. contract_reads. by rewrite lookup_insert_eq. }
  destruct H3 as (Hc3 & Hi3 & Hd3 & Hs3 & Hr3).
  assert (Hs' : s' = Contract.step s3
                       (Contract.DecryptStructureCallback reqId true (Some values)))
    by done.
  rewrite Hs'. unfold Contract.step. cbn [Contract.exec].
  unfold Contract.decryptStructureCallback. rewrite Hr3, Hs3.
  cbn [Contract.isRevealed negb mbind option_bind].
  destruct (N.eqb_spec imageId 0); [lia|]. rewrite Htext.
  unfold Contract.getEncryptedDensityMap, Contract.getMolecularStructure.
  split_and!; [done | done | |].
  - change (Contract.density _ imageId) with (Contract.density s3 imageId).
    by rewrite Hd3.
  - contract_reads. by rewrite lookup_insert_eq.
Qed.

Lemma workflow_completes_witness :
  let imageId := (Contract.imageCount Contract.deployed + 1)%N in
  let s' :=
    Contract.run
      [Contract.UploadDiffractionImage 7%N 1700000000 [Contract.ciphertext 1];
       Contract.ComputeDensityMap imageId;
       Contract.RequestStructureDecryption 7%N imageId 55;
       Contract.DecryptStructureCallback 55 true (Some [0; 100; 200]%N)]
      Contract.deployed in
  Contract.imageCount s' = imageId /\
  Contract.image s' imageId = Contract.mkImage 7%N [Contract.ciphertext 1] 1700000000 /\
  Contract.getEncryptedDensityMap imageId s' = Contract.Ok Contract.dummyMap /\
  Contract.getMolecularStructure imageId s'
  = Contract.Ok ("Molecular Structure:" +:+ Contract.newline
                 +:+ atom_lines 0 [0; 100; 200]%N).
Proof.
  apply (workflow_completes Contract.deployed 7%N 1700000000 [Contract.ciphertext 1] 55
           [0; 100; 200]%N).
  - by vm_compute.
  - done.
  - repeat constructor; by vm_compute.
  - by vm_compute.
Defined.

(** * The front end, continued *)

(** ** The image payload *)

Lemma b64_val_char n :
  (n < 64)%N -> b64_val (b64_char n) = Some n /\ Ascii.eqb (b64_char n) "=" = false.
Proof.
  intros Hn. rewrite <- (N2Nat.id n). assert (Hk : (N.to_nat n < 64)%nat) by lia.
  revert Hk. generalize (N.to_nat n). intros k Hk.
  do 64 (destruct k as [|k]; [by vm_compute|]). lia.
Qed.

Ltac euclid := Z.to_euclidean_division_equations; lia.

Lemma atob_btoa s : atob (btoa s) = Some s.
Proof.
  assert (H : forall n s, (String.length s <= n)%nat -> atob (btoa s) = Some s).
  { clear s. induction n as [|n IH]; intros s Hlen.
    { destruct s; [done | simpl in Hlen; lia]. }
    destruct s as [|a [|b [|c r]]]; [done|..].
    - pose proof (N_ascii_bounded a) as Ha.
      set (x := N_of_ascii a) in *. cbn [btoa]. fold x.
      destruct (b64_val_char (x / 4)) as [E1 _]; [zify; euclid|].
      destruct (b64_val_char (x mod 4 * 16)) as [E2 _]; [zify; euclid|].
      cbn [atob]. rewrite E1, E2. simpl.
      replace (x / 4 * 4 + x mod 4 * 16 / 16)%N with x by (zify; euclid).
      unfold x. by rewrite ascii_N_embedding.
    - pose proof (N_ascii_bounded a) as Ha. pose proof (N_ascii_bounded b) as Hb.
      set (x := N_of_ascii a) in *. set (y := N_of_ascii b) in *.
      cbn [btoa]. fold x y.
      destruct (b64_val_char (x / 4)) as [E1 _]; [zify; euclid|].
      destruct (b64_val_char (x mod 4 * 16 + y / 16)) as [E2 _]; [zify; euclid|].
      destruct (b64_val_char (y mod 16 * 4)) as [E3 N3]; [zify; euclid|].
      cbn [atob]. rewrite E1, E2. cbn [mbind option_bind]. rewrite N3, E3.
      simpl.
      replace (x / 4 * 4 + (x mod 4 * 16 + y / 16) / 16)%N with x by (zify; euclid).
      replace ((x mod 4 * 16 + y / 16) mod 16 * 16 + y mod 16 * 4 / 4)%N with y by (zify; euclid).
      unfold x, y. by rewrite !ascii_N_embedding.
    - pose proof (N_ascii_bounded a) as Ha. pose proof (N_ascii_bounded b) as Hb.
      pose proof (N_ascii_bounded c) as Hc.
      set (x := N_of_ascii a) in *. set (y := N_of_ascii b) in *.
      set (z := N_of_ascii c) in *.
      cbn [btoa]. fold x y z.
      destruct (b64_val_char (x / 4)) as [E1 _]; [zify; euclid|].
      destruct (b64_val_char (x mod 4 * 16 + y / 16)) as [E2 _]; [zify; euclid|].
      destruct (b64_val_char (y mod 16 * 4 + z / 64)) as [E3 N3]; [zify; euclid|].
      destruct (b64_val_char (z mod 64)) as [E4 N4]; [zify; euclid|].
      cbn [atob]. rewrite E1, E2. cbn [mbind option_bind]. rewrite N3, E3.
      cbn [mbind option_bind]. rewrite N4, E4. cbn [mbind option_bind].
      rewrite IH by (simpl in Hlen; lia). cbn [mbind option_bind].
      replace (x / 4 * 4 + (x mod 4 * 16 + y / 16) / 16)%N with x by (zify; euclid).
      replace ((x mod 4 * 16 + y / 16) mod 16 * 16 + (y mod 16 * 4 + z / 64) / 4)%N
        with y by (zify; euclid).
      replace ((y mod 16 * 4 + z / 64) mod 4 * 64 + z mod 64)%N with z by (zify; euclid).
      unfold x, y, z. by rewrite !ascii_N_embedding. }
  by apply (H (String.length s)).
Qed.

Lemma strip_prefix_app p s : strip_prefix p (p +:+ s) = Some s.
Proof.
  induction p as [|c p IH]; [done|]. rewrite app_cons. simpl.
  by rewrite Ascii.eqb_refl.
Qed.

Lemma read_image_btoa text :
  read_image ("FHE-" +:+ btoa text)
  = (v ← JSON_parse text;
     match prop v "imageName", prop v "description" with
     | Some (JStr n), Some (JStr d) => Some (n, d)
     | _, _ => None
     end).
Proof.
  unfold read_image. rewrite strip_prefix_app. cbn [mbind option_bind].
  by rewrite atob_btoa.
Qed.

Lemma wf_form n d : wf (JObj [("imageName", JStr n); ("description", JStr d)]) = true.
Proof.
  apply wf_JObj. split; [|split].
  - apply (bool_decide_unpack _). by vm_compute.
  - by vm_compute.
  - done.
Qed.

(** The "encryption" of line 145 hides nothing: the image name and the
    description are read back from the stored [image] field by dropping
    the prefix, decoding base64 and parsing the JSON text, without any
    key; so two forms with the same payload are the same form. *)
Theorem encrypt_is_readable nd :
  read_image (encrypt nd) = Some nd /\
  (forall nd', encrypt nd' = encrypt nd -> nd' = nd).
Proof.
  assert (Hread : forall x, read_image (encrypt x) = Some x).
  { intros [n d]. unfold encrypt. cbn [fst snd].
    rewrite read_image_btoa, JSON_parse_stringify by apply wf_form.
    reflexivity. }
  split; [apply Hread|].
  intros nd' Heq. pose proof (Hread nd') as H'. rewrite Heq, Hread in H'. congruence.
Qed.

(** ** Reads after writes *)

Lemma record_key_inj a b : record_key a = record_key b -> a = b.
Proof. apply string_app_inv_head. Qed.

Lemma omap_ext_in {A B} (f g : A -> option B) (l : list A) :
  (forall x, x ∈ l -> f x = g x) -> omap f l = omap g l.
Proof.
  induction l as [|x l IH]; intros H; [done|]. cbn [omap list_omap].
  rewrite (H x) by by left. rewrite IH; [done|]. intros y Hy. apply H. by right.
Qed.

Lemma load_keys_storage w w' : storage w' = storage w -> load_keys w' = load_keys w.
Proof. unfold load_keys, getData. by intros ->. Qed.

Lemma load_entry_storage w w' key :
  storage w' = storage w -> load_entry w' key = load_entry w key.
Proof. unfold load_entry, getData. by intros ->. Qed.


Lemma load_entry_written key value w x :
  (forall k, to_string x = Some k -> record_key k <> key) ->
  load_entry (written key value w) x = load_entry w x.
Proof.
  unfold load_entry. destruct (to_string x) as [k|]; simpl; [|done]. intros H.
  rewrite getData_written, decide_False; [done|]. intros E. by apply (H k).
Qed.

Lemma load_keys_written key value w :
  key <> "analysis_keys" -> load_keys (written key value w) = load_keys w.
Proof. intros H. unfold load_keys. by rewrite getData_written, decide_False. Qed.

Lemma keeps_ret {A} (a : A) : keeps_flags (ret a).
Proof. by intros w. Qed.

Lemma keeps_throw {A} e : keeps_flags (@throw A e).
Proof. by intros w. Qed.

Lemma keeps_bind {A B} (m : M A) (k : A -> M B) :
  keeps_flags m -> (forall a, keeps_flags (k a)) -> keeps_flags (bind m k).
Proof.
  intros Hm Hk w. unfold bind. specialize (Hm w).
  destruct (m w) as [[a|e] w1]; simpl in *; [|done].
  destruct (Hk a w1) as [-> ->]. done.
Qed.

Lemma keeps_setData key value : keeps_flags (setData key value).
Proof. intros w. unfold setData. by destruct (answers w) as [|[m|] rest]. Qed.

Lemma keeps_readData key : keeps_flags (readData key).
Proof. by intros w. Qed.

Lemma keeps_getContractWithSigner : keeps_flags getContractWithSigner.
Proof. intros w. unfold getContractWithSigner. by destruct (signer w). Qed.

Lemma keeps_engine {A} e (o : option A) : keeps_flags (engine e o).
Proof. destruct o; [apply keeps_ret | apply keeps_throw]. Qed.


Lemma keeps_process_try analysisId : keeps_flags (process_try analysisId).
Proof.
  unfold process_try.
  repeat (first [ apply keeps_bind; [|intros ?] | apply keeps_setData
                | apply keeps_readData | apply keeps_getContractWithSigner
                | apply keeps_engine | apply keeps_throw
                | match goal with |- keeps_flags (if ?b then _ else _) => destruct b end ]).
Qed.

Lemma refresh_listing w st l :
  loadAnalysisData w = Some l -> analysisData (refresh w st) = l.
Proof. unfold refresh. by intros ->. Qed.

(** ** uploadXrayImage and the listing *)



Lemma uploadXrayImage_success now suffix now' st w :
  provider st = true ->
  transactionStatus (uploadXrayImage now suffix now' st w).1 = Success ->
  exists ks, load_keys w = JArr ks /\
    (uploadXrayImage now suffix now' st w).2
    = written "analysis_keys"
        (JSON_stringify (JArr (ks ++ [JStr (make_id now suffix)])))
        (written (record_key (make_id now suffix))
           (JSON_stringify (new_record (encrypt (newAnalysisData st)) now' (account st)))
           w).
Proof.
  intros Hp Hok.
  rewrite (uploadXrayImage_status _ _ _ _ _ Hp) in Hok.
  rewrite (uploadXrayImage_world _ _ _ _ _ Hp).
  destruct (upload_try_cases st now suffix now' w)
    as [(e' & w' & Hrun & _) | [(e' & w' & Hrun & _) | (ks & Hks & Hrun)]];
    rewrite Hrun in *; cbn [fst snd] in *; [done|done|].
  by exists ks.
Qed.

Lemma toLowerCase_isOwner viewer account :
  isOwner viewer (Some (JStr account))
  = Some (bool_decide (toLowerCase viewer = toLowerCase account)).
Proof.
  unfold isOwner. f_equal.
  destruct (String.eqb_spec (toLowerCase viewer) (toLowerCase account)) as [H|H].
  - by rewrite bool_decide_eq_true_2.
  - by rewrite bool_decide_eq_false_2.
Qed.

(** A successful upload is on screen, and its uploader may process it:
    the entry of the new id decodes to the uploaded record (the form's
    payload, the uploader's account, status "processing"); every listing
    of the new ledger holds it, and it is that listing the screen shows;
    the row and the details modal offer "process" to a viewer exactly when
    the viewer's account is the uploader's up to letter case. *)
Theorem successful_upload_is_listed now suffix now' st w :
  provider st = true ->
  Z.of_N (now' / 1000) <= MAX_SAFE_INTEGER ->
  transactionStatus (uploadXrayImage now suffix now' st w).1 = Success ->
  let out := uploadXrayImage now suffix now' st w in
  let r := uploaded now suffix now' st in
  load_entry out.2 (JStr (make_id now suffix)) = Some r /\
  (forall l, loadAnalysisData out.2 = Some l -> analysisData out.1 = l /\ r ∈ l) /\
  (forall viewer,
     row_offers_process viewer r
     = Some (bool_decide (toLowerCase viewer = toLowerCase (account st))) /\
     modal_offers_process viewer r
     = Some (bool_decide (toLowerCase viewer = toLowerCase (account st)))).
Proof.
  intros Hp Htime Hok out r.
  destruct (uploadXrayImage_success _ _ _ _ _ Hp Hok) as (ks & Hks & Hout).
  fold out in Hout.
  assert (Hentry : load_entry out.2 (JStr (make_id now suffix)) = Some r).
  { rewrite Hout. unfold load_entry. cbn [to_string mbind option_bind].
    rewrite !getData_written.
    rewrite decide_False by (intros E; symmetry in E; by apply record_key_not_index in E).
    rewrite decide_True by done.
    destruct (String.eqb_spec (JSON_stringify
                (new_record (encrypt (newAnalysisData st)) now' (account st))) "")
      as [E|_]; [by apply stringify_nonempty in E|].
    by apply decode_new_record. }
  split; [done|]. split.
  - intros l Hl. split.
    + unfold out, uploadXrayImage. rewrite Hp. simpl.
      unfold out in Hl. rewrite (uploadXrayImage_world _ _ _ _ _ Hp) in Hl.
      rewrite (uploadXrayImage_status _ _ _ _ _ Hp) in Hok.
      destruct (upload_try st now suffix now' w) as [[[]|e'] w']; [|done].
      by apply refresh_listing.
    + apply loadAnalysisData_inv in Hl as (ks' & Hks' & Hl).
      apply list_of_keys_Some in Hl as [_ Hl].
      apply (sort_perm newest_first) in Hl. rewrite Hl.
      apply list_elem_of_omap. exists (JStr (make_id now suffix)). split; [|done].
      rewrite Hout, load_keys_written_index in Hks'.
      * injection Hks' as <-. apply elem_of_app. right. by left.
      * pose proof (load_keys_wf w) as Hwf. rewrite Hks in Hwf. simpl in Hwf |- *.
        rewrite forallb_app, Hwf. done.
  - intros viewer. unfold row_offers_process, modal_offers_process, r, uploaded.
    cbn [owner]. rewrite toLowerCase_isOwner. cbn [mbind option_bind].
    unfold is_processing. cbn [status]. simpl String.eqb. by rewrite andb_true_r.
Qed.

Lemma successful_upload_is_listed_witness :
  let out := uploadXrayImage 1700000000123 "k3j9x2a" 1700000000456 alice
               (ledger_one "processing" []) in
  let r := uploaded 1700000000123 "k3j9x2a" 1700000000456 alice in
  load_entry out.2 (JStr (make_id 1700000000123 "k3j9x2a")) = Some r /\
  (forall l, loadAnalysisData out.2 = Some l -> analysisData out.1 = l /\ r ∈ l) /\
  (forall viewer,
     row_offers_process viewer r
     = Some (bool_decide (toLowerCase viewer = toLowerCase (account alice))) /\
     modal_offers_process viewer r
     = Some (bool_decide (toLowerCase viewer = toLowerCase (account alice)))).
Proof.
  apply (successful_upload_is_listed 1700000000123 "k3j9x2a" 1700000000456 alice
           (ledger_one "processing" [])).
  - reflexivity.
  - by vm_compute.
  - vm_compute. reflexivity.
Defined.

(** ** processWithFHE and the listing *)

Section sort_fmap.
Context {A : Type} (comparefn : A -> A -> option Z) (f : A -> A).
Hypothesis same : forall a b, comparefn (f a) (f b) = comparefn a b.

Lemma sort_insert_fmap x (l : list A) :
  sort_insert comparefn (f x) (f <$> l) = fmap (M:=list) f <$> sort_insert comparefn x l.
Proof.
  induction l as [|y l IH]; [done|]. cbn [fmap list_fmap sort_insert].
  rewrite same. destruct (comparefn x y) as [c|]; [|done]. cbn [mbind option_bind].
  destruct (0 <? c); [|done]. fold (fmap f l). rewrite IH.
  by destruct (sort_insert comparefn x l).
Qed.

Lemma sort_fmap (l : list A) :
  sort comparefn (f <$> l) = fmap (M:=list) f <$> sort comparefn l.
Proof.
  induction l as [|x l IH]; [done|]. cbn [fmap list_fmap sort].
  fold (fmap f l). rewrite IH. destruct (sort comparefn l) as [r|]; [|done].
  apply sort_insert_fmap.
Qed.
End sort_fmap.

Lemma newest_first_completed k a b :
  newest_first (completed k a) (completed k b) = newest_first a b.
Proof. unfold newest_first, completed. by repeat case_decide. Qed.

(** A successful processWithFHE shows in the listing as the completion
    of one record and nothing else.  On a ledger whose entries are
    [in_range], for every id but "keys" (whose entry is the index itself)
    and for an entry that is not the text [null] (which no listing shows
    before, and every listing after): the call succeeds exactly when there
    is a signer, the entry is JSON text and the wallet lets the write
    through; and after a call that succeeds the listing of the new ledger
    is the old listing, in the same order, with the record of the
    processed id completed (density map and structure set to the two
    place holders, status "completed") and every other record as it
    was. *)
Theorem processing_updates_the_listing analysisId st w k :
  provider st = true ->
  ledger_in_range w = true ->
  to_string analysisId = Some k ->
  k <> "keys" ->
  JSON_parse (getData w (record_key k)) <> Some JNull ->
  (transactionStatus (processWithFHE analysisId st w).1 = Success <->
   signer w = true /\ JSON_valid (getData w (record_key k)) = true /\
   accepts w = true) /\
  (transactionStatus (processWithFHE analysisId st w).1 = Success ->
   loadAnalysisData (processWithFHE analysisId st w).2
   = fmap (M:=list) (completed k) <$> loadAnalysisData w).
Proof.
  intros Hp Hrange Hk Hkeys Hnull. split.
  { split.
    - intros Hok.
      destruct (processWithFHE_success _ _ _ Hp Hok)
        as (k' & v & Hs & Ha & Hk' & _ & Hv & _).
      assert (k' = k) as -> by congruence.
      split; [done|]. split; [|done]. by apply JSON_parse_valid in Hv.
    - intros (Hs & Hvalid & Ha).
      destruct (in_range_valid _ (ledger_in_range_entry w (record_key k) Hrange) Hvalid)
        as [v Hv].
      rewrite processWithFHE_status by done.
      rewrite (process_try_run analysisId w k v Hs Ha Hk); [done| |done].
      intros He. rewrite He in Hv. discriminate Hv. }
  intros Hok.
  destruct (processWithFHE_success _ _ _ Hp Hok)
    as (k' & v & _ & _ & Hk' & Hne & Hv & ->).
  assert (k' = k) as -> by congruence.
  assert (Hv' : v <> JNull) by congruence.
  pose proof (JSON_parse_wf _ _ Hv) as Hwf.
  unfold loadAnalysisData. cbn [reader available written].
  destruct (negb (reader w)); [done|]. destruct (negb (available w)); [done|].
  rewrite load_keys_written
    by (intros E; by apply (string_app_inv_head "analysis_") in E).
  destruct (iterate (load_keys w)) as [ks|]; [|done]. cbn [mbind option_bind].
  rewrite !list_of_keys_eq. destruct (forallb has_text ks); [|done].
  rewrite <- (sort_fmap newest_first (completed k) (newest_first_completed k)).
  f_equal. rewrite list_fmap_omap. apply omap_ext_in. intros x _.
  destruct (to_string x) as [kx|] eqn:Hx.
  - destruct (decide (kx = k)) as [->|Hkx].
    + unfold load_entry. rewrite Hx. cbn [mbind option_bind].
      rewrite getData_written, decide_True by done.
      destruct (String.eqb_spec (JSON_stringify (updatedData v)) "") as [E|_];
        [by apply stringify_nonempty in E|].
      destruct (String.eqb_spec (getData w (record_key k)) "") as [E|_]; [done|].
      rewrite (decode_updated x v Hwf), (decode_parsed x _ v Hv Hv').
      cbn [fmap option_fmap option_map]. unfold completed. cbn [id].
      by rewrite decide_True.
    + rewrite load_entry_written.
      * destruct (load_entry w x) as [r|] eqn:Hr; [|done]. simpl.
        apply load_entry_id in Hr. unfold completed.
        rewrite decide_False; [done|]. rewrite Hr, Hx. congruence.
      * intros k'' Hk'' E%record_key_inj. congruence.
  - unfold load_entry. by rewrite Hx.
Qed.

Lemma processing_updates_the_listing_witness :
  let w := ledger_one "processing" [] in
  (transactionStatus (processWithFHE (JStr "r1") alice w).1 = Success <->
   signer w = true /\ JSON_valid (getData w (record_key "r1")) = true /\
   accepts w = true) /\
  (transactionStatus (processWithFHE (JStr "r1") alice w).1 = Success ->
   loadAnalysisData (processWithFHE (JStr "r1") alice w).2
   = fmap (M:=list) (completed "r1") <$> loadAnalysisData w).
Proof.
  apply (processing_updates_the_listing (JStr "r1") alice (ledger_one "processing" []) "r1").
  - reflexivity.
  - vm_compute. reflexivity.
  - reflexivity.
  - discriminate.
  - vm_compute. discriminate.
Defined.

(** ** When a listing fails *)

Lemma newest_first_None a b :
  newest_first a b = None <-> comparable a = false \/ comparable b = false.
Proof.
  unfold newest_first, comparable.
  destruct (to_number (timestamp b)), (to_number (timestamp a)); simpl;
    intuition congruence.
Qed.

Lemma sort_newest_first_None l :
  sort newest_first l = None <->
  (2 <= length l)%nat /\ exists r, r ∈ l /\ comparable r = false.
Proof.
  split.
  - intros Hnone. split.
    + destruct l as [|x [|y l]]; [done|done|simpl; lia].
    + destruct (decide (Forall (fun r => comparable r = true) l)) as [Hall|Hex].
      * destruct (sort_is_Some newest_first l) as [l' Hl']; [|congruence].
        intros x y Hx Hy. rewrite Forall_forall in Hall.
        destruct (newest_first x y) eqn:E; [done|].
        apply newest_first_None in E as [E|E];
          [rewrite (Hall x Hx) in E | rewrite (Hall y Hy) in E]; done.
      * apply not_Forall_Exists in Hex; [|apply _].
        apply Exists_exists in Hex as (r & Hr & Hbad). exists r. split; [done|].
        simpl in Hbad. by destruct (comparable r).
  - intros [Hlen (r & Hr & Hbad)].
    induction l as [|x l IH]; [simpl in Hlen; lia|]. simpl.
    destruct (sort newest_first l) as [l'|] eqn:Hl'; [|done]. simpl.
    assert (Hhead : exists y l'', l' = y :: l'' /\
                      (comparable x = false \/ comparable y = false)).
    { apply elem_of_cons in Hr as [->|Hr].
      - destruct l' as [|y l''].
        + apply sort_perm in Hl'. symmetry in Hl'.
          apply Permutation_nil_r in Hl'. subst l. simpl in Hlen. lia.
        + exists y, l''. by split; [|left].
      - destruct l as [|z [|z' l]]; [simpl in Hlen; lia| |].
        + apply list_elem_of_singleton in Hr as ->. simpl in Hl'.
          injection Hl' as <-. exists z, []. by split; [|right].
        + assert (Some l' = None) by (apply IH; [simpl; lia | done]). done. }
    destruct Hhead as (y & l'' & -> & Hxy). simpl.
    apply newest_first_None in Hxy. by rewrite Hxy.
Qed.

Lemma forallb_has_text_false ks :
  forallb has_text ks = false -> exists key, key ∈ ks /\ to_string key = None.
Proof.
  induction ks as [|key ks IH]; [done|]. cbn [forallb].
  destruct (has_text key) eqn:Hkey; cbn [andb].
  - intros (key' & Hin & Hnone)%IH. exists key'. split; [by right | done].
  - intros _. exists key. split; [by left|].
    unfold has_text in Hkey. by destruct (to_string key).
Qed.

(** The causes of a listing that fails (and so leaves the list on
    screen as it is), on a ledger whose entries are [in_range], are these
    and no others: no read-only contract, a contract that is not
    available, an index whose text parses to a value that cannot be
    iterated (not an array and not a string), a key of the index that has
    no text, or, among two or more decoded records, one whose timestamp
    has no number, on which the comparison of the sort throws. *)
Theorem listing_fails_exactly_when w :
  ledger_in_range w = true ->
  (loadAnalysisData w = None <->
   reader w = false \/ available w = false \/ iterate (load_keys w) = None \/
   exists ks, iterate (load_keys w) = Some ks /\
     ((exists key, key ∈ ks /\ to_string key = None) \/
      (2 <= length (omap (load_entry w) ks))%nat /\
      exists r, r ∈ omap (load_entry w) ks /\ comparable r = false)).
Proof.
  intros _. unfold loadAnalysisData.
  destruct (reader w); simpl; [|by split; [left|]].
  destruct (available w); simpl; [|by split; [right; left|]].
  destruct (iterate (load_keys w)) as [ks|]; simpl; [|by split; [right; right; left|]].
  rewrite list_of_keys_eq. destruct (forallb has_text ks) eqn:Ht.
  - rewrite sort_newest_first_None. split.
    + intros H. right. right. right. exists ks. split; [done|]. by right.
    + intros [?|[?|[?|(ks' & [= <-] & [(key & Hin & Hnone)|H])]]]; try done.
      rewrite forallb_forall in Ht.
      pose proof (Ht key (proj1 (list_elem_of_In _ _) Hin)) as Hkey.
      unfold has_text in Hkey. by rewrite Hnone in Hkey.
  - split; [|done]. intros _. right. right. right. exists ks. split; [done|].
    left. by apply forallb_has_text_false.
Qed.

Lemma listing_fails_exactly_when_witness :
  loadAnalysisData ledger_key_without_text = None <->
  reader ledger_key_without_text = false \/
  available ledger_key_without_text = false \/
  iterate (load_keys ledger_key_without_text) = None \/
  exists ks, iterate (load_keys ledger_key_without_text) = Some ks /\
    ((exists key, key ∈ ks /\ to_string key = None) \/
     (2 <= length (omap (load_entry ledger_key_without_text) ks))%nat /\
     exists r, r ∈ omap (load_entry ledger_key_without_text) ks /\
               comparable r = false).
Proof.
  apply (listing_fails_exactly_when ledger_key_without_text).
  vm_compute. reflexivity.
Defined.

(** ** processWithFHE on an entry that is missing or is not JSON *)

(** What stops processWithFHE before the wallet is asked: without a
    signer, on an id that has no text, on an id whose entry is absent or
    empty ("Analysis not found"), or whose bytes are not JSON text
    ([JSON_valid] refuses them), the call fails with the error of the
    first of these that applies, and the world (the ledger, and the
    answers the wallet has in store) and the list on screen are
    untouched. *)
Theorem processing_stops_before_the_wallet analysisId st w :
  provider st = true ->
  (signer w = false \/ to_string analysisId = None \/
   exists k, to_string analysisId = Some k /\
     (getData w (record_key k) = "" \/
      JSON_valid (getData w (record_key k)) = false)) ->
  processWithFHE analysisId st w
  = (setTransactionStatus
       (Failure
          (if signer w then
             match to_string analysisId with
             | None => TypeError
             | Some k =>
                 if String.eqb (getData w (record_key k)) ""
                 then Error "Analysis not found" else SyntaxError
             end
           else Error "Failed to get contract with signer")) st, w).
Proof.
  intros Hp Hcause. unfold processWithFHE. rewrite Hp. simpl.
  unfold process_try, bind, getContractWithSigner.
  destruct (signer w) eqn:Hs; [|done].
  destruct (to_string analysisId) as [k|] eqn:Hk; [|done]. simpl.
  unfold bind, readData. simpl.
  destruct (String.eqb_spec (getData w (record_key k)) "") as [He|Hne]; [done|].
  destruct Hcause as [?|[?|(k' & [= <-] & [?|Hparse%JSON_valid_false])]]; try done.
  unfold bind. by rewrite Hparse.
Qed.

Lemma processing_stops_before_the_wallet_witness :
  processWithFHE (JStr "ghost") alice (ledger_one "processing" [None])
  = (setTransactionStatus
       (Failure
          (if signer (ledger_one "processing" [None]) then
             match to_string (JStr "ghost") with
             | None => TypeError
             | Some k =>
                 if String.eqb (getData (ledger_one "processing" [None]) (record_key k)) ""
                 then Error "Analysis not found" else SyntaxError
             end
           else Error "Failed to get contract with signer")) alice,
     ledger_one "processing" [None]).
Proof.
  apply (processing_stops_before_the_wallet (JStr "ghost") alice
           (ledger_one "processing" [None])).
  - reflexivity.
  - right. right. exists "ghost". split; [reflexivity|]. left. vm_compute. reflexivity.
Defined.

(** ** Ledgers that the application has built *)

Lemma indexed_storage w w' ids :
  storage w' = storage w -> indexed w ids -> indexed w' ids.
Proof.
  intros Hs [Hk He]. split; [by rewrite (load_keys_storage _ _ Hs)|].
  intros i Hi. rewrite (load_entry_storage _ _ _ Hs). by apply He.
Qed.

Lemma well_typed_uploaded now suffix now' st :
  Z.of_N (now' / 1000) <= MAX_SAFE_INTEGER ->
  well_typed (uploaded now suffix now' st) = true.
Proof.
  intros Ht. unfold well_typed, uploaded. simpl.
  pose proof (N2Z.is_nonneg (now' / 1000)).
  destruct (Z.leb_spec (- MAX_SAFE_INTEGER) (Z.of_N (now' / 1000))) as [_|Hl];
    [|unfold MAX_SAFE_INTEGER in Hl; lia].
  by destruct (Z.leb_spec (Z.of_N (now' / 1000)) MAX_SAFE_INTEGER) as [_|Hl]; [|lia].
Qed.

Lemma load_entry_written_record k bytes w :
  bytes <> "" ->
  load_entry (written (record_key k) bytes w) (JStr k) = decode (JStr k) bytes.
Proof.
  intros Hne. unfold load_entry. cbn [to_string mbind option_bind].
  rewrite getData_written, decide_True by done.
  by destruct (String.eqb_spec bytes "").
Qed.

Lemma indexed_written_record ids w now suffix now' st :
  Z.of_N (now' / 1000) <= MAX_SAFE_INTEGER ->
  indexed w ids ->
  indexed (written (record_key (make_id now suffix))
             (JSON_stringify (new_record (encrypt (newAnalysisData st)) now' (account st)))
             w) ids /\
  load_entry (written (record_key (make_id now suffix))
                (JSON_stringify (new_record (encrypt (newAnalysisData st)) now' (account st)))
                w) (JStr (make_id now suffix))
  = Some (uploaded now suffix now' st).
Proof.
  intros Ht [Hk He].
  assert (Hnew : forall w0,
            load_entry (written (record_key (make_id now suffix))
                          (JSON_stringify
                             (new_record (encrypt (newAnalysisData st)) now' (account st)))
                          w0) (JStr (make_id now suffix))
            = Some (uploaded now suffix now' st)).
  { intros w0. rewrite load_entry_written_record by apply stringify_nonempty.
    by apply decode_new_record. }
  split; [|apply Hnew]. split; [by rewrite load_keys_written_record|].
  intros i Hi. destruct (He i Hi) as (Hik & r & Hr & Hwt). split; [done|].
  destruct (decide (i = make_id now suffix)) as [->|Hne].
  - exists (uploaded now suffix now' st). split; [apply Hnew|].
    by apply well_typed_uploaded.
  - exists r. split; [|done]. rewrite load_entry_written; [done|].
    intros k [= <-] E%record_key_inj. done.
Qed.

Lemma indexed_written_index ids w (x : string) :
  x <> "keys" ->
  (exists r, load_entry w (JStr x) = Some r /\ well_typed r = true) ->
  indexed w ids ->
  indexed (written "analysis_keys" (JSON_stringify (JArr (JStr <$> ids ++ [x]))) w)
    (ids ++ [x]).
Proof.
  intros Hx Hr [Hk He]. split.
  - rewrite load_keys_written_index; [done|].
    simpl. apply forallb_forall. intros v Hv. apply in_map_iff in Hv as (i & <- & _). done.
  - intros i Hi.
    assert (Hi' : i <> "keys" /\ exists r, load_entry w (JStr i) = Some r /\ well_typed r = true).
    { apply elem_of_app in Hi as [Hi|Hi%list_elem_of_singleton]; [by apply He|].
      by subst. }
    destruct Hi' as (Hik & r & Hri & Hwt). split; [done|]. exists r. split; [|done].
    rewrite load_entry_written; [done|].
    intros k [= <-] E. by apply (string_app_inv_head "analysis_") in E.
Qed.

Lemma indexed_upload now suffix now' st w ids :
  Z.of_N (now' / 1000) <= MAX_SAFE_INTEGER ->
  indexed w ids ->
  exists ids', indexed (uploadXrayImage now suffix now' st w).2 ids'.
Proof.
  intros Ht Hind. unfold uploadXrayImage.
  destruct (provider st); simpl; [|by exists ids].
  destruct (indexed_written_record ids w now suffix now' st Ht Hind) as [Hrec Hnew].
  assert (Hw : (let (c, w') := upload_try st now suffix now' w in
                match c with
                | Return _ => (refresh w' (setTransactionStatus Success st), w')
                | Throw e => (setTransactionStatus (Failure e) st, w')
                end).2 = (upload_try st now suffix now' w).2).
  { by destruct (upload_try st now suffix now' w) as [[[]|e] w']. }
  rewrite Hw.
  destruct (upload_try_cases st now suffix now' w)
    as [(e' & w' & Hrun & Hs & _) | [(e' & w' & Hrun & Hs & _) | (ks & Hks & Hrun)]];
    rewrite Hrun; cbn [snd].
  - exists ids. by apply (indexed_storage w).
  - exists ids. eapply indexed_storage; [exact Hs|]. exact Hrec.
  - exists (ids ++ [make_id now suffix]).
    destruct Hind as [Hk _]. rewrite Hk in Hks. injection Hks as <-.
    replace ((JStr <$> ids) ++ [JStr (make_id now suffix)])
      with (JStr <$> ids ++ [make_id now suffix]) by by rewrite fmap_app.
    apply indexed_written_index; [|by eauto using well_typed_uploaded|done].
    intros E. apply (record_key_not_index now suffix). by rewrite E.
Qed.

Lemma well_typed_completed key v :
  well_typed (mkData key (prop v "image") (prop v "densityMap") (prop v "structure")
                (prop v "timestamp") (prop v "owner")
                (or_default (prop v "status") (JStr "processing"))) = true ->
  well_typed (mkData key (prop v "image") (Some (JStr "FHE-ENCRYPTED-DENSITY-MAP"))
                (Some (JStr "FHE-ENCRYPTED-STRUCTURE")) (prop v "timestamp")
                (prop v "owner") (JStr "completed")) = true.
Proof.
  unfold well_typed. cbn [id encryptedImage densityMap molecularStructure timestamp
                          owner status].
  rewrite !andb_true_iff. intros [[[[[[-> ->] _] _] ->] ->] _]. done.
Qed.

Lemma indexed_process analysisId st w k ids :
  to_string analysisId = Some k -> k <> "keys" ->
  indexed w ids -> indexed (processWithFHE analysisId st w).2 ids.
Proof.
  intros Hk Hkeys Hind. unfold processWithFHE.
  destruct (provider st); simpl; [|done].
  assert (Hw : (let (c, w') := process_try analysisId w in
                match c with
                | Return _ => (refresh w' (setTransactionStatus Success st), w')
                | Throw e => (setTransactionStatus (Failure e) st, w')
                end).2 = (process_try analysisId w).2).
  { by destruct (process_try analysisId w) as [[[]|e] w']. }
  rewrite Hw.
  destruct (process_try_cases analysisId w)
    as [(e & w' & Hrun & Hs & _) | (k' & v & _ & _ & Hk' & Hne & Hv & Hrun)];
    rewrite Hrun; cbn [snd]; [by apply (indexed_storage w)|].
  assert (k' = k) as -> by congruence.
  destruct Hind as [Hkeys' He]. split.
  - rewrite load_keys_written; [done|].
    intros E. by apply (string_app_inv_head "analysis_") in E.
  - intros i Hi. destruct (He i Hi) as (Hik & r & Hr & Hwt). split; [done|].
    destruct (decide (i = k)) as [->|Hne'].
    + rewrite load_entry_written_record by apply stringify_nonempty.
      rewrite (decode_updated _ v (JSON_parse_wf _ _ Hv)). eexists. split; [done|].
      unfold load_entry in Hr. cbn [to_string mbind option_bind] in Hr.
      destruct (String.eqb_spec (getData w (record_key k)) "") as [|_]; [done|].
      assert (Hnull : v <> JNull).
      { intros ->. unfold decode in Hr. by rewrite Hv in Hr. }
      rewrite (decode_parsed _ _ v Hv Hnull) in Hr. injection Hr as <-.
      by apply well_typed_completed.
    + exists r. split; [|done]. rewrite load_entry_written; [done|].
      intros k'' [= <-] E%record_key_inj. done.
Qed.

Lemma built_indexed w : built w -> exists ids, indexed w ids.
Proof.
  induction 1 as [w Hs | w w' _ [ids IH] Hs | now suffix now' st w _ [ids IH] Ht
                 | analysisId st w k _ [ids IH] Hk Hkeys].
  - exists []. split; [|by intros i Hi%elem_of_nil].
    unfold load_keys, getData. by rewrite Hs, lookup_empty.
  - exists ids. by apply (indexed_storage w).
  - by apply (indexed_upload _ _ _ _ _ ids).
  - exists ids. by apply (indexed_process _ _ _ k).
Qed.

Lemma indexed_entries w ids :
  (forall i, i ∈ ids ->
     i <> "keys" /\ exists r, load_entry w (JStr i) = Some r /\ well_typed r = true) ->
  id <$> omap (load_entry w) (JStr <$> ids) = JStr <$> ids /\
  Forall (fun r => well_typed r = true) (omap (load_entry w) (JStr <$> ids)).
Proof.
  induction ids as [|i ids IH]; intros He; [by split|].
  destruct (He i) as (_ & r & Hr & Hwt); [by left|].
  destruct IH as [IH1 IH2]; [intros j Hj; apply He; by right|].
  cbn [fmap list_fmap omap list_omap]. rewrite Hr.
  fold (fmap (M:=list) JStr ids). fold (omap (load_entry w) (JStr <$> ids)).
  split.
  - cbn [fmap list_fmap]. fold (fmap (M:=list) id (omap (load_entry w) (JStr <$> ids))).
    rewrite IH1. f_equal. by apply load_entry_id in Hr.
  - by constructor.
Qed.

Lemma well_typed_comparable r : well_typed r = true -> comparable r = true.
Proof.
  unfold well_typed, comparable. rewrite !andb_true_iff.
  intros [[[[[[_ _] _] _] Ht] _] _]. revert Ht. unfold is_time.
  by destruct (timestamp r) as [[]|].
Qed.

(** On a ledger that only the application has written, a listing never
    fails and never skips an id: whenever the contract can be read, the
    index is a list of id texts, the listing holds one record for each of
    them (its ids are the index ids, up to order), and every record is
    typed as [interface CrystallographyData] says.  Writing the record
    before the index is what keeps the index from naming a missing
    entry. *)
Theorem built_ledger_lists_every_id w :
  built w -> reader w = true -> available w = true ->
  exists ids l,
    load_keys w = JArr (JStr <$> ids) /\
    loadAnalysisData w = Some l /\
    id <$> l ≡ₚ JStr <$> ids /\
    Forall (fun r => well_typed r = true) l.
Proof.
  intros Hb Hr Ha. destruct (built_indexed w Hb) as (ids & Hk & He).
  destruct (indexed_entries w ids He) as [Hids Hwt].
  rewrite (loadAnalysisData_eq w Hr Ha), Hk. cbn [iterate mbind option_bind].
  rewrite list_of_keys_eq.
  replace (forallb has_text (JStr <$> ids)) with true
    by (symmetry; apply forallb_forall; by intros x (i & <- & _)%in_map_iff).
  destruct (sort_is_Some newest_first (omap (load_entry w) (JStr <$> ids))) as [l Hl].
  { intros x y Hx Hy. rewrite Forall_forall in Hwt.
    destruct (newest_first x y) eqn:E; [done|].
    apply newest_first_None in E as [E|E];
      [rewrite (well_typed_comparable x) in E | rewrite (well_typed_comparable y) in E];
      auto; done. }
  exists ids, l. split; [done|]. split; [done|].
  pose proof (sort_perm _ _ _ Hl) as Hp. split.
  - by rewrite Hp, Hids.
  - by rewrite Hp.
Qed.

Lemma built_ledger_lists_every_id_witness :
  let w := (processWithFHE (JStr "1700000000123-k3j9x2a") alice
              (uploadXrayImage 1700000000123 "k3j9x2a" 1700000000456 alice
                 empty_ledger).2).2 in
  exists ids l,
    load_keys w = JArr (JStr <$> ids) /\
    loadAnalysisData w = Some l /\
    id <$> l ≡ₚ JStr <$> ids /\
    Forall (fun r => well_typed r = true) l.
Proof.
  apply (built_ledger_lists_every_id
           (processWithFHE (JStr "1700000000123-k3j9x2a") alice
              (uploadXrayImage 1700000000123 "k3j9x2a" 1700000000456 alice
                 empty_ledger).2).2).
  - apply (built_process _ _ _ "1700000000123-k3j9x2a"); [|reflexivity|discriminate].
    apply built_upload; [|by vm_compute]. apply built_empty. reflexivity.
  - vm_compute. reflexivity.
  - vm_compute. reflexivity.
Defined.

(** The id "keys" is the exception: its entry is the index, which
    processWithFHE then reads as a record and writes back as an object;
    the call succeeds, and no listing can be made of the ledger after
    it. *)
Example processing_the_index_breaks_the_listing :
  let out := processWithFHE (JStr "keys") alice (ledger_one "processing" []) in
  transactionStatus out.1 = Success /\
  loadAnalysisData (ledger_one "processing" [])
  = Some [listed "r1" 100 "0xA11CE" "processing"] /\
  loadAnalysisData out.2 = None.
Proof. vm_compute. repeat split. Qed.

(** ** Disconnecting *)

Lemma toLowerCase_empty a : toLowerCase a = "" -> a = "".
Proof. by destruct a. Qed.

(** After onDisconnect nothing can be written and nothing is offered:
    uploadXrayImage and processWithFHE return at once, leaving the state
    and the world as they are, and neither the rows nor the details modal
    offer processing of a record whose owner is a non-empty text; the list
    on screen stays. *)
Theorem disconnect_stops_writes st w :
  let st' := onDisconnect st in
  (forall now suffix now', uploadXrayImage now suffix now' st' w = (st', w)) /\
  (forall analysisId, processWithFHE analysisId st' w = (st', w)) /\
  (forall data a, owner data = Some (JStr a) -> a <> "" ->
     row_offers_process (account st') data = Some false /\
     modal_offers_process (account st') data = Some false) /\
  analysisData st' = analysisData st.
Proof.
  intros st'. split_and!; try done.
  intros data a Ha Hne. unfold row_offers_process, modal_offers_process.
  rewrite Ha. cbn [account st' onDisconnect]. rewrite toLowerCase_isOwner.
  rewrite bool_decide_eq_false_2.
  - cbn [mbind option_bind]. by destruct (is_processing data).
  - intros E. symmetry in E. by apply toLowerCase_empty in E.
Qed.
